(** * Vehicle event generator: motion model, dispatch pipeline and feed loop

    A shallow embedding of [vehicle_generator/models.py], of the fleet
    setup, event encoding, dispatch and accounting code of
    [vehicle_generator/generator.py], and of the [feed] command of
    [vehicle_generator/cli.py].

    Numbers.  The Python code computes on [float].  The functions of
    [models.py] are written once over a scalar interface, which has two
    instances:
    - [R]: exact real arithmetic, with the Standard Library's [sin], [cos],
      [asin], [atan], [sqrt] standing for the [math] module.  The [math]
      functions are total here; that [math.sqrt] and [math.asin] are called
      within their domains is [Exact.haversine_argument_range];
    - binary64 ([PrimFloat]): the arithmetic Python really performs, for the
      functions that use [+], [-] and [*] only (the [math] module has no
      binary64 counterpart here).

    Integers.  [current_waypoint_index] is a Python [int]: a [Z], and list
    subscripts follow Python (negative subscripts count from the end, a
    subscript out of range raises [IndexError]).

    Effects.  A call that can raise returns an [outcome].  The producer
    client is an interface with an explicit state; the chunk submissions
    that [asyncio.gather] runs concurrently are run one after the other on
    that state, and what is proved in general does not depend on their
    order.  Random draws are an argument of the fleet setup.  Wall
    clock time, pacing and the text of the log are left out; the feed loop
    runs one iteration per timestamp it is given. *)

From Stdlib Require Import Floats.
From Stdlib Require Import ZArith List Bool String DecimalString Permutation.
From Stdlib Require DecimalFacts DecimalNat.
From Stdlib Require Import Reals Lra Lia.
Import ListNotations.

Set Implicit Arguments.

(* ================================================================= *)
(** ** Outcomes of a call *)

(** A call returns, raises [IndexError], or exhausts the fuel of a loop
    (shown below never to happen with the fuel [advance] supplies). *)
Inductive outcome (A : Type) : Type :=
| Returns (a : A)
| IndexError
| OutOfFuel.

Arguments IndexError {A}.
Arguments OutOfFuel {A}.

Definition bind {A B : Type} (m : outcome A) (k : A -> outcome B) : outcome B :=
  match m with
  | Returns a => k a
  | IndexError => IndexError
  | OutOfFuel => OutOfFuel
  end.

Notation "x <- m ;; k" := (bind m (fun x => k))
  (at level 61, m at next level, right associativity).

(** Python's [l[i]]. *)
Definition py_index {A : Type} (l : list A) (i : Z) : outcome A :=
  let n := Z.of_nat (List.length l) in
  let j := if (i <? 0)%Z then (n + i)%Z else i in
  if ((j <? 0) || (n <=? j))%Z then IndexError
  else match nth_error l (Z.to_nat j) with
       | Some a => Returns a
       | None => IndexError
       end.

(** Python's [len(l)]. *)
Definition len {A : Type} (l : list A) : Z := Z.of_nat (List.length l).

(* ================================================================= *)
(** ** Scalars *)

(** The arithmetic the code uses on floats: literals, [+ - * /], [>=], [==]. *)
Class Arith (F : Type) : Type := {
  lit : Z -> F;
  add : F -> F -> F;
  sub : F -> F -> F;
  mul : F -> F -> F;
  div : F -> F -> F;
  geb : F -> F -> bool;
  eqb : F -> F -> bool
}.

(** What the code takes from Python's [math] module, and float [%].  The
    functions are total here.  Python's raise [ValueError] outside their
    domain ([math.sin] and [math.cos] at an infinity, [math.asin] and
    [math.sqrt] outside [[-1, 1]] and below 0); on the reals the code stays
    within the domains ([Exact.haversine_argument_range]), which is why the
    properties that say a call returns are stated for the exact reals. *)
Class Libm (F : Type) : Type := {
  radians : F -> F;
  degrees : F -> F;
  msin : F -> F;
  mcos : F -> F;
  masin : F -> F;
  msqrt : F -> F;
  matan2 : F -> F -> F;
  fmod : F -> F -> F
}.

(** *** Exact reals *)

Definition Rgeb (a b : R) : bool := if Rge_dec a b then true else false.
Definition Reqb (a b : R) : bool := if Req_dec_T a b then true else false.

#[export] Instance Arith_R : Arith R := {
  lit := IZR;
  add := Rplus;
  sub := Rminus;
  mul := Rmult;
  div := Rdiv;
  geb := Rgeb;
  eqb := Reqb
}.

(** [math.atan2(y, x)]: the angle of the point [(x, y)], in [(-PI, PI]]. *)
Definition Ratan2 (y x : R) : R :=
  (if Rlt_dec 0 x then atan (y / x)
   else if Rlt_dec x 0 then
          if Rle_dec 0 y then atan (y / x) + PI else atan (y / x) - PI
   else if Rlt_dec 0 y then PI / 2
   else if Rlt_dec y 0 then - (PI / 2)
   else 0)%R.

(** Python's [x % y] on floats: [x - floor(x / y) * y]. *)
Definition Rfmod (x y : R) : R := (x - IZR (Int_part (x / y)) * y)%R.

#[export] Instance Libm_R : Libm R := {
  radians := fun x => (x * PI / 180)%R;
  degrees := fun x => (x * 180 / PI)%R;
  msin := sin;
  mcos := cos;
  masin := asin;
  msqrt := sqrt;
  matan2 := Ratan2;
  fmod := Rfmod
}.

(** *** binary64 *)

Definition float_of_Z (z : Z) : float :=
  match z with
  | Z0 => PrimFloat.zero
  | Zpos _ => PrimFloat.of_uint63 (Uint63.of_Z z)
  | Zneg _ => PrimFloat.opp (PrimFloat.of_uint63 (Uint63.of_Z (- z)))
  end.

#[export] Instance Arith_b64 : Arith float := {
  lit := float_of_Z;
  add := PrimFloat.add;
  sub := PrimFloat.sub;
  mul := PrimFloat.mul;
  div := PrimFloat.div;
  geb := fun a b => PrimFloat.leb b a;
  eqb := PrimFloat.eqb
}.

(* ================================================================= *)
(** ** models.py *)

Section Models.

Context {F : Type} {AF : Arith F}.

Definition point : Type := (F * F)%type.

Record Route : Type := {
  tag : string;
  title : string;
  waypoints : list point
}.

Record Vehicle : Type := {
  id : string;
  route : Route;
  current_waypoint_index : Z;
  progress_to_next_waypoint : F;
  speed_km_hr : F;
  heading : F
}.

Definition set_heading (v : Vehicle) (h : F) : Vehicle :=
  {| id := id v; route := route v;
     current_waypoint_index := current_waypoint_index v;
     progress_to_next_waypoint := progress_to_next_waypoint v;
     speed_km_hr := speed_km_hr v;
     heading := h |}.

Definition set_index_progress (v : Vehicle) (i : Z) (p : F) : Vehicle :=
  {| id := id v; route := route v;
     current_waypoint_index := i;
     progress_to_next_waypoint := p;
     speed_km_hr := speed_km_hr v;
     heading := heading v |}.

(** [if not self.route.waypoints] *)
Definition is_empty {A : Type} (l : list A) : bool :=
  match l with [] => true | _ :: _ => false end.

(** [Vehicle.get_current_position] *)
Definition get_current_position (v : Vehicle) : outcome point :=
  let wps := waypoints (route v) in
  if is_empty wps then Returns (lit 0, lit 0)
  else if (current_waypoint_index v >=? len wps - 1)%Z then
    py_index wps (-1)
  else
    current_waypoint <- py_index wps (current_waypoint_index v) ;;
    next_waypoint <- py_index wps (current_waypoint_index v + 1) ;;
    let lat := add (fst current_waypoint)
                   (mul (sub (fst next_waypoint) (fst current_waypoint))
                        (progress_to_next_waypoint v)) in
    let lon := add (snd current_waypoint)
                   (mul (sub (snd next_waypoint) (snd current_waypoint))
                        (progress_to_next_waypoint v)) in
    Returns (lat, lon).

Context {LF : Libm F}.

(** [x ** 2] *)
Definition sq (x : F) : F := mul x x.

(** [Route.get_distance_between_points] (the haversine formula; [self] is
    not used by the method). *)
Definition get_distance_between_points (point1 point2 : point) : F :=
  let '(lat1, lon1) := point1 in
  let '(lat2, lon2) := point2 in
  let lat1_rad := radians lat1 in
  let lon1_rad := radians lon1 in
  let lat2_rad := radians lat2 in
  let lon2_rad := radians lon2 in
  let dlat := sub lat2_rad lat1_rad in
  let dlon := sub lon2_rad lon1_rad in
  let a := add (sq (msin (div dlat (lit 2))))
               (mul (mul (mcos lat1_rad) (mcos lat2_rad))
                    (sq (msin (div dlon (lit 2))))) in
  let c := mul (lit 2) (masin (msqrt a)) in
  let r := lit 6371 in
  mul c r.

(** The bearing computed by [Vehicle.update_heading] (its lines from
    "Calculate bearing" to [bearing_degrees]) for the segment from
    [current_waypoint] to [next_waypoint]. *)
Definition bearing_degrees (current_waypoint next_waypoint : point) : F :=
  let '(lat1, lon1) := current_waypoint in
  let '(lat2, lon2) := next_waypoint in
  let lat1_rad := radians lat1 in
  let lat2_rad := radians lat2 in
  let dlon_rad := radians (sub lon2 lon1) in
  let y := mul (msin dlon_rad) (mcos lat2_rad) in
  let x := sub (mul (mcos lat1_rad) (msin lat2_rad))
               (mul (mul (msin lat1_rad) (mcos lat2_rad)) (mcos dlon_rad)) in
  let bearing := matan2 y x in
  fmod (add (degrees bearing) (lit 360)) (lit 360).

(** [Vehicle.update_heading] *)
Definition update_heading (v : Vehicle) : outcome Vehicle :=
  let wps := waypoints (route v) in
  if (current_waypoint_index v >=? len wps - 1)%Z then Returns v
  else
    current_waypoint <- py_index wps (current_waypoint_index v) ;;
    next_waypoint <- py_index wps (current_waypoint_index v + 1) ;;
    Returns (set_heading v (bearing_degrees current_waypoint next_waypoint)).

(** The [while] loop of [Vehicle.advance], on the pair (index, progress);
    [last] is [len(self.route.waypoints) - 1]. *)
Fixpoint advance_loop (fuel : nat) (last : Z) (idx : Z) (progress : F)
  : outcome (Z * F) :=
  if geb progress (lit 1) && (idx <? last)%Z then
    match fuel with
    | O => OutOfFuel
    | S fuel' =>
        let progress := sub progress (lit 1) in
        let idx := (idx + 1)%Z in
        if (idx >=? last)%Z then Returns (0%Z, lit 0)
        else advance_loop fuel' last idx progress
    end
  else Returns (idx, progress).

(** [Vehicle.advance] *)
Definition advance (v : Vehicle) (time_step_seconds : F) : outcome Vehicle :=
  let wps := waypoints (route v) in
  if is_empty wps || (current_waypoint_index v >=? len wps - 1)%Z then
    Returns v
  else
    let distance_km := mul (div (speed_km_hr v) (lit 3600)) time_step_seconds in
    current_waypoint <- py_index wps (current_waypoint_index v) ;;
    next_waypoint <- py_index wps (current_waypoint_index v + 1) ;;
    let segment_distance :=
      get_distance_between_points current_waypoint next_waypoint in
    if eqb segment_distance (lit 0) then
      Returns (set_index_progress v (current_waypoint_index v + 1) (lit 0))
    else
      let progress_increment := div distance_km segment_distance in
      let progress := add (progress_to_next_waypoint v) progress_increment in
      ip <- advance_loop (Z.to_nat (len wps - 1 - current_waypoint_index v))
                         (len wps - 1) (current_waypoint_index v) progress ;;
      update_heading (set_index_progress v (fst ip) (snd ip)).

(** A sequence of [advance] calls, one per time step of the list. *)
Fixpoint advance_many (v : Vehicle) (steps : list F) : outcome Vehicle :=
  match steps with
  | [] => Returns v
  | dt :: rest => v' <- advance v dt ;; advance_many v' rest
  end.

End Models.

Arguments Route F : clear implicits.
Arguments Vehicle F : clear implicits.
Arguments point F : clear implicits.

(* ================================================================= *)
(** ** generator.py: the producer client *)

(** [EventDataBatch.add]: the event is added, or the batch is full
    ([ValueError]), or the call raises something else. *)
Inductive add_result (Batch : Type) : Type :=
| Added (b : Batch)
| BatchFull
| AddError.

Arguments BatchFull {Batch}.
Arguments AddError {Batch}.

(** The part of [EventHubProducerClient] the pipeline uses.  [Sink] is the
    state of the client; [None] and [false] stand for a raised exception. *)
Class ProducerClient (Sink Batch Event : Type) : Type := {
  create_batch : Sink -> Sink * option Batch;
  batch_add : Batch -> Event -> add_result Batch;
  send_batch : Sink -> Batch -> Sink * bool
}.

(** A client for the scenarios: a batch holds at most [cap] events, and
    the [k]-th call of [send_batch] raises when [fails k]. *)
Record Hub (Event : Type) : Type := {
  sends : nat;
  delivered : list (list Event)
}.

Definition hub_client (Event : Type) (cap : nat) (fails : nat -> bool)
  : ProducerClient (Hub Event) (list Event) Event := {|
  create_batch := fun s => (s, Some []);
  batch_add := fun b e =>
    if (List.length b <? cap)%nat then Added (b ++ [e]) else BatchFull;
  send_batch := fun s b =>
    if fails (sends s)
    then ({| sends := S (sends s); delivered := delivered s |}, false)
    else ({| sends := S (sends s); delivered := delivered s ++ [b] |}, true)
|}.

(* ================================================================= *)
(** ** generator.py: the dispatch pipeline *)

(** [range(0, stop, step)] *)
Definition py_range0 (stop step : nat) : list nat :=
  map (fun k => (k * step)%nat) (seq 0 ((stop + step - 1) / step)).

(** [l[i:j]] for [0 <= i <= j] *)
Definition py_slice {A : Type} (l : list A) (i j : nat) : list A :=
  firstn (j - i) (skipn i l).

(** [sum(l)] *)
Definition py_sum (l : list Z) : Z := fold_right Z.add 0%Z l.

Section Dispatch.

Context {Sink Batch Event : Type} {PC : ProducerClient Sink Batch Event}.

(** The [for] loop of [_send_single_batch]; [None] when a call raises. *)
Fixpoint fill_batches (s : Sink) (event_data_batch : Batch)
  (events_in_batch : Z) (events : list Event) : Sink * option (Batch * Z) :=
  match events with
  | [] => (s, Some (event_data_batch, events_in_batch))
  | event_data :: rest =>
      match batch_add event_data_batch event_data with
      | Added b => fill_batches s b (events_in_batch + 1) rest
      | AddError => (s, None)
      | BatchFull =>
          let '(s1, sent) :=
            if (events_in_batch >? 0)%Z then send_batch s event_data_batch
            else (s, true) in
          if sent then
            match create_batch s1 with
            | (s2, Some fresh) =>
                match batch_add fresh event_data with
                | Added b => fill_batches s2 b 1 rest
                | _ => (s2, None)
                end
            | (s2, None) => (s2, None)
            end
          else (s1, None)
      end
  end.

(** The [try] block of [_send_single_batch]; [None] when it raises. *)
Definition try_send_single_batch (s : Sink) (events_batch : list Event)
  : Sink * option Z :=
  match create_batch s with
  | (s1, None) => (s1, None)
  | (s1, Some event_data_batch) =>
      match fill_batches s1 event_data_batch 0 events_batch with
      | (s2, None) => (s2, None)
      | (s2, Some (b, events_in_batch)) =>
          if (events_in_batch >? 0)%Z then
            match send_batch s2 b with
            | (s3, true) => (s3, Some (len events_batch))
            | (s3, false) => (s3, None)
            end
          else (s2, Some (len events_batch))
      end
  end.

(** [_send_single_batch]: an exception is caught and counted as 0. *)
Definition _send_single_batch (s : Sink) (events_batch : list Event)
  : Sink * Z :=
  match try_send_single_batch s events_batch with
  | (s', Some n) => (s', n)
  | (s', None) => (s', 0%Z)
  end.

(** The [event_batches] of [_send_events_parallel_batches]. *)
Definition event_batches (batch_size : nat) (events_to_send : list Event)
  : list (list Event) :=
  map (fun i => py_slice events_to_send i (i + batch_size))
      (py_range0 (List.length events_to_send) batch_size).

(** [asyncio.gather] over the batches: every batch is submitted, the results
    are collected in order.  The submissions are run here one after the
    other on the client's state, while [asyncio.gather] interleaves them at
    every [await]: the order in which the client sees the calls of different
    chunks is that of this schedule only.  What is proved of a tick in
    general (counts, sizes, which events are delivered) does not depend on
    it; the scenarios on a hub that fails at its n-th call are evaluated for
    this schedule. *)
Fixpoint gather_batches (s : Sink) (batches : list (list Event))
  : Sink * list Z :=
  match batches with
  | [] => (s, [])
  | b :: rest =>
      let '(s1, n) := _send_single_batch s b in
      let '(s2, ns) := gather_batches s1 rest in
      (s2, n :: ns)
  end.

(** Which of the submissions of [gather_batches] raised. *)
Fixpoint gather_failures (s : Sink) (batches : list (list Event))
  : list bool :=
  match batches with
  | [] => []
  | b :: rest =>
      let '(s1, r) := try_send_single_batch s b in
      (match r with None => true | Some _ => false end)
        :: gather_failures s1 rest
  end.

(** The batches of a tick whose submission raised. *)
Definition failed_batches (s : Sink) (batches : list (list Event))
  : list (list Event) :=
  map fst (filter snd (combine batches (gather_failures s batches))).

Definition batch_size : nat := 100.

(** [_send_events_parallel_batches] *)
Definition _send_events_parallel_batches (s : Sink)
  (events_to_send : list Event) : Sink * Z :=
  if is_empty events_to_send then (s, 0%Z)
  else
    let '(s', batch_results) :=
      gather_batches s (event_batches batch_size events_to_send) in
    (s', py_sum batch_results).

End Dispatch.

(* ================================================================= *)
(** ** generator.py: the feed loop *)

Section Feed.

Context {F : Type} {AF : Arith F} {LF : Libm F}.

(** The payload of [_create_event_data_optimized] (the envelope properties,
    among them a random [ce-id], are left out). *)
Record EventData : Type := {
  ev_agency : string;
  ev_routeTag : string;
  ev_vehicleId : string;
  ev_lat : F;
  ev_lon : F;
  ev_heading : F;
  ev_speedKmHr : F;
  ev_timestamp : string;
  ev_predictable : bool
}.

Definition _create_event_data_optimized (vehicle : Vehicle F)
  (agency time_iso : string) : outcome EventData :=
  pos <- get_current_position vehicle ;;
  Returns {| ev_agency := agency;
             ev_routeTag := tag (route vehicle);
             ev_vehicleId := id vehicle;
             ev_lat := fst pos;
             ev_lon := snd pos;
             ev_heading := heading vehicle;
             ev_speedKmHr := speed_km_hr vehicle;
             ev_timestamp := time_iso;
             ev_predictable := true |}.

(** [_create_all_events_optimized]: one event per vehicle, in order. *)
Fixpoint _create_all_events_optimized (vehicles : list (Vehicle F))
  (agency time_iso : string) : outcome (list EventData) :=
  match vehicles with
  | [] => Returns []
  | v :: rest =>
      e <- _create_event_data_optimized v agency time_iso ;;
      es <- _create_all_events_optimized rest agency time_iso ;;
      Returns (e :: es)
  end.

(** [advance_vehicles] *)
Fixpoint advance_vehicles (vehicles : list (Vehicle F))
  (time_step_seconds : F) : outcome (list (Vehicle F)) :=
  match vehicles with
  | [] => Returns []
  | v :: rest =>
      v' <- advance v time_step_seconds ;;
      rest' <- advance_vehicles rest time_step_seconds ;;
      Returns (v' :: rest')
  end.

Context {Sink Batch : Type} {PC : ProducerClient Sink Batch EventData}.

(** [send_vehicle_events], for a started client.  The Python function
    returns [None]; the second component is the [total_events_sent] it
    writes to the log. *)
Definition send_vehicle_events (s : Sink) (vehicles : list (Vehicle F))
  (agency time_iso : string) : outcome (Sink * Z) :=
  events_to_send <- _create_all_events_optimized vehicles agency time_iso ;;
  Returns (_send_events_parallel_batches s events_to_send).

(** The variables of [run_feed]: the client, [self.vehicles], the two
    counters, and the per-tick totals logged by [send_vehicle_events]. *)
Record FeedState : Type := {
  producer_client : Sink;
  vehicles : list (Vehicle F);
  total_events_sent : Z;
  batch_count : Z;
  logged_totals : list Z
}.

(** One iteration of the [while self.running] loop of [run_feed] (pacing
    and the periodic report are left out). *)
Definition feed_iteration (agency : string) (num_vehicles : Z)
  (poll_interval : F) (st : FeedState) (time_iso : string)
  : outcome FeedState :=
  r <- send_vehicle_events (producer_client st) (vehicles st)
                           agency time_iso ;;
  let total_events_sent := (total_events_sent st + num_vehicles)%Z in
  let batch_count := (batch_count st + 1)%Z in
  vs <- advance_vehicles (vehicles st) poll_interval ;;
  Returns {| producer_client := fst r;
             vehicles := vs;
             total_events_sent := total_events_sent;
             batch_count := batch_count;
             logged_totals := logged_totals st ++ [snd r] |}.

(** The [while self.running] loop of [run_feed], one iteration per
    timestamp of [ticks]: the loop stops when [ticks] is exhausted (a stop
    request or an interrupt). *)
Fixpoint feed_loop (agency : string) (num_vehicles : Z) (poll_interval : F)
  (st : FeedState) (ticks : list string) : outcome FeedState :=
  match ticks with
  | [] => Returns st
  | t :: rest =>
      st' <- feed_iteration agency num_vehicles poll_interval st t ;;
      feed_loop agency num_vehicles poll_interval st' rest
  end.

End Feed.

(* ================================================================= *)
(** ** The instances at exact reals *)

Definition VehicleR : Type := Vehicle R.
Definition distance : point R -> point R -> R :=
  get_distance_between_points.
Definition bearing : point R -> point R -> R := bearing_degrees.

(* ================================================================= *)
(** ** generator.py: fleet setup and [run_feed] *)

(** [create_demo_routes] *)
Definition create_demo_routes : list (Route R) :=
  [ {| tag := "manhattan-loop"; title := "Manhattan Downtown Loop";
       waypoints := [(40.7128, -74.0060); (40.7505, -73.9934);
                     (40.7829, -73.9654); (40.7614, -73.9776);
                     (40.7282, -73.9942); (40.7128, -74.0060)]%R |};
    {| tag := "brooklyn-express"; title := "Brooklyn Express";
       waypoints := [(40.6892, -73.9442); (40.6441, -73.9570);
                     (40.6195, -73.9776); (40.5795, -73.9707);
                     (40.6195, -73.9776); (40.6441, -73.9570);
                     (40.6892, -73.9442)]%R |};
    {| tag := "queens-connector"; title := "Queens Connector";
       waypoints := [(40.7282, -73.7949); (40.7505, -73.8370);
                     (40.7682, -73.8370); (40.7505, -73.8756);
                     (40.7282, -73.8370); (40.7282, -73.7949)]%R |} ].

(** The three random draws [setup_vehicles] makes for a vehicle:
    [random.randint(0, max(0, len(route.waypoints) - 2))],
    [random.uniform(0.0, 1.0)] and [random.uniform(20.0, 40.0)]. *)
Record Draws : Type := {
  starting_waypoint : Z;
  starting_progress : R;
  speed : R
}.

(** [f"{n:03d}"] *)
Definition format_03d (n : nat) : string :=
  let digits := NilEmpty.string_of_uint (Nat.to_uint n) in
  match String.length digits with
  | 1%nat => ("00" ++ digits)%string
  | 2%nat => ("0" ++ digits)%string
  | _ => digits
  end.

(** The routes [setup_vehicles] distributes the vehicles over. *)
Definition candidate_routes (route_tag : option string) : list (Route R) :=
  let routes := create_demo_routes in
  let routes :=
    match route_tag with
    | Some t =>
        if negb (t =? "")%string && negb (t =? "all-routes")%string
        then filter (fun r => (tag r =? t)%string) routes
        else routes
    | None => routes
    end in
  if is_empty routes then firstn 1 create_demo_routes else routes.

(** The [for i in range(num_vehicles)] loop of [setup_vehicles], from
    vehicle [i] on, for [count] vehicles; [random i] are the draws of
    vehicle [i]. *)
Fixpoint setup_vehicles_from (routes : list (Route R))
  (random : nat -> Draws) (i count : nat) : outcome (list VehicleR) :=
  match count with
  | O => Returns []
  | S count' =>
      route <- py_index routes (Z.of_nat i mod len routes) ;;
      vehicle <-
        update_heading
          {| id := ("vehicle-" ++ format_03d (i + 1))%string;
             route := route;
             current_waypoint_index := starting_waypoint (random i);
             progress_to_next_waypoint := starting_progress (random i);
             speed_km_hr := speed (random i);
             heading := 0%R |} ;;
      rest <- setup_vehicles_from routes random (S i) count' ;;
      Returns (vehicle :: rest)
  end.

(** [setup_vehicles] (the agency is not used by it) *)
Definition setup_vehicles (route_tag : option string) (num_vehicles : Z)
  (random : nat -> Draws) : outcome (list VehicleR) :=
  setup_vehicles_from (candidate_routes route_tag) random 0
                      (Z.to_nat num_vehicles).

(** The draws are within the bounds [setup_vehicles] asks for. *)
Definition draws_in_range (route_tag : option string)
  (random : nat -> Draws) : Prop :=
  forall (i : nat) (route : Route R),
    py_index (candidate_routes route_tag)
             (Z.of_nat i mod len (candidate_routes route_tag))
    = Returns route ->
    (0 <= starting_waypoint (random i)
     <= Z.max 0 (len (waypoints route) - 2))%Z
    /\ (0 <= starting_progress (random i) <= 1)%R
    /\ (20 <= speed (random i) <= 40)%R.

(** [run_feed], for a started client: the fleet is set up, the counters
    start at 0, and the loop runs. *)
Definition run_feed {Sink Batch : Type}
  {PC : ProducerClient Sink Batch (@EventData R)}
  (s : Sink) (agency : string) (route_tag : option string)
  (num_vehicles : Z) (poll_interval : R) (random : nat -> Draws)
  (ticks : list string) : outcome FeedState :=
  fleet <- setup_vehicles route_tag num_vehicles random ;;
  feed_loop agency num_vehicles poll_interval
    {| producer_client := s; vehicles := fleet;
       total_events_sent := 0; batch_count := 0; logged_totals := [] |}
    ticks.

(* ================================================================= *)
(** ** models.py and generator.py: the event records *)

Section Events.

Context {F : Type} {AF : Arith F}.

(** [datetime] values and [datetime.isoformat]. *)
Variable datetime : Type.
Variable isoformat : datetime -> string.

(** The values of the payload dictionaries. *)
Inductive json : Type :=
| JString (s : string)
| JNumber (x : F)
| JBool (b : bool).

(** [VehiclePosition] *)
Record VehiclePosition : Type := {
  vp_agency : string;
  vp_route_tag : string;
  vp_vehicle_id : string;
  vp_lat : F;
  vp_lon : F;
  vp_heading : F;
  vp_speed_km_hr : F;
  vp_timestamp : datetime;
  vp_predictable : bool
}.

(** [VehiclePosition.to_dict] *)
Definition to_dict (self : VehiclePosition) : list (string * json) :=
  [ ("agency", JString (vp_agency self));
    ("routeTag", JString (vp_route_tag self));
    ("vehicleId", JString (vp_vehicle_id self));
    ("lat", JNumber (vp_lat self));
    ("lon", JNumber (vp_lon self));
    ("heading", JNumber (vp_heading self));
    ("speedKmHr", JNumber (vp_speed_km_hr self));
    ("timestamp", JString (isoformat (vp_timestamp self)));
    ("predictable", JBool (vp_predictable self)) ]%string.

(** A [CloudEvent]: its attributes and its data. *)
Record CloudEvent : Type := {
  ce_attributes : list (string * string);
  ce_data : list (string * json)
}.

(** [key in attributes] *)
Definition has_key (key : string) (attributes : list (string * string))
  : bool :=
  existsb (fun kv => (fst kv =? key)%string) attributes.

(** [CloudEvent(attributes, data)], the constructor of the [cloudevents]
    package: it keeps the attributes it is given and adds [specversion],
    1.0, when they have none (it would also add an [id] and a [time]; both
    are given where the generator calls it). *)
Definition new_CloudEvent (attributes : list (string * string))
  (data : list (string * json)) : CloudEvent :=
  {| ce_attributes :=
       if has_key "specversion" attributes then attributes
       else attributes ++ [("specversion"%string, "1.0"%string)];
     ce_data := data |}.

(** [create_vehicle_position_event]; [uuid4] is the value of
    [str(uuid.uuid4())]. *)
Definition create_vehicle_position_event (vehicle : Vehicle F)
  (agency : string) (current_time : datetime) (uuid4 : string)
  : outcome CloudEvent :=
  pos <- get_current_position vehicle ;;
  let position :=
    {| vp_agency := agency;
       vp_route_tag := tag (route vehicle);
       vp_vehicle_id := id vehicle;
       vp_lat := fst pos;
       vp_lon := snd pos;
       vp_heading := heading vehicle;
       vp_speed_km_hr := speed_km_hr vehicle;
       vp_timestamp := current_time;
       vp_predictable := true |} in
  Returns
    (new_CloudEvent
       [ ("type", "vehicle.position");
         ("source", "vehicle-generator");
         ("subject", agency ++ "/" ++ id vehicle);
         ("id", uuid4);
         ("time", isoformat (vp_timestamp position));
         ("datacontenttype", "application/json") ]%string
       (to_dict position)).

(** The [event_data_dict] that [_create_event_data_optimized] serializes. *)
Definition event_data_dict (e : @EventData F) : list (string * json) :=
  [ ("agency", JString (ev_agency e));
    ("routeTag", JString (ev_routeTag e));
    ("vehicleId", JString (ev_vehicleId e));
    ("lat", JNumber (ev_lat e));
    ("lon", JNumber (ev_lon e));
    ("heading", JNumber (ev_heading e));
    ("speedKmHr", JNumber (ev_speedKmHr e));
    ("timestamp", JString (ev_timestamp e));
    ("predictable", JBool (ev_predictable e)) ]%string.

(** The [properties] that [_create_event_data_optimized] attaches;
    [event_id] is the value of [str(uuid.uuid4())]. *)
Definition event_properties (e : @EventData F) (event_id : string)
  : list (string * string) :=
  [ ("ce-specversion", "1.0");
    ("ce-type", "vehicle.position");
    ("ce-source", "vehicle-generator");
    ("ce-subject", ev_agency e ++ "/" ++ ev_vehicleId e);
    ("ce-id", event_id);
    ("ce-time", ev_timestamp e);
    ("ce-datacontenttype", "application/json") ]%string.

End Events.

(* ================================================================= *)
(** ** cli.py *)

(** [os.getenv]: the environment. *)
Definition environment : Type := string -> option string.

(** [os.getenv(key, default)] *)
Definition getenv_default (env : environment) (key default : string)
  : string :=
  match env key with
  | Some value => value
  | None => default
  end.

(** [not x] for an optional string: [None] and [""] are false values. *)
Definition is_missing (x : option string) : bool :=
  match x with
  | None => true
  | Some s => (s =? "")%string
  end.

(** The string an optional string holds ([""] for [None]; used where the
    value is known not to be missing). *)
Definition value_of (x : option string) : string :=
  match x with
  | Some s => s
  | None => ""%string
  end.

(** The arguments [feed] passes to [run_feed_async]. *)
Record FeedArguments : Type := {
  arg_event_hub_namespace : string;
  arg_event_hub_name : string;
  arg_agency : string;
  arg_route : string;
  arg_vehicles : Z;
  arg_poll_interval : R
}.

(** What [feed] does: [sys.exit(1)] after an error message, the call of
    [run_feed_async], or an uncaught [ZeroDivisionError]. *)
Inductive feed_result : Type :=
| Exit1 (message : string)
| RunFeed (arguments : FeedArguments)
| RaisesZeroDivisionError.

(** The command [feed], after [click] has read the options.  Of the
    informational output only the banner of the high-performance mode is
    kept: it prints [vehicles/poll_interval] before anything is validated,
    and the division raises for an interval of 0. *)
Definition feed (env : environment) (agency route : string) (vehicles : Z)
  (poll_interval : R) (event_hub_namespace event_hub_name : option string)
  (high_performance : bool) : feed_result :=
  let event_hub_namespace :=
    if is_missing event_hub_namespace then env "EVENT_HUB_NAMESPACE"%string
    else event_hub_namespace in
  let event_hub_name :=
    if is_missing event_hub_name
    then Some (getenv_default env "EVENT_HUB_NAME" "vehicle-events")
    else event_hub_name in
  let vehicles :=
    if high_performance && (vehicles =? 1000)%Z then 5000%Z else vehicles in
  let poll_interval :=
    if high_performance && Reqb poll_interval 0.5%R then 0.1%R
    else poll_interval in
  if high_performance && Reqb poll_interval 0%R then RaisesZeroDivisionError
  else if is_missing event_hub_namespace then
    Exit1 ("Error: Event Hub namespace is required. "
           ++ "Set EVENT_HUB_NAMESPACE environment variable or use "
           ++ "--event-hub-namespace option.")
  else if is_missing event_hub_name then
    Exit1 ("Error: Event Hub name is required. "
           ++ "Set EVENT_HUB_NAME environment variable or use "
           ++ "--event-hub-name option.")
  else if (vehicles <=? 0)%Z then
    Exit1 "Error: Number of vehicles must be positive"
  else if Rgeb 0 poll_interval then
    Exit1 "Error: Poll interval must be positive"
  else
    RunFeed {| arg_event_hub_namespace := value_of event_hub_namespace;
               arg_event_hub_name := value_of event_hub_name;
               arg_agency := agency;
               arg_route := route;
               arg_vehicles := vehicles;
               arg_poll_interval := poll_interval |}.

(** The [route_tag] that [run_feed_async] passes to [run_feed]. *)
Definition route_tag_of (route : string) : option string :=
  if (route =? "all-routes")%string then None else Some route.

(** [run_feed_async] on a started client: [run_feed] is called; an
    exception ends in [sys.exit(1)]. *)
Definition run_feed_async {Sink Batch : Type}
  {PC : ProducerClient Sink Batch (@EventData R)}
  (s : Sink) (arguments : FeedArguments) (random : nat -> Draws)
  (ticks : list string) : option FeedState :=
  match run_feed s (arg_agency arguments)
                 (route_tag_of (arg_route arguments))
                 (arg_vehicles arguments) (arg_poll_interval arguments)
                 random ticks with
  | Returns st => Some st
  | _ => None
  end.

(* ================================================================= *)
(** ** Notions for the properties, and scenario data *)

(** The bearing of the vehicle's current segment: from the waypoint at its
    index to the next one. *)
Definition current_segment_bearing (v : VehicleR) : outcome R :=
  current_waypoint <-
    py_index (waypoints (route v)) (current_waypoint_index v) ;;
  next_waypoint <-
    py_index (waypoints (route v)) (current_waypoint_index v + 1) ;;
  Returns (bearing current_waypoint next_waypoint).

(** The length of a route: the sum of the lengths of its segments. *)
Fixpoint route_length (wps : list (point R)) : R :=
  match wps with
  | a :: (b :: _) as rest => (distance a b + route_length rest)%R
  | _ => 0%R
  end.

(** The time, in seconds, a vehicle needs to cover the full route. *)
Definition full_route_time (v : VehicleR) : R :=
  (route_length (waypoints (route v)) / speed_km_hr v * 3600)%R.

(** A route whose first segment has length zero, and a vehicle at its
    first waypoint with the heading [update_heading] gives it there. *)
Definition doubled_start : Route R :=
  {| tag := "doubled-start"; title := "Doubled start";
     waypoints := [(0, 0); (0, 0); (0, 1)]%R |}.

Definition vehicle_at_doubled_start : VehicleR :=
  {| id := "vehicle-001"; route := doubled_start;
     current_waypoint_index := 0; progress_to_next_waypoint := 0%R;
     speed_km_hr := 25%R; heading := 0%R |}.

(** A route whose last segment has length zero, and a vehicle at its
    first waypoint with the heading [update_heading] gives it there. *)
Definition doubled_end : Route R :=
  {| tag := "doubled-end"; title := "Doubled end";
     waypoints := [(0, 0); (0, 1); (0, 1)]%R |}.

Definition vehicle_at_doubled_end : VehicleR :=
  {| id := "vehicle-001"; route := doubled_end;
     current_waypoint_index := 0; progress_to_next_waypoint := 0%R;
     speed_km_hr := 3600%R; heading := 90%R |}.

(** The same vehicle at the second waypoint. *)
Definition vehicle_midway_doubled_end : VehicleR :=
  {| id := "vehicle-001"; route := doubled_end;
     current_waypoint_index := 1; progress_to_next_waypoint := 0%R;
     speed_km_hr := 3600%R; heading := 0%R |}.

(** The same vehicle parked on the last waypoint. *)
Definition vehicle_parked_at_doubled_end : VehicleR :=
  {| id := "vehicle-001"; route := doubled_end;
     current_waypoint_index := 2; progress_to_next_waypoint := 0%R;
     speed_km_hr := 3600%R; heading := 0%R |}.

(** A route with one waypoint and a vehicle on it. *)
Definition single_stop : Route R :=
  {| tag := "single-stop"; title := "Single stop";
     waypoints := [(40, -74)]%R |}.

Definition vehicle_at_single_stop : VehicleR :=
  {| id := "vehicle-001"; route := single_stop;
     current_waypoint_index := 0; progress_to_next_waypoint := 0%R;
     speed_km_hr := 25%R; heading := 0%R |}.

(** A route with two waypoints and a vehicle past its end. *)
Definition short_hop : Route R :=
  {| tag := "short-hop"; title := "Short hop";
     waypoints := [(0, 0); (0, 1)]%R |}.

Definition vehicle_past_end : VehicleR :=
  {| id := "vehicle-001"; route := short_hop;
     current_waypoint_index := 5; progress_to_next_waypoint := 0%R;
     speed_km_hr := 25%R; heading := 90%R |}.

Definition vehicle_on_short_hop (progress : R) : VehicleR :=
  {| id := "vehicle-001"; route := short_hop;
     current_waypoint_index := 0; progress_to_next_waypoint := progress;
     speed_km_hr := 25%R; heading := 90%R |}.

(** binary64 scenario data: [one_tenth] is Python's [0.1]. *)
Definition one_tenth : float := 0x1.999999999999ap-4%float.

Definition steep_hop : Route float :=
  {| tag := "steep-hop"; title := "Steep hop";
     waypoints := [(1, 0); (one_tenth, 0)]%float |}.

Definition vehicle_on_steep_hop (progress : float) : Vehicle float :=
  {| id := "vehicle-001"; route := steep_hop;
     current_waypoint_index := 0; progress_to_next_waypoint := progress;
     speed_km_hr := 25%float; heading := 180%float |}.

(** The last segment of the route has a length. *)
Definition last_segment_nonzero (wps : list (point R)) : Prop :=
  forall cw nw : point R,
    py_index wps (len wps - 2) = Returns cw ->
    py_index wps (len wps - 1) = Returns nw ->
    distance cw nw <> 0%R.

(** The three ways through [advance]: the guard returns at once; a segment
    of length zero snaps to the next index and returns; otherwise the
    progress is increased, the loop runs and the heading is updated. *)
Inductive advance_path (v : VehicleR) (dt : R) (v' : VehicleR) : Prop :=
| path_parked :
    (len (waypoints (route v)) - 1 <= current_waypoint_index v)%Z ->
    v' = v ->
    advance_path v dt v'
| path_snap (cw nw : point R) :
    (current_waypoint_index v < len (waypoints (route v)) - 1)%Z ->
    py_index (waypoints (route v)) (current_waypoint_index v) = Returns cw ->
    py_index (waypoints (route v)) (current_waypoint_index v + 1)
    = Returns nw ->
    distance cw nw = 0%R ->
    v' = set_index_progress v (current_waypoint_index v + 1) 0%R ->
    advance_path v dt v'
| path_move (cw nw : point R) (i' : Z) (p' : R) :
    (current_waypoint_index v < len (waypoints (route v)) - 1)%Z ->
    py_index (waypoints (route v)) (current_waypoint_index v) = Returns cw ->
    py_index (waypoints (route v)) (current_waypoint_index v + 1)
    = Returns nw ->
    distance cw nw <> 0%R ->
    advance_loop
      (Z.to_nat (len (waypoints (route v)) - 1 - current_waypoint_index v))
      (len (waypoints (route v)) - 1) (current_waypoint_index v)
      (progress_to_next_waypoint v
       + speed_km_hr v / 3600 * dt / distance cw nw)%R
    = Returns (i', p') ->
    (0 <= p' < 1)%R ->
    (i' = 0%Z /\ p' = 0%R)
    \/ (current_waypoint_index v <= i' < len (waypoints (route v)) - 1)%Z ->
    update_heading (set_index_progress v i' p') = Returns v' ->
    advance_path v dt v'.

(** The vehicles of the data model, as far as the feed loop needs them:
    an index Python accepts as a subscript, a progress and a speed that are
    not negative. *)
Definition vehicle_ok (v : VehicleR) : Prop :=
  (- len (waypoints (route v)) <= current_waypoint_index v)%Z
  /\ (0 <= progress_to_next_waypoint v)%R
  /\ (0 <= speed_km_hr v)%R.

(** Dispatch scenarios: the events are numbers, a batch holds any chunk. *)
Definition fresh_hub (Event : Type) : Hub Event :=
  {| sends := 0; delivered := [] |}.

Definition reliable_hub : ProducerClient (Hub nat) (list nat) nat :=
  hub_client nat 1000 (fun _ => false).

(** A hub whose second [send_batch] raises. *)
Definition second_send_fails : ProducerClient (Hub nat) (list nat) nat :=
  hub_client nat 1000 (fun k => (k =? 1)%nat).

(** A hub whose batches hold three events. *)
Definition small_batches : ProducerClient (Hub nat) (list nat) nat :=
  hub_client nat 3 (fun _ => false).

(** Feed scenario: every vehicle starts at the first waypoint of its
    route with progress 0 and speed 25; every [send_batch] of the hub
    raises. *)
Definition same_draws (i : nat) : Draws :=
  {| starting_waypoint := 0; starting_progress := 0%R; speed := 25%R |}.

Definition unreachable_hub
  : ProducerClient (Hub (@EventData R)) (list (@EventData R)) (@EventData R) :=
  hub_client (@EventData R) 1000 (fun _ => true).

(** The index is within the route, as the data model asks:
    [0 <= index <= len(waypoints) - 1]. *)
Definition index_in_route {F : Type} (v : Vehicle F) : Prop :=
  (0 <= current_waypoint_index v <= len (waypoints (route v)) - 1)%Z.

(** Two vehicles are the same vehicle: same id, same route, same speed. *)
Definition same_vehicle {F : Type} (v v' : Vehicle F) : Prop :=
  id v' = id v /\ route v' = route v /\ speed_km_hr v' = speed_km_hr v.

(** A batch that was sent: it holds at least one event and at most [cap]. *)
Definition batch_ok {Event : Type} (cap : nat) (b : list Event) : Prop :=
  (1 <= List.length b <= cap)%nat.

(** A client on which the event 0 fits in no batch, not even an empty one
    (an event above the size limit of the Event Hub). *)
Definition zero_never_fits : ProducerClient (Hub nat) (list nat) nat := {|
  create_batch := fun s => (s, Some []);
  batch_add := fun b e =>
    if (e =? 0)%nat then BatchFull else Added (b ++ [e]);
  send_batch := fun s b =>
    ({| sends := S (sends s); delivered := delivered s ++ [b] |}, true)
|}.

(** The number a string of decimal digits denotes; leading zeros are
    accepted. *)
Definition parse_decimal (s : string) : option nat :=
  option_map Nat.of_uint (NilEmpty.uint_of_string s).

(** What the event of a vehicle reports, for a position [pos] of the
    vehicle. *)
Definition event_reports {F : Type} (agency time_iso : string)
  (pos : F * F) (v : Vehicle F) (e : @EventData F) : Prop :=
  ev_agency e = agency
  /\ ev_routeTag e = tag (route v)
  /\ ev_vehicleId e = id v
  /\ (ev_lat e, ev_lon e) = pos
  /\ ev_heading e = heading v
  /\ ev_speedKmHr e = speed_km_hr v
  /\ ev_timestamp e = time_iso
  /\ ev_predictable e = true.

(** Command-line scenario: only [EVENT_HUB_NAMESPACE] is set, and [feed]
    is called with [--agency demo-transit --high-performance]. *)
Definition demo_environment : environment :=
  fun key =>
    if (key =? "EVENT_HUB_NAMESPACE")%string
    then Some "demo.servicebus.windows.net"%string
    else None.

Definition demo_arguments : FeedArguments :=
  {| arg_event_hub_namespace := "demo.servicebus.windows.net";
     arg_event_hub_name := "vehicle-events";
     arg_agency := "demo-transit";
     arg_route := "all-routes";
     arg_vehicles := 5000;
     arg_poll_interval := 0.1 |}.

(** A dictionary without one key. *)
Definition without_key (key : string) (d : list (string * string))
  : list (string * string) :=
  filter (fun kv => negb (fst kv =? key)%string) d.

(** The name of a CloudEvent attribute as a property of an [EventData]. *)
Definition as_property (kv : string * string) : string * string :=
  (("ce-" ++ fst kv)%string, snd kv).

(** A client whose failures do not depend on the order of the calls: a
    batch holds at most [cap] events, and [send_batch] raises for a batch
    that holds an event the hub refuses. *)
Definition refusing_client (Event : Type) (cap : nat)
  (refused : Event -> bool)
  : ProducerClient (Hub Event) (list Event) Event := {|
  create_batch := fun s => (s, Some []);
  batch_add := fun b e =>
    if (List.length b <? cap)%nat then Added (b ++ [e]) else BatchFull;
  send_batch := fun s b =>
    if existsb refused b
    then ({| sends := S (sends s); delivered := delivered s |}, false)
    else ({| sends := S (sends s); delivered := delivered s ++ [b] |}, true)
|}.

(** No call of the client raises: [create_batch] returns a batch that
    accepts a first event, [add] raises nothing but [ValueError], and
    [send_batch] returns. *)
Definition client_never_raises {Sink Batch Event : Type}
  (PC : ProducerClient Sink Batch Event) : Prop :=
  (forall s : Sink,
      exists s' b, create_batch s = (s', Some b)
                   /\ forall e : Event, exists b', batch_add b e = Added b')
  /\ (forall (b : Batch) (e : Event), batch_add b e <> AddError)
  /\ (forall (s : Sink) (b : Batch), snd (send_batch s b) = true).

(** A hub with batches of 40 events that refuses the event 187. *)
Definition refuses_187 : ProducerClient (Hub nat) (list nat) nat :=
  refusing_client 40 (Nat.eqb 187).

(* ================================================================= *)
(** * Properties *)

(** ** List subscripts *)

Lemma len_nonneg {A : Type} (l : list A) : (0 <= len l)%Z.
Proof. unfold len. lia. Qed.

Lemma is_empty_false_len {A : Type} (l : list A) :
  is_empty l = false -> (1 <= len l)%Z.
Proof. destruct l; [discriminate|]. intros _. unfold len. simpl. lia. Qed.

Lemma is_empty_len {A : Type} (l : list A) :
  is_empty l = true <-> len l = 0%Z.
Proof.
  destruct l; unfold len; simpl; split; intros H; try reflexivity;
    try discriminate; lia.
Qed.

(** A subscript between [-len l] and [len l - 1] never raises. *)
Lemma py_index_in_range {A : Type} (l : list A) (i : Z) :
  (- len l <= i < len l)%Z -> exists a, py_index l i = Returns a.
Proof.
  intros Hi. unfold py_index. fold (len l).
  set (j := if (i <? 0)%Z then (len l + i)%Z else i).
  assert (Hj : (0 <= j < len l)%Z).
  { subst j. destruct (Z.ltb_spec i 0); lia. }
  replace ((j <? 0)%Z || (len l <=? j)%Z) with false
    by (symmetry; apply orb_false_iff; split;
        [apply Z.ltb_ge | apply Z.leb_gt]; lia).
  destruct (nth_error l (Z.to_nat j)) eqn:E; [eauto|].
  apply nth_error_None in E. unfold len in Hj. lia.
Qed.

Lemma nth_error_last {A : Type} (l : list A) (a d : A) :
  nth_error (a :: l) (List.length l) = Some (last (a :: l) d).
Proof.
  revert a. induction l as [|b l IH]; intros a; [reflexivity|].
  change (nth_error (b :: l) (List.length l) = Some (last (b :: l) d)).
  apply IH.
Qed.

(** [l[-1]] is the last element of a list that has one. *)
Lemma py_index_last {A : Type} (l : list A) (d : A) :
  is_empty l = false -> py_index l (-1) = Returns (last l d).
Proof.
  intros Hne. pose proof (is_empty_false_len l Hne) as Hlen.
  unfold py_index. fold (len l). change (-1 <? 0)%Z with true. cbv iota zeta.
  replace ((len l + -1 <? 0)%Z || (len l <=? len l + -1)%Z) with false
    by (symmetry; apply orb_false_iff; split;
        [apply Z.ltb_ge | apply Z.leb_gt]; lia).
  destruct l as [|a l]; [discriminate|].
  replace (Z.to_nat (len (a :: l) + -1)) with (List.length l)
    by (unfold len; simpl List.length; lia).
  rewrite (nth_error_last l a d). reflexivity.
Qed.

Lemma py_index_nonempty {A : Type} (l : list A) (i : Z) (a : A) :
  py_index l i = Returns a -> is_empty l = false.
Proof.
  destruct l; [|reflexivity]. unfold py_index. cbn.
  destruct (i <? 0)%Z; destruct (_ || _); try discriminate;
    destruct (Z.to_nat _); discriminate.
Qed.

(** ** Interpolated position *)

Section Position.

Context {F : Type} {AF : Arith F}.

(** [get_current_position] on a segment. *)
Lemma get_current_position_step (v : Vehicle F) (cw nw : point F) :
  (current_waypoint_index v < len (waypoints (route v)) - 1)%Z ->
  py_index (waypoints (route v)) (current_waypoint_index v) = Returns cw ->
  py_index (waypoints (route v)) (current_waypoint_index v + 1)
  = Returns nw ->
  get_current_position v
  = Returns (add (fst cw) (mul (sub (fst nw) (fst cw))
                               (progress_to_next_waypoint v)),
             add (snd cw) (mul (sub (snd nw) (snd cw))
                               (progress_to_next_waypoint v))).
Proof.
  intros Hlt Hcw Hnw. unfold get_current_position.
  rewrite (py_index_nonempty _ _ Hcw).
  destruct (Z.geb_spec (current_waypoint_index v)
                       (len (waypoints (route v)) - 1)) as [Hge|_]; [lia|].
  rewrite Hcw, Hnw. reflexivity.
Qed.

End Position.

(** ** Vehicles at or past the last waypoint *)

Section Parked.

Context {F : Type} {AF : Arith F} {LF : Libm F}.

Lemma update_heading_parked (v : Vehicle F) :
  (len (waypoints (route v)) - 1 <= current_waypoint_index v)%Z ->
  update_heading v = Returns v.
Proof.
  intros H. unfold update_heading.
  replace (current_waypoint_index v >=? len (waypoints (route v)) - 1)%Z
    with true by (symmetry; apply Z.geb_le; lia).
  reflexivity.
Qed.

(** [update_heading] changes the heading only. *)
Lemma update_heading_fields (v v' : Vehicle F) :
  update_heading v = Returns v' ->
  route v' = route v
  /\ current_waypoint_index v' = current_waypoint_index v
  /\ progress_to_next_waypoint v' = progress_to_next_waypoint v
  /\ speed_km_hr v' = speed_km_hr v.
Proof.
  unfold update_heading.
  destruct (_ >=? _)%Z.
  - intros H. injection H as <-. repeat split.
  - destruct (py_index _ _); try discriminate.
    destruct (py_index _ _); try discriminate.
    cbn. intros H. injection H as <-. repeat split.
Qed.

Lemma advance_parked (v : Vehicle F) (dt : F) :
  (len (waypoints (route v)) - 1 <= current_waypoint_index v)%Z ->
  advance v dt = Returns v.
Proof.
  intros H. unfold advance.
  replace (current_waypoint_index v >=? len (waypoints (route v)) - 1)%Z
    with true by (symmetry; apply Z.geb_le; lia).
  rewrite orb_true_r. reflexivity.
Qed.

Lemma advance_many_parked (v : Vehicle F) (steps : list F) :
  (len (waypoints (route v)) - 1 <= current_waypoint_index v)%Z ->
  advance_many v steps = Returns v.
Proof.
  intros H. induction steps as [|dt rest IH]; [reflexivity|].
  change (advance_many v (dt :: rest))
    with (bind (advance v dt) (fun v' => advance_many v' rest)).
  rewrite (advance_parked v dt H). exact IH.
Qed.

Lemma get_current_position_parked (v : Vehicle F) :
  is_empty (waypoints (route v)) = false ->
  (len (waypoints (route v)) - 1 <= current_waypoint_index v)%Z ->
  get_current_position v
  = Returns (last (waypoints (route v)) (lit 0, lit 0)).
Proof.
  intros Hne H. unfold get_current_position. rewrite Hne.
  replace (current_waypoint_index v >=? len (waypoints (route v)) - 1)%Z
    with true by (symmetry; apply Z.geb_le; lia).
  apply py_index_last. exact Hne.
Qed.

(** C10.  A vehicle whose index is at or past the last index of a route
    that has waypoints: [get_current_position] returns the final waypoint
    (no [IndexError]), and [update_heading] and [advance] return the vehicle
    as it is. *)
Theorem at_or_past_last_index_total (v : Vehicle F) (dt : F) :
  is_empty (waypoints (route v)) = false ->
  (len (waypoints (route v)) - 1 <= current_waypoint_index v)%Z ->
  get_current_position v
  = Returns (last (waypoints (route v)) (lit 0, lit 0))
  /\ update_heading v = Returns v
  /\ advance v dt = Returns v.
Proof.
  intros Hne H. split; [|split].
  - apply get_current_position_parked; assumption.
  - apply update_heading_parked; assumption.
  - apply advance_parked; assumption.
Qed.

(** C9.  On a route with exactly one waypoint no sequence of [advance]
    calls changes the vehicle: every field, the index included, is as
    before. *)
Theorem single_waypoint_never_advances (v : Vehicle F) (steps : list F) :
  List.length (waypoints (route v)) = 1%nat ->
  (0 <= current_waypoint_index v)%Z ->
  advance_many v steps = Returns v.
Proof.
  intros H1 H0. apply advance_many_parked. unfold len. rewrite H1. simpl. lia.
Qed.

End Parked.

(** [at_or_past_last_index_total] at index 5 of a route of two
    waypoints. *)
Lemma at_or_past_last_index_total_witness :
  get_current_position vehicle_past_end
  = Returns (last (waypoints (route vehicle_past_end)) (lit 0, lit 0))
  /\ update_heading vehicle_past_end = Returns vehicle_past_end
  /\ advance vehicle_past_end 1%R = Returns vehicle_past_end.
Proof.
  apply (at_or_past_last_index_total vehicle_past_end 1%R).
  - reflexivity.
  - cbn. lia.
Defined.

(** [single_waypoint_never_advances] at three time steps. *)
Lemma single_waypoint_never_advances_witness :
  advance_many vehicle_at_single_stop [1; 30; 3600]%R
  = Returns vehicle_at_single_stop.
Proof.
  apply (single_waypoint_never_advances vehicle_at_single_stop
           [1; 30; 3600]%R).
  - reflexivity.
  - cbn. lia.
Defined.

(* ================================================================= *)
(** ** The motion model in exact arithmetic *)

Module Exact.

Local Open Scope R_scope.

Lemma Rgeb_true (a b : R) : Rgeb a b = true <-> a >= b.
Proof. unfold Rgeb. destruct (Rge_dec a b); split; intros; try discriminate; tauto. Qed.

Lemma Rgeb_false (a b : R) : Rgeb a b = false <-> a < b.
Proof.
  unfold Rgeb. destruct (Rge_dec a b); split; intros; try discriminate;
    try reflexivity; lra.
Qed.

Lemma Reqb_true (a b : R) : Reqb a b = true <-> a = b.
Proof. unfold Reqb. destruct (Req_dec_T a b); split; intros; try discriminate; tauto. Qed.

Lemma Reqb_false (a b : R) : Reqb a b = false <-> a <> b.
Proof.
  unfold Reqb. destruct (Req_dec_T a b); split; intros; try discriminate;
    try reflexivity; tauto.
Qed.

(** *** Distance *)

Lemma distance_unfold (lat1 lon1 lat2 lon2 : R) :
  distance (lat1, lon1) (lat2, lon2)
  = 2 * asin (sqrt ((sin ((lat2 * PI / 180 - lat1 * PI / 180) / 2)
                     * sin ((lat2 * PI / 180 - lat1 * PI / 180) / 2))
                    + cos (lat1 * PI / 180) * cos (lat2 * PI / 180)
                      * (sin ((lon2 * PI / 180 - lon1 * PI / 180) / 2)
                         * sin ((lon2 * PI / 180 - lon1 * PI / 180) / 2))))
    * 6371.
Proof. reflexivity. Qed.

Lemma asin_nonneg (x : R) : 0 <= x -> 0 <= asin x.
Proof.
  intros Hx. pose proof PI_RGT_0 as Hpi. unfold asin.
  destruct (Rle_dec x (-1)); [lra|].
  destruct (Rle_dec 1 x); [lra|].
  destruct (Req_dec x 0) as [->|Hnz].
  - unfold Rdiv. rewrite Rmult_0_l, atan_0. lra.
  - rewrite <- atan_0. left. apply atan_increasing.
    apply Rdiv_lt_0_compat; [lra|].
    apply sqrt_lt_R0. unfold Rsqr. nra.
Qed.

Lemma distance_nonneg (p q : point R) : 0 <= distance p q.
Proof.
  destruct p as [lat1 lon1], q as [lat2 lon2]. rewrite distance_unfold.
  pose proof (asin_nonneg (sqrt_pos
    ((sin ((lat2 * PI / 180 - lat1 * PI / 180) / 2)
      * sin ((lat2 * PI / 180 - lat1 * PI / 180) / 2))
     + cos (lat1 * PI / 180) * cos (lat2 * PI / 180)
       * (sin ((lon2 * PI / 180 - lon1 * PI / 180) / 2)
          * sin ((lon2 * PI / 180 - lon1 * PI / 180) / 2))))).
  lra.
Qed.

Lemma sin_half_diff_sq (a b : R) :
  sin ((a - b) / 2) * sin ((a - b) / 2)
  = sin ((b - a) / 2) * sin ((b - a) / 2).
Proof.
  replace ((a - b) / 2) with (- ((b - a) / 2)) by lra.
  rewrite sin_neg. ring.
Qed.

Lemma distance_same (p : point R) : distance p p = 0.
Proof.
  destruct p as [lat lon]. rewrite distance_unfold.
  replace ((lat * PI / 180 - lat * PI / 180) / 2) with 0 by lra.
  replace ((lon * PI / 180 - lon * PI / 180) / 2) with 0 by lra.
  rewrite sin_0.
  replace (0 * 0 + cos (lat * PI / 180) * cos (lat * PI / 180) * (0 * 0))
    with 0 by ring.
  rewrite sqrt_0, asin_0. ring.
Qed.

Lemma distance_sym (a b : point R) : distance a b = distance b a.
Proof.
  destruct a as [lat1 lon1], b as [lat2 lon2]. rewrite !distance_unfold.
  rewrite (sin_half_diff_sq (lat2 * PI / 180) (lat1 * PI / 180)).
  rewrite (sin_half_diff_sq (lon2 * PI / 180) (lon1 * PI / 180)).
  rewrite (Rmult_comm (cos (lat1 * PI / 180)) (cos (lat2 * PI / 180))).
  reflexivity.
Qed.

(** The argument of [math.sqrt] is between 0 and 1, so that neither
    [math.sqrt] nor [math.asin] is called outside its domain. *)
Lemma haversine_argument_range (p1 p2 dl : R) :
  0 <= sin ((p2 - p1) / 2) * sin ((p2 - p1) / 2)
       + cos p1 * cos p2 * (sin (dl / 2) * sin (dl / 2)) <= 1.
Proof.
  pose proof (cos_2a_sin ((p2 - p1) / 2)) as Hhalf.
  replace (2 * ((p2 - p1) / 2)) with (p2 - p1) in Hhalf by lra.
  rewrite cos_minus in Hhalf.
  replace (2 * sin ((p2 - p1) / 2) * sin ((p2 - p1) / 2))
    with (2 * (sin ((p2 - p1) / 2) * sin ((p2 - p1) / 2))) in Hhalf by ring.
  pose proof (COS_bound (p2 - p1)) as Hd. rewrite cos_minus in Hd.
  pose proof (COS_bound (p1 + p2)) as Hs. rewrite cos_plus in Hs.
  pose proof (SIN_bound (dl / 2)) as Ht.
  set (u := cos p1 * cos p2) in *. set (w := sin p1 * sin p2) in *.
  set (h := sin ((p2 - p1) / 2) * sin ((p2 - p1) / 2)) in *.
  set (t := sin (dl / 2) * sin (dl / 2)).
  assert (Ht01 : 0 <= t <= 1) by (subst t; nra).
  replace (cos p2 * cos p1) with u in * by (subst u; ring).
  replace (sin p2 * sin p1) with w in * by (subst w; ring).
  assert (Hh : h = (1 - u - w) / 2) by lra.
  rewrite Hh. nra.
Qed.

(** C8.  The distance from a point to itself is 0, and the distance is
    symmetric. *)
Theorem distance_zero_on_identical_and_symmetric :
  (forall p : point R, get_distance_between_points p p = 0)
  /\ (forall a b : point R,
        get_distance_between_points a b = get_distance_between_points b a).
Proof. split; [exact distance_same | exact distance_sym]. Qed.

(** *** Heading *)

Lemma Rfmod_range (x y : R) : 0 < y -> 0 <= Rfmod x y < y.
Proof.
  intros Hy. unfold Rfmod.
  destruct (base_Int_part (x / y)) as [Hlo Hhi].
  assert (Hx : x = x / y * y) by (field; lra).
  split; nra.
Qed.

Lemma bearing_range (cw nw : point R) : 0 <= bearing cw nw < 360.
Proof.
  destruct cw as [lat1 lon1], nw as [lat2 lon2].
  unfold bearing, bearing_degrees. cbn.
  apply Rfmod_range. lra.
Qed.

(** [update_heading] returns for every subscript Python accepts, and
    changes the heading only. *)
Lemma update_heading_returns (v : VehicleR) :
  (- len (waypoints (route v)) <= current_waypoint_index v)%Z ->
  ((len (waypoints (route v)) - 1 <= current_waypoint_index v)%Z
   /\ update_heading v = Returns v)
  \/ exists cw nw,
       (current_waypoint_index v < len (waypoints (route v)) - 1)%Z
       /\ py_index (waypoints (route v)) (current_waypoint_index v)
          = Returns cw
       /\ py_index (waypoints (route v)) (current_waypoint_index v + 1)
          = Returns nw
       /\ update_heading v = Returns (set_heading v (bearing cw nw)).
Proof.
  intros Hlo. unfold update_heading.
  destruct (Z.geb_spec (current_waypoint_index v)
                       (len (waypoints (route v)) - 1)) as [Hge|Hlt];
    [left; split; [lia|reflexivity]|right].
  destruct (@py_index_in_range _ (waypoints (route v))
              (current_waypoint_index v)) as [cw Hcw]; [lia|].
  destruct (@py_index_in_range _ (waypoints (route v))
              (current_waypoint_index v + 1)) as [nw Hnw]; [lia|].
  exists cw, nw. rewrite Hcw, Hnw. repeat split; try reflexivity. lia.
Qed.

Lemma update_heading_step (v : VehicleR) (cw nw : point R) :
  (current_waypoint_index v < len (waypoints (route v)) - 1)%Z ->
  py_index (waypoints (route v)) (current_waypoint_index v) = Returns cw ->
  py_index (waypoints (route v)) (current_waypoint_index v + 1)
  = Returns nw ->
  update_heading v = Returns (set_heading v (bearing cw nw)).
Proof.
  intros Hlt Hcw Hnw. unfold update_heading.
  destruct (Z.geb_spec (current_waypoint_index v)
                       (len (waypoints (route v)) - 1)) as [Hge|_]; [lia|].
  rewrite Hcw, Hnw. reflexivity.
Qed.

(** C7.  For a vehicle that is not at its last waypoint index,
    [update_heading] returns and leaves a heading in [[0, 360)]. *)
Theorem update_heading_in_range (v : Vehicle R) :
  (- len (waypoints (route v)) <= current_waypoint_index v
   < len (waypoints (route v)) - 1)%Z ->
  exists v', update_heading v = Returns v' /\ 0 <= heading v' < 360.
Proof.
  intros [Hlo Hhi].
  destruct (update_heading_returns v Hlo)
    as [[Hge _]|(cw & nw & _ & _ & _ & Hupd)]; [lia|].
  exists (set_heading v (bearing cw nw)). split; [exact Hupd|].
  apply bearing_range.
Qed.

(** *** Advance *)

(** The loop of [advance] in exact arithmetic. *)
Lemma advance_loop_unfold (fuel : nat) (last idx : Z) (p : R) :
  advance_loop fuel last idx p
  = if Rgeb p 1 && (idx <? last)%Z then
      match fuel with
      | O => OutOfFuel
      | S fuel' =>
          if (idx + 1 >=? last)%Z then Returns (0%Z, 0)
          else advance_loop fuel' last (idx + 1) (p - 1)
      end
    else Returns (idx, p).
Proof. destruct fuel; reflexivity. Qed.

(** With fuel for the remaining waypoints the loop returns; it leaves a
    progress in [[0, 1)], and an index that is either reset to 0 (with
    progress 0) or still before the last index. *)
Lemma advance_loop_returns (fuel : nat) (last : Z) :
  forall (idx : Z) (p : R),
    0 <= p -> (idx < last)%Z -> (last - idx <= Z.of_nat fuel)%Z ->
    exists i' p',
      advance_loop fuel last idx p = Returns (i', p')
      /\ 0 <= p' < 1
      /\ ((i' = 0%Z /\ p' = 0) \/ (idx <= i' < last)%Z).
Proof.
  induction fuel as [|fuel IH]; intros idx p Hp Hidx Hfuel;
    rewrite advance_loop_unfold.
  - lia.
  - destruct (Rgeb p 1) eqn:Hge.
    + replace (idx <? last)%Z with true by (symmetry; apply Z.ltb_lt; lia).
      cbn [andb]. apply Rgeb_true in Hge.
      destruct (Z.geb_spec (idx + 1) last) as [Hend|Hmore].
      * exists 0%Z, 0. repeat split; try lra. left. split; reflexivity.
      * destruct (IH (idx + 1)%Z (p - 1)) as (i' & p' & Hr & Hp' & Hi');
          [lra|lia|lia|].
        exists i', p'. repeat split; try tauto.
        destruct Hi' as [Hi'|Hi']; [left; exact Hi'|right; lia].
    + cbn [andb]. apply Rgeb_false in Hge.
      exists idx, p. repeat split; try lra. right. lia.
Qed.

Lemma advance_unfold_step (v : VehicleR) (dt : R) (cw nw : point R) :
  (current_waypoint_index v < len (waypoints (route v)) - 1)%Z ->
  py_index (waypoints (route v)) (current_waypoint_index v) = Returns cw ->
  py_index (waypoints (route v)) (current_waypoint_index v + 1)
  = Returns nw ->
  advance v dt
  = if Reqb (distance cw nw) 0 then
      Returns (set_index_progress v (current_waypoint_index v + 1) 0)
    else
      ip <- advance_loop
              (Z.to_nat (len (waypoints (route v)) - 1
                         - current_waypoint_index v))
              (len (waypoints (route v)) - 1) (current_waypoint_index v)
              (progress_to_next_waypoint v
               + speed_km_hr v / 3600 * dt / distance cw nw) ;;
      update_heading (set_index_progress v (fst ip) (snd ip)).
Proof.
  intros Hlt Hcw Hnw. unfold advance.
  rewrite (py_index_nonempty _ _ Hcw).
  destruct (Z.geb_spec (current_waypoint_index v)
                       (len (waypoints (route v)) - 1)) as [Hge|_]; [lia|].
  cbn [orb]. rewrite Hcw, Hnw. reflexivity.
Qed.

(** [advance] returns for every subscript Python accepts, along one of the
    three paths. *)
Lemma advance_returns (v : VehicleR) (dt : R) :
  (- len (waypoints (route v)) <= current_waypoint_index v)%Z ->
  0 <= progress_to_next_waypoint v ->
  0 <= speed_km_hr v -> 0 <= dt ->
  exists v', advance v dt = Returns v' /\ advance_path v dt v'.
Proof.
  intros Hlo Hp Hs Hdt.
  destruct (Z.le_gt_cases (len (waypoints (route v)) - 1)
                          (current_waypoint_index v)) as [Hge|Hlt].
  - exists v. split; [apply advance_parked; exact Hge|].
    apply path_parked; [exact Hge|reflexivity].
  - destruct (@py_index_in_range _ (waypoints (route v))
                (current_waypoint_index v)) as [cw Hcw]; [lia|].
    destruct (@py_index_in_range _ (waypoints (route v))
                (current_waypoint_index v + 1)) as [nw Hnw]; [lia|].
    rewrite (advance_unfold_step v dt Hlt Hcw Hnw).
    destruct (Reqb (distance cw nw) 0) eqn:Hz.
    + apply Reqb_true in Hz. eexists. split; [reflexivity|].
      eapply path_snap; eauto.
    + apply Reqb_false in Hz.
      pose proof (distance_nonneg cw nw) as Hd.
      assert (Hinc : 0 <= speed_km_hr v / 3600 * dt / distance cw nw).
      { apply Rmult_le_pos; [|left; apply Rinv_0_lt_compat; lra].
        apply Rmult_le_pos; [|exact Hdt].
        apply Rmult_le_pos; [exact Hs|]. lra. }
      destruct (@advance_loop_returns
                  (Z.to_nat (len (waypoints (route v)) - 1
                             - current_waypoint_index v))
                  (len (waypoints (route v)) - 1)
                  (current_waypoint_index v)
                  (progress_to_next_waypoint v
                   + speed_km_hr v / 3600 * dt / distance cw nw))
        as (i' & p' & Hloop & Hp' & Hi'); [lra|lia|lia|].
      rewrite Hloop. cbn [bind fst snd].
      destruct (update_heading_returns (set_index_progress v i' p'))
        as [[_ Hu]|(cw' & nw' & _ & _ & _ & Hu)].
      * cbn. destruct Hi' as [[-> _]|Hi']; lia.
      * eexists. split; [exact Hu|]. eapply path_move; eauto.
      * eexists. split; [exact Hu|]. eapply path_move; eauto.
Qed.

(** C5.  A vehicle of the data model (an index Python accepts as a
    subscript, a speed that is not negative) with progress in [[0, 1)],
    advanced by a time step that is not negative: [advance] returns, and
    the progress is again in [[0, 1)]. *)
Theorem advance_keeps_progress_in_unit_interval (v : Vehicle R) (dt : R) :
  (- len (waypoints (route v)) <= current_waypoint_index v)%Z ->
  0 <= speed_km_hr v ->
  0 <= progress_to_next_waypoint v < 1 ->
  0 <= dt ->
  exists v', advance v dt = Returns v'
             /\ 0 <= progress_to_next_waypoint v' < 1.
Proof.
  intros Hidx Hs Hp Hdt.
  destruct (@advance_returns v dt) as (v' & Hadv & Hpath);
    [exact Hidx|lra|exact Hs|exact Hdt|].
  exists v'. split; [exact Hadv|].
  destruct Hpath as [_ ->|cw nw _ _ _ _ ->|cw nw i' p' _ _ _ _ _ Hp' _ Hu].
  - exact Hp.
  - cbn. lra.
  - destruct (update_heading_fields _ Hu) as (_ & _ & -> & _). exact Hp'.
Qed.

(** *** Scenarios on the equator *)

Lemma Rfmod_eq (x y : R) (k : Z) :
  0 < y -> 0 <= x - IZR k * y < y -> Rfmod x y = x - IZR k * y.
Proof.
  intros Hy H. unfold Rfmod.
  rewrite <- (Int_part_spec (x / y) k); [reflexivity|].
  assert (Hx : x = x / y * y) by (field; lra).
  split.
  - apply Rmult_lt_reg_r with y; [exact Hy|]. nra.
  - apply Rmult_le_reg_r with y; [exact Hy|]. nra.
Qed.

Lemma Ratan2_origin : Ratan2 0 0 = 0.
Proof.
  unfold Ratan2.
  destruct (Rlt_dec 0 0); [lra|]. reflexivity.
Qed.

Lemma Ratan2_north (y : R) : 0 < y -> Ratan2 y 0 = PI / 2.
Proof.
  intros Hy. unfold Ratan2.
  destruct (Rlt_dec 0 0); [lra|].
  destruct (Rlt_dec 0 y); [reflexivity|lra].
Qed.

Lemma bearing_equator (lon1 lon2 : R) :
  bearing (0, lon1) (0, lon2)
  = Rfmod (Ratan2 (sin ((lon2 - lon1) * PI / 180)) 0 * 180 / PI + 360) 360.
Proof.
  unfold bearing, bearing_degrees. cbn.
  replace (0 * PI / 180) with 0 by lra.
  rewrite sin_0, cos_0.
  replace (sin ((lon2 - lon1) * PI / 180) * 1)
    with (sin ((lon2 - lon1) * PI / 180)) by ring.
  replace (1 * 0 - 0 * 1 * cos ((lon2 - lon1) * PI / 180)) with 0 by ring.
  reflexivity.
Qed.

Lemma bearing_equator_same (lon : R) : bearing (0, lon) (0, lon) = 0.
Proof.
  rewrite bearing_equator.
  replace ((lon - lon) * PI / 180) with 0 by lra.
  rewrite sin_0, Ratan2_origin.
  replace (0 * 180 / PI + 360) with 360 by (unfold Rdiv; ring).
  rewrite (@Rfmod_eq 360 360 1); lra.
Qed.

Lemma sin_one_degree_pos : 0 < sin ((1 - 0) * PI / 180).
Proof.
  pose proof PI_RGT_0. apply sin_gt_0; lra.
Qed.

Lemma bearing_equator_east : bearing (0, 0) (0, 1) = 90.
Proof.
  pose proof PI_RGT_0 as Hpi.
  rewrite bearing_equator, (Ratan2_north sin_one_degree_pos).
  replace (PI / 2 * 180 / PI + 360) with 450 by (field; lra).
  rewrite (@Rfmod_eq 450 360 1); lra.
Qed.

(** One degree of longitude on the equator: [6371 * PI / 180] km. *)
Lemma distance_equator_degree : distance (0, 0) (0, 1) = 6371 * PI / 180.
Proof.
  pose proof PI_RGT_0 as Hpi. rewrite distance_unfold.
  replace ((0 * PI / 180 - 0 * PI / 180) / 2) with 0 by lra.
  replace (0 * PI / 180) with 0 by lra.
  replace ((1 * PI / 180 - 0) / 2) with (PI / 360) by lra.
  rewrite sin_0, cos_0.
  replace (0 * 0 + 1 * 1 * (sin (PI / 360) * sin (PI / 360)))
    with (sin (PI / 360) * sin (PI / 360)) by ring.
  rewrite sqrt_square by (apply sin_ge_0; lra).
  rewrite asin_sin by lra.
  lra.
Qed.

Lemma distance_equator_degree_pos : 0 < distance (0, 0) (0, 1).
Proof. rewrite distance_equator_degree. pose proof PI_RGT_0. lra. Qed.

(** *** The zero-length segment *)

Lemma Reqb_refl (a : R) : Reqb a a = true.
Proof. apply Reqb_true. reflexivity. Qed.

(** C4, at a vehicle on the first waypoint of [(0,0); (0,0); (0,1)] (the
    heading 0 is the one [update_heading] computes there).  [advance] takes
    the zero-length branch: the index becomes 1, the heading stays 0, and
    the bearing of the segment the vehicle is now on is 90. *)
Theorem snap_returns_before_update_heading (dt : R) :
  update_heading vehicle_at_doubled_start = Returns vehicle_at_doubled_start
  /\ exists v',
       advance vehicle_at_doubled_start dt = Returns v'
       /\ current_waypoint_index v' = 1%Z
       /\ heading v' = 0
       /\ current_segment_bearing v' = Returns 90
       /\ update_heading v' = Returns (set_heading v' 90).
Proof.
  split.
  - rewrite (@update_heading_step vehicle_at_doubled_start (0, 0) (0, 0));
      [|cbn; lia|reflexivity|reflexivity].
    rewrite bearing_equator_same. reflexivity.
  - exists (set_index_progress vehicle_at_doubled_start 1 0).
    split; [|split; [reflexivity|split; [reflexivity|split]]].
    + rewrite (@advance_unfold_step vehicle_at_doubled_start dt (0, 0) (0, 0));
        [|cbn; lia|reflexivity|reflexivity].
      rewrite distance_same, Reqb_refl. reflexivity.
    + unfold current_segment_bearing.
      change (py_index _ (current_waypoint_index _))
        with (Returns (A:=point R) (0, 0)).
      change (py_index _ (current_waypoint_index _ + 1))
        with (Returns (A:=point R) (0, 1)).
      cbn [bind]. rewrite bearing_equator_east. reflexivity.
    + rewrite (@update_heading_step _ (0, 0) (0, 1));
        [|cbn; lia|reflexivity|reflexivity].
      rewrite bearing_equator_east. reflexivity.
Qed.

Lemma full_route_time_doubled_end :
  full_route_time vehicle_at_doubled_end = distance (0, 0) (0, 1).
Proof.
  unfold full_route_time, vehicle_at_doubled_end, doubled_end.
  cbn [route waypoints speed_km_hr route_length].
  rewrite distance_same. field.
Qed.

Lemma advance_doubled_end_first :
  advance vehicle_at_doubled_end (full_route_time vehicle_at_doubled_end)
  = Returns vehicle_midway_doubled_end.
Proof.
  pose proof distance_equator_degree_pos as Hd.
  rewrite (@advance_unfold_step vehicle_at_doubled_end _ (0, 0) (0, 1));
    [|cbn; lia|reflexivity|reflexivity].
  replace (Reqb (distance (0, 0) (0, 1)) 0) with false
    by (symmetry; apply Reqb_false; lra).
  rewrite full_route_time_doubled_end.
  set (d := distance (0, 0) (0, 1)) in *. clearbody d. cbn.
  replace (0 + 3600 / 3600 * d / d) with 1 by (field; lra).
  change (Pos.to_nat 2) with 2%nat.
  rewrite advance_loop_unfold.
  replace (Rgeb 1 1) with true by (symmetry; apply Rgeb_true; lra).
  cbn [andb Z.ltb Z.compare Z.geb Z.add Pos.add Pos.compare Pos.compare_cont].
  rewrite advance_loop_unfold.
  replace (Rgeb (1 - 1) 1) with false by (symmetry; apply Rgeb_false; lra).
  cbn [andb bind fst snd]. replace (1 - 1) with 0 by ring.
  rewrite (@update_heading_step _ (0, 1) (0, 1));
    [|cbn; lia|reflexivity|reflexivity].
  rewrite bearing_equator_same. reflexivity.
Qed.

Lemma advance_doubled_end_second (dt : R) :
  advance vehicle_midway_doubled_end dt
  = Returns vehicle_parked_at_doubled_end.
Proof.
  rewrite (@advance_unfold_step vehicle_midway_doubled_end dt (0, 1) (0, 1));
    [|cbn; lia|reflexivity|reflexivity].
  rewrite distance_same, Reqb_refl. reflexivity.
Qed.

(** C1, at a vehicle on the first waypoint of [(0,0); (0,1); (0,1)], a
    route of three waypoints (the heading 90 is the one [update_heading]
    computes there).  Called with the time that covers the full route, the
    first [advance] moves the vehicle to index 1, the second takes the
    zero-length branch to index 2, the last index, without the reset; from
    then on the vehicle stays there, whatever the number of further
    calls. *)
Theorem zero_length_last_segment_parks (n : nat) :
  update_heading vehicle_at_doubled_end = Returns vehicle_at_doubled_end
  /\ advance_many vehicle_at_doubled_end
       (repeat (full_route_time vehicle_at_doubled_end) (2 + n))
     = Returns vehicle_parked_at_doubled_end
  /\ current_waypoint_index vehicle_parked_at_doubled_end = 2%Z
  /\ len (waypoints (route vehicle_parked_at_doubled_end)) = 3%Z.
Proof.
  split; [|split; [|split; reflexivity]].
  - rewrite (@update_heading_step vehicle_at_doubled_end (0, 0) (0, 1));
      [|cbn; lia|reflexivity|reflexivity].
    rewrite bearing_equator_east. reflexivity.
  - change (repeat (full_route_time vehicle_at_doubled_end) (2 + n))
      with (full_route_time vehicle_at_doubled_end
            :: full_route_time vehicle_at_doubled_end
            :: repeat (full_route_time vehicle_at_doubled_end) n).
    change (advance_many vehicle_at_doubled_end (?a :: ?b :: ?r))
      with (v1 <- advance vehicle_at_doubled_end a ;;
            v2 <- advance v1 b ;; advance_many v2 r).
    rewrite advance_doubled_end_first. cbn [bind].
    rewrite advance_doubled_end_second. cbn [bind].
    apply advance_many_parked. cbn. lia.
Qed.

(** *** Outside the zero-length branch *)

(** After an [advance] that went through the loop, the heading is the
    bearing of the segment the vehicle is on. *)
Lemma advance_move_updates_heading (v v' : VehicleR) (dt : R)
  (cw nw : point R) (i' : Z) (p' : R) :
  (0 <= current_waypoint_index v)%Z ->
  (i' = 0%Z /\ p' = 0)
  \/ (current_waypoint_index v <= i' < len (waypoints (route v)) - 1)%Z ->
  (current_waypoint_index v < len (waypoints (route v)) - 1)%Z ->
  update_heading (set_index_progress v i' p') = Returns v' ->
  current_segment_bearing v' = Returns (heading v').
Proof.
  intros Hidx Hi' Hlt Hu.
  assert (Hi : (0 <= i' < len (waypoints (route v)) - 1)%Z)
    by (destruct Hi' as [[-> _]|Hi']; lia).
  destruct (update_heading_returns (set_index_progress v i' p'))
    as [[Hge _]|(cw' & nw' & _ & Hcw & Hnw & Hu')];
    [cbn; lia|cbn in Hge; lia|].
  rewrite Hu' in Hu. injection Hu as <-.
  unfold current_segment_bearing. cbn in *. rewrite Hcw, Hnw. reflexivity.
Qed.

Lemma py_index_nth_error {A : Type} (l : list A) (i : Z) (a : A) :
  (0 <= i)%Z -> py_index l i = Returns a ->
  nth_error l (Z.to_nat i) = Some a.
Proof.
  intros Hi. unfold py_index.
  destruct (Z.ltb_spec i 0) as [Hneg|_]; [lia|].
  destruct (_ || _)%bool; [discriminate|].
  destruct (nth_error l (Z.to_nat i)); [|discriminate].
  intros H. injection H as ->. reflexivity.
Qed.

Lemma route_length_nonneg (wps : list (point R)) : 0 <= route_length wps.
Proof.
  induction wps as [|a [|b rest] IH]; cbn [route_length]; try lra.
  pose proof (distance_nonneg a b). cbn [route_length] in IH. lra.
Qed.

(** No segment is longer than the route. *)
Lemma segment_le_route_length (wps : list (point R)) :
  forall (i : nat) (cw nw : point R),
    nth_error wps i = Some cw -> nth_error wps (S i) = Some nw ->
    distance cw nw <= route_length wps.
Proof.
  induction wps as [|a rest IH]; intros i cw nw Hcw Hnw;
    [destruct i; discriminate|].
  destruct rest as [|b rest]; [destruct i; discriminate|].
  pose proof (route_length_nonneg (b :: rest)) as Hrest.
  pose proof (distance_nonneg a b) as Hab.
  change (route_length (a :: b :: rest))
    with (distance a b + route_length (b :: rest)).
  destruct i as [|i].
  - cbn in Hcw, Hnw. injection Hcw as <-. injection Hnw as <-. lra.
  - specialize (IH i cw nw Hcw Hnw). lra.
Qed.

(** When the progress has reached 1 the loop passes at least one
    waypoint, or resets. *)
Lemma advance_loop_passes (fuel : nat) (last idx : Z) (p : R) :
  1 <= p -> (idx < last)%Z -> (last - idx <= Z.of_nat fuel)%Z ->
  exists i' p',
    advance_loop fuel last idx p = Returns (i', p')
    /\ 0 <= p' < 1
    /\ ((i' = 0%Z /\ p' = 0) \/ (idx + 1 <= i' < last)%Z).
Proof.
  intros Hp Hidx Hfuel. rewrite advance_loop_unfold.
  replace (Rgeb p 1) with true by (symmetry; apply Rgeb_true; lra).
  replace (idx <? last)%Z with true by (symmetry; apply Z.ltb_lt; lia).
  cbn [andb]. destruct fuel as [|fuel]; [lia|].
  destruct (Z.geb_spec (idx + 1) last) as [Hend|Hmore].
  - exists 0%Z, 0. repeat split; try lra. left. split; reflexivity.
  - destruct (@advance_loop_returns fuel last (idx + 1)%Z (p - 1))
      as (i' & p' & Hr & Hp' & Hi'); [lra|lia|lia|].
    exists i', p'. repeat split; tauto.
Qed.

(** Loop closure.  On a route whose last segment has a length, a vehicle
    that is called with the time that covers the full route is back at
    index 0 with progress 0 after at most as many calls as there are
    waypoints ahead of it. *)
Lemma loop_closure (k : nat) :
  forall v : VehicleR,
    last_segment_nonzero (waypoints (route v)) ->
    (0 <= current_waypoint_index v < len (waypoints (route v)) - 1)%Z ->
    (len (waypoints (route v)) - 1 - current_waypoint_index v
     <= Z.of_nat k)%Z ->
    0 <= progress_to_next_waypoint v ->
    0 < speed_km_hr v ->
    exists (n : nat) (v' : VehicleR),
      (1 <= n <= k)%nat
      /\ advance_many v (repeat (full_route_time v) n) = Returns v'
      /\ current_waypoint_index v' = 0%Z
      /\ progress_to_next_waypoint v' = 0.
Proof.
  induction k as [|k IH]; intros v Hlast Hidx Hk Hp Hs; [lia|].
  pose proof (route_length_nonneg (waypoints (route v))) as HL.
  assert (Hdt : 0 <= full_route_time v).
  { unfold full_route_time.
    apply Rmult_le_pos; [|lra].
    apply Rmult_le_pos; [exact HL|]. left. apply Rinv_0_lt_compat. exact Hs. }
  destruct (@advance_returns v (full_route_time v))
    as (v1 & Hadv & Hpath); [lia|exact Hp|lra|exact Hdt|].
  assert (Hnext : forall v1 : VehicleR,
             advance v (full_route_time v) = Returns v1 ->
             route v1 = route v -> speed_km_hr v1 = speed_km_hr v ->
             (current_waypoint_index v + 1 <= current_waypoint_index v1
              < len (waypoints (route v)) - 1)%Z ->
             0 <= progress_to_next_waypoint v1 ->
             exists (n : nat) (v' : VehicleR),
               (1 <= n <= S k)%nat
               /\ advance_many v (repeat (full_route_time v) n) = Returns v'
               /\ current_waypoint_index v' = 0%Z
               /\ progress_to_next_waypoint v' = 0).
  { intros v2 Hadv2 Hr2 Hs2 Hi2 Hp2.
    destruct (IH v2) as (n & v' & Hn & Hmany & Hi0 & Hp0);
      try rewrite Hr2; try rewrite Hs2; try assumption; try lia.
    exists (S n), v'. split; [lia|]. split; [|tauto].
    cbn [repeat advance_many]. rewrite Hadv2. cbn [bind].
    replace (full_route_time v) with (full_route_time v2); [exact Hmany|].
    unfold full_route_time. rewrite Hr2, Hs2. reflexivity. }
  destruct Hpath as [Hge _|cw nw Hlt Hcw Hnw Hz Hv1
                    |cw nw i' p' Hlt Hcw Hnw Hnz Hloop Hp' Hi' Hu].
  - lia.
  - subst v1. apply (Hnext _ Hadv); cbn; try reflexivity; try lra.
    split; [lia|].
    destruct (Z.eq_dec (current_waypoint_index v + 1)
                       (len (waypoints (route v)) - 1)) as [Heq|]; [|lia].
    exfalso. apply (Hlast cw nw); [|rewrite <- Heq; exact Hnw|exact Hz].
    replace (len (waypoints (route v)) - 2)%Z
      with (current_waypoint_index v) by lia. exact Hcw.
  - assert (Hseg : distance cw nw <= route_length (waypoints (route v))).
    { apply (segment_le_route_length (waypoints (route v))
               (Z.to_nat (current_waypoint_index v))).
      - apply py_index_nth_error; [lia|exact Hcw].
      - replace (S (Z.to_nat (current_waypoint_index v)))
          with (Z.to_nat (current_waypoint_index v + 1)) by lia.
        apply py_index_nth_error; [lia|exact Hnw]. }
    pose proof (distance_nonneg cw nw) as Hd.
    assert (Hone : 1 <= progress_to_next_waypoint v
                        + speed_km_hr v / 3600 * full_route_time v
                          / distance cw nw).
    { unfold full_route_time.
      replace (speed_km_hr v / 3600
               * (route_length (waypoints (route v)) / speed_km_hr v * 3600)
               / distance cw nw)
        with (route_length (waypoints (route v)) / distance cw nw)
        by (field; lra).
      assert (1 <= route_length (waypoints (route v)) / distance cw nw);
        [|lra].
      apply Rmult_le_reg_r with (distance cw nw); [lra|].
      replace (route_length (waypoints (route v)) / distance cw nw
               * distance cw nw)
        with (route_length (waypoints (route v))) by (field; lra).
      lra. }
    destruct (@advance_loop_passes
                (Z.to_nat (len (waypoints (route v)) - 1
                           - current_waypoint_index v))
                (len (waypoints (route v)) - 1)
                (current_waypoint_index v) _ Hone)
      as (i2 & p2 & Hloop2 & _ & Hi2); [lia|lia|].
    rewrite Hloop in Hloop2. injection Hloop2 as <- <-.
    destruct (update_heading_fields _ Hu) as (Hr1 & Hi1 & Hp1 & Hs1).
    cbn in Hr1, Hi1, Hp1, Hs1.
    destruct Hi2 as [[-> ->]|Hi2].
    + exists 1%nat, v1. split; [lia|].
      cbn [repeat advance_many]. rewrite Hadv. cbn [bind].
      repeat split; assumption.
    + apply (Hnext _ Hadv); try assumption; try lia. lra.
Qed.

Lemma short_hop_last_segment : last_segment_nonzero (waypoints short_hop).
Proof.
  intros cw nw Hcw Hnw.
  change (Returns (A:=point R) (0, 0) = Returns cw) in Hcw.
  change (Returns (A:=point R) (0, 1) = Returns nw) in Hnw.
  injection Hcw as <-. injection Hnw as <-.
  pose proof distance_equator_degree_pos. lra.
Qed.

(** [loop_closure] on a route of two waypoints: one call with the time
    that covers the route brings the vehicle back to index 0, progress 0. *)
Example short_hop_loops :
  exists (n : nat) (v' : VehicleR),
    (1 <= n <= 1)%nat
    /\ advance_many (vehicle_on_short_hop 0)
         (repeat (full_route_time (vehicle_on_short_hop 0)) n) = Returns v'
    /\ current_waypoint_index v' = 0%Z
    /\ progress_to_next_waypoint v' = 0.
Proof.
  apply (@loop_closure 1 (vehicle_on_short_hop 0)).
  - exact short_hop_last_segment.
  - cbn. lia.
  - cbn. lia.
  - cbn. lra.
  - cbn. lra.
Qed.

End Exact.

(** [update_heading_in_range] on the first segment of a route of two
    waypoints. *)
Lemma update_heading_in_range_witness :
  exists v',
    update_heading (vehicle_on_short_hop 0) = Returns v'
    /\ (0 <= heading v' < 360)%R.
Proof.
  apply (Exact.update_heading_in_range (vehicle_on_short_hop 0)).
  cbn. lia.
Defined.

(** [advance_keeps_progress_in_unit_interval] at progress 1/2, speed 25
    and a time step of 30 seconds. *)
Lemma advance_keeps_progress_in_unit_interval_witness :
  exists v',
    advance (vehicle_on_short_hop (1 / 2)) 30%R = Returns v'
    /\ (0 <= progress_to_next_waypoint v' < 1)%R.
Proof.
  apply (@Exact.advance_keeps_progress_in_unit_interval
           (vehicle_on_short_hop (1 / 2)) 30%R).
  - cbn. lia.
  - cbn. lra.
  - cbn. lra.
  - lra.
Defined.

(* ================================================================= *)
(** ** Interpolation in binary64 *)

Module Binary64.

Local Open Scope float_scope.

(** A float that is neither a NaN nor an infinity has a zero or a finite
    number as its specification. *)
Lemma is_finite_spec (x : float) :
  is_finite x = true ->
  (exists s, Prim2SF x = S754_zero s)
  \/ (exists s m e, Prim2SF x = S754_finite s m e).
Proof.
  unfold is_finite, is_nan, is_infinity.
  rewrite !FloatAxioms.eqb_spec, FloatAxioms.abs_spec.
  change (Prim2SF infinity) with (S754_infinity false).
  destruct (Prim2SF x) as [s| s| |s m e]; cbn; intros H;
    try discriminate; eauto.
  destruct s; discriminate.
Qed.

Lemma SFeqb_finite_refl (s : bool) (m : positive) (e : Z) :
  SFeqb (S754_finite s m e) (S754_finite s m e) = true.
Proof.
  unfold SFeqb, SFcompare.
  rewrite Z.compare_refl, Pos.compare_cont_refl. destruct s; reflexivity.
Qed.

(** [x == 0.0] holds of the two zeros only. *)
Lemma eqb_zero_spec (t : float) :
  (t =? 0) = true -> exists s, Prim2SF t = S754_zero s.
Proof.
  rewrite FloatAxioms.eqb_spec. change (Prim2SF 0) with (S754_zero false).
  destruct (Prim2SF t) as [s| s| |s m e]; cbn; intros H;
    try discriminate; eauto.
  - destruct s; discriminate.
  - destruct s; discriminate.
Qed.

(** A finite difference has finite operands. *)
Lemma sub_finite_left (a b : float) :
  is_finite (a - b) = true ->
  (exists s, Prim2SF b = S754_zero s)
  \/ (exists s m e, Prim2SF b = S754_finite s m e).
Proof.
  intros H. destruct (@is_finite_spec _ H) as [[s Hd]|(s & m & e & Hd)];
    rewrite FloatAxioms.sub_spec in Hd; unfold SF64sub in Hd;
    destruct (Prim2SF b) as [sb| sb| |sb mb eb]; eauto;
    destruct (Prim2SF a) as [sa| sa| |sa ma ea]; cbn in Hd;
    try discriminate; try (destruct sa, sb; discriminate).
Qed.

(** The interpolation [cw + (nw - cw) * t] at [t == 0.0] compares equal
    to [cw], when the difference is finite. *)
Lemma interpolate_at_zero (cw nw t : float) :
  (t =? 0) = true -> is_finite (nw - cw) = true ->
  (cw + (nw - cw) * t =? cw) = true.
Proof.
  intros Ht Hfin.
  destruct (@eqb_zero_spec _ Ht) as [st HT].
  assert (Hm : exists sm, Prim2SF ((nw - cw) * t) = S754_zero sm).
  { rewrite FloatAxioms.mul_spec, HT. unfold SF64mul.
    destruct (@is_finite_spec _ Hfin) as [[s ->]|(s & m & e & ->)];
      cbn; eauto. }
  destruct Hm as [sm Hm].
  rewrite FloatAxioms.eqb_spec, FloatAxioms.add_spec, Hm. unfold SF64add.
  destruct (@sub_finite_left _ _ Hfin) as [[s ->]|(s & m & e & ->)].
  - destruct s, sm; reflexivity.
  - cbn. apply SFeqb_finite_refl.
Qed.

End Binary64.

(* ================================================================= *)
(** ** The position at the two ends of a segment *)

(** C6, as amended.  For a vehicle that is not at its last waypoint index:
    in exact arithmetic [get_current_position] returns the waypoint at the
    index when the progress is 0 and the next waypoint when it is 1; in
    binary64, with a progress that compares equal to 0 and waypoints whose
    coordinate differences are finite, the position compares equal to the
    waypoint at the index. *)
Theorem position_at_segment_ends :
  (forall v : Vehicle R,
      (- len (waypoints (route v)) <= current_waypoint_index v
       < len (waypoints (route v)) - 1)%Z ->
      exists cw nw,
        py_index (waypoints (route v)) (current_waypoint_index v)
        = Returns cw
        /\ py_index (waypoints (route v)) (current_waypoint_index v + 1)
           = Returns nw
        /\ (progress_to_next_waypoint v = 0%R ->
            get_current_position v = Returns cw)
        /\ (progress_to_next_waypoint v = 1%R ->
            get_current_position v = Returns nw))
  /\
  (forall v : Vehicle float,
      (- len (waypoints (route v)) <= current_waypoint_index v
       < len (waypoints (route v)) - 1)%Z ->
      exists cw nw,
        py_index (waypoints (route v)) (current_waypoint_index v)
        = Returns cw
        /\ py_index (waypoints (route v)) (current_waypoint_index v + 1)
           = Returns nw
        /\ (PrimFloat.eqb (progress_to_next_waypoint v) 0 = true ->
            is_finite (fst nw - fst cw) = true ->
            is_finite (snd nw - snd cw) = true ->
            exists r,
              get_current_position v = Returns r
              /\ PrimFloat.eqb (fst r) (fst cw) = true
              /\ PrimFloat.eqb (snd r) (snd cw) = true)).
Proof.
  split; intros v [Hlo Hhi];
    destruct (@py_index_in_range _ (waypoints (route v))
                (current_waypoint_index v)) as [cw Hcw]; try lia;
    destruct (@py_index_in_range _ (waypoints (route v))
                (current_waypoint_index v + 1)) as [nw Hnw]; try lia;
    exists cw, nw; (split; [exact Hcw|]); (split; [exact Hnw|]).
  - split; intros Hp; rewrite (get_current_position_step v Hhi Hcw Hnw), Hp;
      destruct cw as [lat1 lon1], nw as [lat2 lon2]; cbn;
      apply f_equal; apply f_equal2; ring.
  - intros Hp Hlat Hlon.
    rewrite (get_current_position_step v Hhi Hcw Hnw).
    eexists. split; [reflexivity|]. cbn [fst snd].
    split; apply Binary64.interpolate_at_zero; assumption.
Qed.

(** An instance of [position_at_segment_ends] in each arithmetic. *)
Lemma position_at_segment_ends_witness :
  (exists cw nw,
      py_index (waypoints short_hop) 0 = Returns cw
      /\ py_index (waypoints short_hop) (0 + 1) = Returns nw
      /\ (0%R = 0%R ->
          get_current_position (vehicle_on_short_hop 0) = Returns cw)
      /\ (0%R = 1%R ->
          get_current_position (vehicle_on_short_hop 0) = Returns nw))
  /\
  (exists cw nw,
      py_index (waypoints steep_hop) 0 = Returns cw
      /\ py_index (waypoints steep_hop) (0 + 1) = Returns nw
      /\ (PrimFloat.eqb 0 0 = true ->
          is_finite (fst nw - fst cw) = true ->
          is_finite (snd nw - snd cw) = true ->
          exists r,
            get_current_position (vehicle_on_steep_hop 0) = Returns r
            /\ PrimFloat.eqb (fst r) (fst cw) = true
            /\ PrimFloat.eqb (snd r) (snd cw) = true)).
Proof.
  split.
  - apply (proj1 position_at_segment_ends (vehicle_on_short_hop 0)).
    cbn. lia.
  - apply (proj2 position_at_segment_ends (vehicle_on_steep_hop 0)).
    cbn. lia.
Defined.

(** C6 as stated fails in binary64.  On the segment from [(1.0, 0.0)] to
    [(0.1, 0.0)] with progress [1.0], the latitude returned is
    [1.0 + (0.1 - 1.0) * 1.0 = 0.09999999999999998], which is not the
    latitude [0.1] of the next waypoint. *)
Lemma next_waypoint_not_exact_in_binary64 :
  (current_waypoint_index (vehicle_on_steep_hop 1)
   < len (waypoints (route (vehicle_on_steep_hop 1))) - 1)%Z
  /\ progress_to_next_waypoint (vehicle_on_steep_hop 1) = 1%float
  /\ py_index (waypoints (route (vehicle_on_steep_hop 1)))
              (current_waypoint_index (vehicle_on_steep_hop 1) + 1)
     = Returns (one_tenth, 0%float)
  /\ get_current_position (vehicle_on_steep_hop 1)
     = Returns (0x1.9999999999998p-4%float, 0%float)
  /\ PrimFloat.eqb 0x1.9999999999998p-4 one_tenth = false
  /\ get_current_position (vehicle_on_steep_hop 1)
     <> py_index (waypoints (route (vehicle_on_steep_hop 1)))
                 (current_waypoint_index (vehicle_on_steep_hop 1) + 1).
Proof.
  split; [cbn; lia|].
  do 4 (split; [reflexivity|]).
  intros H.
  apply (f_equal (fun o => match o with
                           | Returns (lat, _) => PrimFloat.eqb lat one_tenth
                           | _ => true
                           end)) in H.
  vm_compute in H. discriminate.
Qed.


(* ================================================================= *)
(** ** The dispatch pipeline *)

Lemma firstn_plus {A : Type} (n m : nat) (l : list A) :
  firstn (n + m) l = firstn n l ++ firstn m (skipn n l).
Proof.
  revert l. induction n as [|n IH]; intros l; [reflexivity|].
  destruct l as [|a l]; [now rewrite !firstn_nil|].
  cbn. rewrite IH. reflexivity.
Qed.

Lemma py_slice_step {A : Type} (l : list A) (i b : nat) :
  py_slice l i (i + b) = firstn b (skipn i l).
Proof. unfold py_slice. f_equal. lia. Qed.

(** The batches are the consecutive slices of length [b]. *)
Lemma concat_slices {A : Type} (l : list A) (b : nat) (c j : nat) :
  List.concat (map (fun i => py_slice l i (i + b))
              (map (fun k => (k * b)%nat) (seq j c)))
  = firstn (c * b) (skipn (j * b) l).
Proof.
  revert j. induction c as [|c IH]; intros j; [reflexivity|].
  cbn [seq map List.concat]. rewrite IH, py_slice_step.
  replace (S c * b)%nat with (b + c * b)%nat by lia.
  rewrite firstn_plus, skipn_skipn.
  replace (b + j * b)%nat with (S j * b)%nat by lia. reflexivity.
Qed.

Lemma ceil_div_covers (n b : nat) :
  (0 < b)%nat -> (n <= (n + b - 1) / b * b)%nat.
Proof.
  intros Hb.
  pose proof (Nat.div_mod_eq (n + b - 1) b) as E.
  pose proof (Nat.mod_upper_bound (n + b - 1) b) as U. nia.
Qed.

Lemma py_sum_app (l1 l2 : list Z) :
  py_sum (l1 ++ l2) = (py_sum l1 + py_sum l2)%Z.
Proof.
  unfold py_sum. induction l1 as [|a l1 IH]; [reflexivity|].
  cbn [app fold_right]. rewrite IH. lia.
Qed.

Lemma py_sum_lengths {A : Type} (ls : list (list A)) :
  py_sum (map len ls) = len (List.concat ls).
Proof.
  induction ls as [|l ls IH]; [reflexivity|].
  cbn [map List.concat]. change (py_sum (len l :: map len ls))
    with (len l + py_sum (map len ls))%Z.
  rewrite IH. unfold len. rewrite length_app. lia.
Qed.

Section DispatchProperties.

Context {Sink Batch Event : Type} {PC : ProducerClient Sink Batch Event}.

Lemma event_batches_concat (b : nat) (events : list Event) :
  (0 < b)%nat -> List.concat (event_batches b events) = events.
Proof.
  intros Hb. unfold event_batches, py_range0.
  rewrite concat_slices. cbn [Nat.mul skipn].
  apply firstn_all2. apply ceil_div_covers. exact Hb.
Qed.

Lemma event_batches_length (b : nat) (events : list Event) :
  List.length (event_batches b events)
  = ((List.length events + b - 1) / b)%nat.
Proof.
  unfold event_batches, py_range0. rewrite !length_map, length_seq.
  reflexivity.
Qed.

Lemma event_batches_nth (b : nat) (events : list Event) (k : nat) :
  (k < List.length (event_batches b events))%nat ->
  nth k (event_batches b events) []
  = firstn b (skipn (k * b) events).
Proof.
  rewrite event_batches_length. intros Hk.
  unfold event_batches, py_range0.
  rewrite (nth_indep _ [] (py_slice events (0 * b) (0 * b + b)))
    by (rewrite !length_map, length_seq; exact Hk).
  rewrite (map_nth (fun i => py_slice events i (i + b))).
  rewrite (map_nth (fun k => (k * b)%nat)).
  rewrite seq_nth by exact Hk. cbn [Nat.add].
  apply py_slice_step.
Qed.

(** The sizes of the batches: [b] for each full batch, the remainder for
    the last one. *)
Lemma event_batches_sizes (b : nat) (events : list Event) (k : nat) :
  (0 < b)%nat ->
  (k < List.length (event_batches b events))%nat ->
  List.length (nth k (event_batches b events) [])
  = if (k <? List.length events / b)%nat then b
    else (List.length events mod b)%nat.
Proof.
  intros Hb Hk. rewrite event_batches_nth by exact Hk.
  rewrite event_batches_length in Hk.
  rewrite length_firstn, length_skipn.
  set (n := List.length events) in *.
  pose proof (Nat.div_mod_eq n b) as E.
  pose proof (Nat.mod_upper_bound n b ltac:(lia)) as U.
  assert (Hc : ((n + b - 1) / b < n / b + 2)%nat).
  { apply Nat.Div0.div_lt_upper_bound. nia. }
  destruct (Nat.ltb_spec k (n / b)) as [Hfull|Hlast].
  - nia.
  - assert (k = (n / b)%nat) by lia. subst k. nia.
Qed.

(** A submission that does not raise reports the size of its batch. *)
Lemma try_send_single_batch_count (s s' : Sink) (events_batch : list Event)
  (n : Z) :
  try_send_single_batch s events_batch = (s', Some n) ->
  n = len events_batch.
Proof.
  unfold try_send_single_batch.
  destruct (create_batch s) as [s1 [b|]]; [|discriminate].
  destruct (fill_batches s1 b 0 events_batch) as [s2 [[b' k]|]];
    [|discriminate].
  destruct (k >? 0)%Z.
  - destruct (send_batch s2 b') as [s3 [|]]; [|discriminate].
    intros H. injection H as _ <-. reflexivity.
  - intros H. injection H as _ <-. reflexivity.
Qed.

(** What [_send_single_batch] returns, by the outcome of its [try]. *)
Lemma _send_single_batch_result (s : Sink) (events_batch : list Event) :
  _send_single_batch s events_batch
  = (fst (try_send_single_batch s events_batch),
     match snd (try_send_single_batch s events_batch) with
     | Some _ => len events_batch
     | None => 0%Z
     end).
Proof.
  unfold _send_single_batch.
  destruct (try_send_single_batch s events_batch) as [s' [n|]] eqn:E;
    [|reflexivity].
  rewrite (try_send_single_batch_count _ _ E). reflexivity.
Qed.

(** Every batch is submitted and contributes its size, or 0 when its
    submission raised. *)
Lemma gather_batches_results (s : Sink) (batches : list (list Event)) :
  snd (gather_batches s batches)
  = map (fun bf : list Event * bool => if snd bf then 0%Z else len (fst bf))
        (combine batches (gather_failures s batches)).
Proof.
  revert s. induction batches as [|b rest IH]; intros s; [reflexivity|].
  cbn [gather_batches gather_failures].
  rewrite _send_single_batch_result.
  destruct (try_send_single_batch s b) as [s1 r].
  cbn [fst snd].
  specialize (IH s1). destruct (gather_batches s1 rest) as [s2 ns].
  cbn [snd] in *. rewrite IH. cbn [combine map fst snd].
  destruct r; reflexivity.
Qed.

Lemma gather_failures_length (s : Sink) (batches : list (list Event)) :
  List.length (gather_failures s batches) = List.length batches.
Proof.
  revert s. induction batches as [|b rest IH]; intros s; [reflexivity|].
  cbn [gather_failures].
  destruct (try_send_single_batch s b) as [s1 r]. cbn. rewrite IH.
  reflexivity.
Qed.

Lemma gather_batches_total (s : Sink) (batches : list (list Event)) :
  py_sum (snd (gather_batches s batches))
  = (py_sum (map len batches)
     - py_sum (map len (failed_batches s batches)))%Z.
Proof.
  rewrite gather_batches_results. unfold failed_batches.
  revert s. induction batches as [|b rest IH]; intros s; [reflexivity|].
  cbn [gather_failures].
  destruct (try_send_single_batch s b) as [s1 r].
  cbn [combine map filter]. specialize (IH s1). unfold py_sum in *.
  destruct r; cbn [snd fst map filter fold_right] in *; lia.
Qed.

(** The total of a tick: the number of events less the sizes of the batches
    whose submission raised. *)
Lemma send_events_total (s : Sink) (events_to_send : list Event) :
  snd (_send_events_parallel_batches s events_to_send)
  = (len events_to_send
     - py_sum (map len (failed_batches s
                          (event_batches batch_size events_to_send))))%Z.
Proof.
  assert (Hb : (0 < batch_size)%nat) by (unfold batch_size; lia).
  unfold _send_events_parallel_batches.
  destruct (is_empty events_to_send) eqn:E.
  - destruct events_to_send; [reflexivity|discriminate].
  - pose proof (gather_batches_total s
                  (event_batches batch_size events_to_send)) as Hsum.
    destruct (gather_batches s _) as [s' rs]. cbn [snd] in *.
    rewrite Hsum, py_sum_lengths.
    rewrite (event_batches_concat events_to_send Hb). reflexivity.
Qed.

(** The total of a tick is between 0 and the number of events. *)
Lemma dispatch_total_bounds (s : Sink) (events_to_send : list Event) :
  (0 <= snd (_send_events_parallel_batches s events_to_send)
   <= len events_to_send)%Z.
Proof.
  pose proof (send_events_total s events_to_send) as Htotal.
  assert (Hnn : forall ls : list (list Event), (0 <= py_sum (map len ls))%Z).
  { intros ls. rewrite py_sum_lengths. apply len_nonneg. }
  split; [|rewrite Htotal; specialize (Hnn
             (failed_batches s (event_batches batch_size events_to_send)));
           change (len events_to_send)
             with (Z.of_nat (List.length events_to_send)); lia].
  unfold _send_events_parallel_batches.
  destruct (is_empty events_to_send); [cbn; lia|].
  pose proof (gather_batches_results s
                (event_batches batch_size events_to_send)) as Hr.
  destruct (gather_batches s _) as [s' rs]. cbn [snd] in *. subst rs.
  generalize (combine (event_batches batch_size events_to_send)
                (gather_failures s
                   (event_batches batch_size events_to_send))).
  intros l. unfold py_sum. induction l as [|[c f] l IH]; cbn; [lia|].
  pose proof (len_nonneg c). destruct f; cbn; lia.
Qed.

(** The count of the current batch stays positive once an event has been
    added. *)
Lemma fill_batches_count (events : list Event) :
  forall (s s' : Sink) (b b' : Batch) (n n' : Z),
    (0 <= n)%Z ->
    fill_batches s b n events = (s', Some (b', n')) ->
    (Z.min n 1 <= n')%Z /\ (events <> [] -> 1 <= n')%Z.
Proof.
  induction events as [|e rest IH]; intros s s' b b' n n' Hn Hfill.
  - cbn in Hfill. injection Hfill as _ _ <-. split; [lia|congruence].
  - cbn [fill_batches] in Hfill.
    assert (Hgoal : (1 <= n')%Z); [|split; [lia|intros _; exact Hgoal]].
    destruct (batch_add b e) as [b1| |]; [| |discriminate].
    + destruct (IH s s' b1 b' (n + 1)%Z n' ltac:(lia) Hfill) as [Hmin _].
      lia.
    + destruct (if (n >? 0)%Z then send_batch s b else (s, true))
        as [s1 [|]]; [|discriminate].
      destruct (create_batch s1) as [s2 [fresh|]]; [|discriminate].
      destruct (batch_add fresh e) as [b1| |]; try discriminate.
      destruct (IH s2 s' b1 b' 1%Z n' ltac:(lia) Hfill) as [Hmin _]. lia.
Qed.

(** On a client whose every [send_batch] raises, no chunk counts. *)
Lemma send_single_batch_unreachable (s : Sink) (events_batch : list Event) :
  (forall (s0 : Sink) (b : Batch), snd (send_batch s0 b) = false) ->
  snd (_send_single_batch s events_batch) = 0%Z.
Proof.
  intros Hfail. unfold _send_single_batch, try_send_single_batch.
  destruct (create_batch s) as [s1 [b|]]; [|reflexivity].
  destruct (fill_batches s1 b 0 events_batch) as [s2 [[b' k]|]] eqn:Hfill;
    [|reflexivity].
  destruct (@fill_batches_count events_batch s1 s2 b b' 0%Z k ltac:(lia) Hfill)
    as [_ Hpos].
  destruct (Z.gtb_spec k 0) as [Hk|Hk].
  - specialize (Hfail s2 b'). destruct (send_batch s2 b') as [s3 [|]];
      [discriminate|reflexivity].
  - destruct events_batch; [reflexivity|].
    specialize (Hpos ltac:(discriminate)). lia.
Qed.

Lemma send_events_unreachable (s : Sink) (events_to_send : list Event) :
  (forall (s0 : Sink) (b : Batch), snd (send_batch s0 b) = false) ->
  snd (_send_events_parallel_batches s events_to_send) = 0%Z.
Proof.
  intros Hfail. unfold _send_events_parallel_batches.
  destruct (is_empty events_to_send); [reflexivity|].
  generalize (event_batches batch_size events_to_send) as chunks.
  intros chunks.
  assert (H : py_sum (snd (gather_batches s chunks)) = 0%Z).
  { revert s. induction chunks as [|c rest IH]; intros s; [reflexivity|].
    cbn [gather_batches].
    pose proof (send_single_batch_unreachable s c Hfail) as Hc.
    destruct (_send_single_batch s c) as [s1 n]. cbn [snd] in Hc. subst n.
    specialize (IH s1). destruct (gather_batches s1 rest) as [s2 ns].
    cbn [snd] in *. unfold py_sum in *. cbn [fold_right]. lia. }
  destruct (gather_batches s chunks) as [s' rs]. exact H.
Qed.

End DispatchProperties.

(** *** When a submission fails *)

Section SubmissionFailures.

Context {Sink Batch Event : Type} {PC : ProducerClient Sink Batch Event}.

Lemma try_send_create_raises (s : Sink) (c : list Event) :
  snd (create_batch s) = None -> snd (try_send_single_batch s c) = None.
Proof.
  unfold try_send_single_batch.
  destruct (create_batch s) as [s1 [b|]]; [discriminate|reflexivity].
Qed.

Lemma fill_batches_add_raises (e : Event) (events : list Event) :
  (forall b : Batch, batch_add b e = AddError) ->
  In e events ->
  forall (s : Sink) (b : Batch) (n : Z),
    snd (fill_batches s b n events) = None.
Proof.
  intros Hraise. induction events as [|e' rest IH]; intros Hin s b n;
    [destruct Hin|].
  cbn [fill_batches].
  destruct Hin as [->|Hin].
  - rewrite Hraise. reflexivity.
  - destruct (batch_add b e') as [b1| |]; [auto| |reflexivity].
    destruct (if (n >? 0)%Z then send_batch s b else (s, true))
      as [s1 [|]]; [|reflexivity].
    destruct (create_batch s1) as [s2 [fresh|]]; [|reflexivity].
    destruct (batch_add fresh e') as [b1| |]; auto.
Qed.

Lemma try_send_add_raises (s : Sink) (c : list Event) (e : Event) :
  In e c -> (forall b : Batch, batch_add b e = AddError) ->
  snd (try_send_single_batch s c) = None.
Proof.
  intros Hin Hraise. unfold try_send_single_batch.
  destruct (create_batch s) as [s1 [b|]]; [|reflexivity].
  pose proof (@fill_batches_add_raises e c Hraise Hin s1 b 0%Z) as Hfill.
  destruct (fill_batches s1 b 0 c) as [s2 [[b' k]|]];
    [discriminate|reflexivity].
Qed.

Lemma fill_batches_never_fits (e : Event) (events : list Event) :
  (forall b : Batch, batch_add b e = BatchFull) ->
  In e events ->
  forall (s : Sink) (b : Batch) (n : Z),
    snd (fill_batches s b n events) = None.
Proof.
  intros Hfull. induction events as [|e' rest IH]; intros Hin s b n;
    [destruct Hin|].
  cbn [fill_batches].
  destruct Hin as [->|Hin].
  - rewrite Hfull.
    destruct (if (n >? 0)%Z then send_batch s b else (s, true))
      as [s1 [|]]; [|reflexivity].
    destruct (create_batch s1) as [s2 [fresh|]]; [|reflexivity].
    rewrite Hfull. reflexivity.
  - destruct (batch_add b e') as [b1| |]; [auto| |reflexivity].
    destruct (if (n >? 0)%Z then send_batch s b else (s, true))
      as [s1 [|]]; [|reflexivity].
    destruct (create_batch s1) as [s2 [fresh|]]; [|reflexivity].
    destruct (batch_add fresh e') as [b1| |]; auto.
Qed.

Lemma try_send_never_fits (s : Sink) (c : list Event) (e : Event) :
  In e c -> (forall b : Batch, batch_add b e = BatchFull) ->
  snd (try_send_single_batch s c) = None.
Proof.
  intros Hin Hfull. unfold try_send_single_batch.
  destruct (create_batch s) as [s1 [b|]]; [|reflexivity].
  pose proof (@fill_batches_never_fits e c Hfull Hin s1 b 0%Z) as Hfill.
  destruct (fill_batches s1 b 0 c) as [s2 [[b' k]|]];
    [discriminate|reflexivity].
Qed.

Lemma try_send_send_raises (s : Sink) (c : list Event) :
  c <> [] ->
  (forall (s1 : Sink) (b : Batch), snd (send_batch s1 b) = false) ->
  snd (try_send_single_batch s c) = None.
Proof.
  intros Hne Hfail. unfold try_send_single_batch.
  destruct (create_batch s) as [s1 [b|]]; [|reflexivity].
  destruct (fill_batches s1 b 0 c) as [s2 [[b' k]|]] eqn:Hfill;
    [|reflexivity].
  destruct (@fill_batches_count _ _ _ _ c s1 s2 b b' 0%Z k ltac:(lia) Hfill)
    as [_ Hpos].
  specialize (Hpos Hne).
  destruct (Z.gtb_spec k 0) as [Hk|Hk]; [|lia].
  specialize (Hfail s2 b'). destruct (send_batch s2 b') as [s3 [|]];
    [discriminate|reflexivity].
Qed.

Lemma fill_batches_never_raises (events : list Event) :
  client_never_raises PC ->
  forall (s : Sink) (b : Batch) (n : Z),
    snd (fill_batches s b n events) <> None.
Proof.
  intros (Hcreate & Hadd & Hsend).
  induction events as [|e rest IH]; intros s b n; [discriminate|].
  cbn [fill_batches].
  pose proof (Hadd b e) as Hb.
  destruct (batch_add b e) as [b1| |]; [apply IH| |congruence].
  assert (Hs : snd (if (n >? 0)%Z then send_batch s b else (s, true)) = true).
  { destruct (n >? 0)%Z; [apply Hsend|reflexivity]. }
  destruct (if (n >? 0)%Z then send_batch s b else (s, true)) as [s1 ok].
  cbn [snd] in Hs. subst ok.
  destruct (Hcreate s1) as (s2 & fresh & -> & Hfresh).
  destruct (Hfresh e) as [b1 ->]. apply IH.
Qed.

Lemma try_send_never_raises (s : Sink) (c : list Event) :
  client_never_raises PC -> snd (try_send_single_batch s c) <> None.
Proof.
  intros Hnr. pose proof Hnr as (Hcreate & _ & Hsend).
  unfold try_send_single_batch.
  destruct (Hcreate s) as (s1 & b & -> & _).
  pose proof (@fill_batches_never_raises c Hnr s1 b 0%Z) as Hfill.
  destruct (fill_batches s1 b 0 c) as [s2 [[b' k]|]];
    [|cbn in Hfill; congruence].
  destruct (k >? 0)%Z; [|discriminate].
  specialize (Hsend s2 b'). destruct (send_batch s2 b') as [s3 [|]];
    [discriminate|discriminate].
Qed.

Lemma failed_batches_never_raises (batches : list (list Event)) :
  client_never_raises PC ->
  forall s : Sink, failed_batches s batches = [].
Proof.
  intros Hnr. unfold failed_batches.
  induction batches as [|c rest IH]; intros s; [reflexivity|].
  cbn [gather_failures].
  pose proof (@try_send_never_raises s c Hnr) as Hc.
  destruct (try_send_single_batch s c) as [s1 [n|]];
    [|cbn in Hc; congruence].
  cbn [combine filter snd]. apply IH.
Qed.

End SubmissionFailures.

Section RefusingClient.

Variables (Event : Type) (cap : nat) (refused : Event -> bool).
Hypothesis cap_positive : (1 <= cap)%nat.

Lemma existsb_concat_accepted (D : list (list Event)) :
  Forall (fun b => existsb refused b = false) D ->
  existsb refused (List.concat D) = false.
Proof.
  induction 1 as [|b D Hb _ IH]; [reflexivity|].
  cbn [List.concat]. rewrite existsb_app, Hb, IH. reflexivity.
Qed.

(** The [for] loop of [_send_single_batch] on a client that refuses
    batches by what they hold, started on a batch [b] of [len b] events. *)
Lemma fill_batches_refusing (events : list Event) :
  forall (h : Hub Event) (b : list Event),
    (List.length b <= cap)%nat ->
    exists D : list (list Event),
      delivered (fst (fill_batches (PC := refusing_client cap refused)
                        h b (len b) events))
      = delivered h ++ D
      /\ Forall (batch_ok cap) D
      /\ Forall (fun x => existsb refused x = false) D
      /\ match snd (fill_batches (PC := refusing_client cap refused)
                      h b (len b) events) with
         | Some (b', n') =>
             n' = len b' /\ (List.length b' <= cap)%nat
             /\ List.concat D ++ b' = b ++ events
         | None =>
             existsb refused (b ++ events) = true
             /\ exists rest, List.concat D ++ rest = b ++ events
         end.
Proof.
  induction events as [|e rest IH]; intros h b Hb.
  - exists []. cbn. rewrite !app_nil_r. repeat split; auto.
  - cbn [fill_batches batch_add refusing_client].
    destruct (Nat.ltb_spec (List.length b) cap) as [Hlt|Hge].
    + replace (len b + 1)%Z with (len (b ++ [e]))
        by (unfold len; rewrite length_app; cbn; lia).
      destruct (IH h (b ++ [e])) as (D & HD & Hok & Hacc & Hr).
      { rewrite length_app. cbn. lia. }
      exists D. rewrite <- !app_assoc in *. cbn [app] in *.
      repeat split; assumption.
    + assert (Hfull : List.length b = cap) by lia.
      assert (Hpos : (len b >? 0)%Z = true)
        by (apply Z.gtb_lt; unfold len; lia).
      rewrite Hpos. cbn [send_batch refusing_client].
      destruct (existsb refused b) eqn:Hb'.
      * exists []. cbn. rewrite app_nil_r.
        split; [reflexivity|]. split; [constructor|]. split; [constructor|].
        split; [rewrite existsb_app, Hb'; reflexivity|].
        exists (b ++ e :: rest). reflexivity.
      * cbn [create_batch refusing_client batch_add].
        replace (List.length (@nil Event) <? cap)%nat with true
          by (symmetry; apply Nat.ltb_lt; cbn; lia).
        cbn [app].
        destruct (IH {| sends := S (sends h);
                        delivered := delivered h ++ [b] |} [e])
          as (D & HD & Hok & Hacc & Hr); [cbn; lia|].
        change 1%Z with (len [e]).
        exists (b :: D). cbn [delivered] in HD.
        rewrite HD, <- app_assoc. cbn [app List.concat].
        split; [reflexivity|].
        split; [constructor; [unfold batch_ok; lia|exact Hok]|].
        split; [constructor; assumption|].
        destruct (snd _) as [[b' n']|].
        -- destruct Hr as (Hn & Hb'' & Hc). repeat split; auto.
           rewrite <- app_assoc, Hc. reflexivity.
        -- destruct Hr as (Hex & rest' & Hrest). split.
           ++ rewrite existsb_app, Hb'. exact Hex.
           ++ exists rest'. rewrite <- app_assoc, Hrest. reflexivity.
Qed.

Lemma try_send_single_batch_refusing (h : Hub Event) (c : list Event) :
  exists (D : list (list Event)) (rest : list Event),
    delivered (fst (try_send_single_batch
                      (PC := refusing_client cap refused) h c))
    = delivered h ++ D
    /\ List.concat D ++ rest = c
    /\ Forall (batch_ok cap) D
    /\ snd (try_send_single_batch (PC := refusing_client cap refused) h c)
       = (if existsb refused c then None else Some (len c))
    /\ (existsb refused c = false -> rest = []).
Proof.
  unfold try_send_single_batch. cbn [create_batch refusing_client].
  destruct (@fill_batches_refusing c h []) as (D & HD & Hok & Hacc & Hr);
    [cbn; lia|].
  change (len (@nil Event)) with 0%Z in *. cbn [app] in *.
  destruct (fill_batches (PC := refusing_client cap refused) h [] 0 c)
    as [h2 [[b' n']|]]; cbn [fst snd] in *.
  - destruct Hr as (-> & Hb' & Hc).
    assert (Hex : existsb refused c = existsb refused b').
    { rewrite <- Hc, existsb_app, (existsb_concat_accepted Hacc).
      reflexivity. }
    destruct (Z.gtb_spec (len b') 0) as [Hpos|Hzero].
    + cbn [send_batch refusing_client]. rewrite Hex.
      destruct (existsb refused b') eqn:Hb''.
      * exists D, b'. cbn [fst snd delivered].
        repeat split; auto. discriminate.
      * exists (D ++ [b']), []. cbn [fst snd delivered].
        rewrite HD, <- app_assoc, concat_app. cbn [List.concat].
        rewrite !app_nil_r.
        repeat split; auto.
        apply Forall_app. split; [exact Hok|].
        constructor; [|constructor]. unfold batch_ok, len in *. lia.
    + assert (b' = []) as ->
        by (destruct b'; [reflexivity|unfold len in Hzero; cbn in Hzero; lia]).
      rewrite Hex. cbn [existsb]. exists D, []. cbn [fst snd].
      repeat split; auto.
  - destruct Hr as (Hex & rest & Hrest). rewrite Hex.
    exists D, rest. repeat split; auto. discriminate.
Qed.

Lemma gather_refusing (batches : list (list Event)) :
  forall h : Hub Event,
    gather_failures (PC := refusing_client cap refused) h batches
    = map (existsb refused) batches
    /\ snd (gather_batches (PC := refusing_client cap refused) h batches)
       = map (fun c => if existsb refused c then 0%Z else len c) batches.
Proof.
  induction batches as [|c rest IH]; intros h; [split; reflexivity|].
  cbn [gather_failures gather_batches map].
  rewrite _send_single_batch_result.
  destruct (try_send_single_batch_refusing h c) as (_ & _ & _ & _ & _ & Hr & _).
  destruct (try_send_single_batch (PC := refusing_client cap refused) h c)
    as [h1 r]. cbn [fst snd] in *.
  destruct (IH h1) as [Hf Hg].
  destruct (gather_batches (PC := refusing_client cap refused) h1 rest)
    as [h2 ns]. cbn [snd] in *.
  rewrite Hf, Hg, Hr. destruct (existsb refused c); split; reflexivity.
Qed.

Lemma failed_batches_refusing (batches : list (list Event))
  (h : Hub Event) :
  failed_batches (PC := refusing_client cap refused) h batches
  = filter (existsb refused) batches.
Proof.
  unfold failed_batches. rewrite (proj1 (gather_refusing batches h)).
  clear h. induction batches as [|c rest IH]; [reflexivity|].
  cbn [map combine filter snd]. destruct (existsb refused c);
    cbn [map fst]; rewrite IH; reflexivity.
Qed.

End RefusingClient.

(** C2.  The events of a tick are split, in order, into
    [ceil(K / 100)] chunks, each of 100 events but for a last one of
    [K mod 100]; every chunk is submitted and contributes its size, or 0
    when its submission failed; the total of the tick is [K] less the sizes
    of the chunks that failed, and [K] when none did.

    A submission fails when a call of the client raises in it: on any
    client, when [create_batch] raises, when [add] raises something else
    than [ValueError] for one of its events, when [add] raises [ValueError]
    for one of its events even on a new batch, or when every [send_batch]
    raises and the chunk has events; and on a client of which no call
    raises, no submission fails and the total is [K].

    On a client that refuses the batches holding a refused event, whatever
    the size of its batches, the chunks that fail are exactly those that
    hold a refused event: every other chunk contributes its size and is
    delivered whole and in order, in batches within the size limit; of a
    chunk that fails only a first part is delivered, and it counts 0. *)
Theorem dispatch_chunks_and_total {Sink Batch Event : Type}
  {PC : ProducerClient Sink Batch Event}
  (s : Sink) (events_to_send : list Event) :
  let K := List.length events_to_send in
  let chunks := event_batches batch_size events_to_send in
  List.length chunks = ((K + 99) / 100)%nat
  /\ (forall k, (k < List.length chunks)%nat ->
        List.length (nth k chunks [])
        = if (k <? K / 100)%nat then 100%nat else (K mod 100)%nat)
  /\ List.concat chunks = events_to_send
  /\ List.length (gather_failures s chunks) = List.length chunks
  /\ snd (gather_batches s chunks)
     = map (fun cf : list Event * bool =>
              if snd cf then 0%Z else len (fst cf))
           (combine chunks (gather_failures s chunks))
  /\ snd (_send_events_parallel_batches s events_to_send)
     = (Z.of_nat K - py_sum (map len (failed_batches s chunks)))%Z
  /\ (failed_batches s chunks = [] ->
      snd (_send_events_parallel_batches s events_to_send) = Z.of_nat K)
  /\ (client_never_raises PC ->
      failed_batches s chunks = []
      /\ snd (_send_events_parallel_batches s events_to_send) = Z.of_nat K)
  /\ (forall (s0 : Sink) (c : list Event),
        (snd (create_batch s0) = None ->
         snd (try_send_single_batch s0 c) = None)
        /\ (forall e : Event,
              In e c -> (forall b : Batch, batch_add b e = AddError) ->
              snd (try_send_single_batch s0 c) = None)
        /\ (forall e : Event,
              In e c -> (forall b : Batch, batch_add b e = BatchFull) ->
              snd (try_send_single_batch s0 c) = None)
        /\ (c <> [] ->
            (forall (s1 : Sink) (b : Batch), snd (send_batch s1 b) = false) ->
            snd (try_send_single_batch s0 c) = None))
  /\ (forall (cap : nat) (refused : Event -> bool) (h : Hub Event),
        (1 <= cap)%nat ->
        gather_failures (PC := refusing_client cap refused) h chunks
        = map (existsb refused) chunks
        /\ snd (gather_batches (PC := refusing_client cap refused) h chunks)
           = map (fun c => if existsb refused c then 0%Z else len c) chunks
        /\ snd (_send_events_parallel_batches
                  (PC := refusing_client cap refused) h events_to_send)
           = (Z.of_nat K
              - py_sum (map len (filter (existsb refused) chunks)))%Z
        /\ forall (h0 : Hub Event) (c : list Event),
             exists (D : list (list Event)) (rest : list Event),
               delivered (fst (_send_single_batch
                                 (PC := refusing_client cap refused) h0 c))
               = delivered h0 ++ D
               /\ List.concat D ++ rest = c
               /\ Forall (batch_ok cap) D
               /\ snd (_send_single_batch
                         (PC := refusing_client cap refused) h0 c)
                  = (if existsb refused c then 0%Z else len c)
               /\ (existsb refused c = false -> rest = [])).
Proof.
  intros K chunks.
  assert (Hb : (0 < batch_size)%nat) by (unfold batch_size; lia).
  pose proof (send_events_total s events_to_send) as Htotal.
  fold K chunks in Htotal.
  assert (Hnone : failed_batches s chunks = [] ->
                  snd (_send_events_parallel_batches s events_to_send)
                  = Z.of_nat K).
  { intros Hnone. rewrite Htotal, Hnone. subst K.
    unfold len, py_sum. cbn [map fold_right]. lia. }
  split; [subst K chunks; rewrite event_batches_length;
          unfold batch_size; f_equal; lia|].
  split; [intros k Hk; apply (event_batches_sizes events_to_send Hb Hk)|].
  split; [apply event_batches_concat; exact Hb|].
  split; [apply gather_failures_length|].
  split; [apply gather_batches_results|].
  split; [exact Htotal|].
  split; [exact Hnone|].
  split.
  { intros Hnr. pose proof (failed_batches_never_raises chunks Hnr s) as Hf.
    split; [exact Hf|exact (Hnone Hf)]. }
  split.
  { intros s0 c. split; [apply try_send_create_raises|].
    split; [intros e; apply try_send_add_raises|].
    split; [intros e; apply try_send_never_fits|apply try_send_send_raises]. }
  intros cap refused h Hcap.
  destruct (gather_refusing refused Hcap chunks h) as [Hf Hg].
  split; [exact Hf|]. split; [exact Hg|]. split.
  - pose proof (send_events_total (PC := refusing_client cap refused)
                  h events_to_send) as Ht.
    fold K chunks in Ht.
    rewrite Ht, (failed_batches_refusing refused Hcap). reflexivity.
  - intros h0 c.
    destruct (try_send_single_batch_refusing refused Hcap h0 c)
      as (D & rest & HD & Hc & Hok & Hr & Hrest).
    exists D, rest. rewrite _send_single_batch_result, Hr.
    split; [exact HD|]. split; [exact Hc|]. split; [exact Hok|].
    split; [destruct (existsb refused c); reflexivity|exact Hrest].
Qed.

(** *** Scenarios *)

(** No call of the hub of the scenarios raises. *)
Lemma reliable_hub_never_raises : client_never_raises reliable_hub.
Proof.
  split; [|split].
  - intros s. exists s, []. split; [reflexivity|].
    intros e. exists [e]. reflexivity.
  - intros b e. unfold reliable_hub. cbn [batch_add hub_client].
    destruct (List.length b <? 1000)%nat; discriminate.
  - intros s b. reflexivity.
Defined.

(** [dispatch_chunks_and_total] at 250 events: on the hub of which no call
    raises, and on a hub with batches of 40 events that refuses the
    event 187. *)
Lemma dispatch_chunks_and_total_witness :
  List.length (event_batches batch_size (seq 0 250))
  = ((List.length (seq 0 250) + 99) / 100)%nat
  /\ failed_batches (PC := reliable_hub) (fresh_hub nat)
       (event_batches batch_size (seq 0 250)) = []
  /\ snd (_send_events_parallel_batches (PC := reliable_hub)
            (fresh_hub nat) (seq 0 250))
     = Z.of_nat (List.length (seq 0 250))
  /\ gather_failures (PC := refuses_187) (fresh_hub nat)
       (event_batches batch_size (seq 0 250))
     = map (existsb (Nat.eqb 187)) (event_batches batch_size (seq 0 250))
  /\ snd (_send_events_parallel_batches (PC := refuses_187)
            (fresh_hub nat) (seq 0 250))
     = (Z.of_nat (List.length (seq 0 250))
        - py_sum (map len (filter (existsb (Nat.eqb 187))
                             (event_batches batch_size (seq 0 250)))))%Z.
Proof.
  destruct (@dispatch_chunks_and_total _ _ _ reliable_hub (fresh_hub nat)
              (seq 0 250))
    as (Hcount & _ & _ & _ & _ & _ & _ & Hnever & _ & Hrefusing).
  destruct (Hnever reliable_hub_never_raises) as [Hnone Hall].
  destruct (Hrefusing 40%nat (Nat.eqb 187) (fresh_hub nat)
              ltac:(apply Nat.lt_0_succ))
    as (Hfail & _ & Htotal & _).
  split; [exact Hcount|]. split; [exact Hnone|]. split; [exact Hall|].
  split; [exact Hfail|exact Htotal].
Defined.

(** The same scenario, evaluated: the second chunk holds the event 187 and
    fails on its third batch, after two batches of 40 events were delivered;
    the first and the third chunk are delivered whole; the total is 150. *)
Example refused_chunk_is_left_out :
  gather_failures (PC := refuses_187) (fresh_hub nat)
    (event_batches batch_size (seq 0 250)) = [false; true; false]
  /\ snd (gather_batches (PC := refuses_187) (fresh_hub nat)
            (event_batches batch_size (seq 0 250))) = [100; 0; 50]%Z
  /\ snd (_send_events_parallel_batches (PC := refuses_187)
            (fresh_hub nat) (seq 0 250)) = 150%Z
  /\ List.concat
       (delivered (fst (_send_events_parallel_batches (PC := refuses_187)
                          (fresh_hub nat) (seq 0 250))))
     = (seq 0 100 ++ seq 100 80 ++ seq 200 50)%list.
Proof. repeat split; vm_compute; reflexivity. Qed.

(** 250 events: three chunks of 100, 100 and 50 events; all 250 are sent
    when no submission fails. *)
Example chunks_of_250 :
  map (@List.length nat) (event_batches batch_size (seq 0 250))
  = [100; 100; 50]%nat
  /\ snd (_send_events_parallel_batches (PC := reliable_hub)
            (fresh_hub nat) (seq 0 250)) = 250%Z.
Proof. split; vm_compute; reflexivity. Qed.

(** 250 events, the submission of the second chunk fails: the first and
    the third chunk are sent, the total is 150. *)
Example second_chunk_fails :
  gather_failures (PC := second_send_fails) (fresh_hub nat)
    (event_batches batch_size (seq 0 250)) = [false; true; false]
  /\ snd (gather_batches (PC := second_send_fails) (fresh_hub nat)
            (event_batches batch_size (seq 0 250))) = [100; 0; 50]%Z
  /\ snd (_send_events_parallel_batches (PC := second_send_fails)
            (fresh_hub nat) (seq 0 250)) = 150%Z.
Proof. repeat split; vm_compute; reflexivity. Qed.

(** 3 events: one chunk, one batch sent, 3 events. *)
Example three_events_one_batch :
  _send_events_parallel_batches (PC := reliable_hub) (fresh_hub nat)
    [7; 8; 9]%nat
  = ({| sends := 1; delivered := [[7; 8; 9]%nat] |}, 3%Z).
Proof. vm_compute. reflexivity. Qed.

(** A chunk of 5 events on batches that are full after 3: a second batch is
    opened, both are sent, the chunk counts 5. *)
Example full_batch_is_flushed :
  _send_single_batch (PC := small_batches) (fresh_hub nat)
    [1; 2; 3; 4; 5]%nat
  = ({| sends := 2; delivered := [[1; 2; 3]; [4; 5]]%nat |}, 5%Z).
Proof. vm_compute. reflexivity. Qed.

(* ================================================================= *)
(** ** The feed loop *)

(** [get_current_position] returns for every subscript Python accepts. *)
Lemma get_current_position_returns {F : Type} {AF : Arith F}
  (v : Vehicle F) :
  (- len (waypoints (route v)) <= current_waypoint_index v)%Z ->
  exists pos, get_current_position v = Returns pos.
Proof.
  intros Hlo.
  destruct (is_empty (waypoints (route v))) eqn:Hne.
  - unfold get_current_position. rewrite Hne. eauto.
  - destruct (Z.le_gt_cases (len (waypoints (route v)) - 1)
                            (current_waypoint_index v)) as [Hge|Hlt].
    + eexists. apply (get_current_position_parked v Hne Hge).
    + destruct (@py_index_in_range _ (waypoints (route v))
                  (current_waypoint_index v)) as [cw Hcw]; [lia|].
      destruct (@py_index_in_range _ (waypoints (route v))
                  (current_waypoint_index v + 1)) as [nw Hnw]; [lia|].
      eexists. apply (get_current_position_step v Hlt Hcw Hnw).
Qed.

(** [advance] keeps a vehicle within the data model. *)
Lemma advance_ok (v : VehicleR) (dt : R) :
  vehicle_ok v -> (0 <= dt)%R ->
  exists v', advance v dt = Returns v' /\ vehicle_ok v'.
Proof.
  intros (Hidx & Hp & Hs) Hdt.
  destruct (@Exact.advance_returns v dt Hidx Hp Hs Hdt) as (v' & Hadv & Hpath).
  exists v'. split; [exact Hadv|].
  destruct Hpath as [_ ->|cw nw Hlt _ _ _ ->
                    |cw nw i' p' Hlt _ _ _ _ Hp' Hi' Hu].
  - repeat split; assumption.
  - repeat split; cbn; try lra; try assumption. lia.
  - destruct (update_heading_fields _ Hu) as (Hr & Hi & Hpr & Hsp).
    unfold vehicle_ok. rewrite Hr, Hi, Hpr, Hsp. cbn.
    repeat split; try lra; try assumption.
    destruct Hi' as [[-> _]|Hi']; [|lia].
    pose proof (len_nonneg (waypoints (route v))). lia.
Qed.

Lemma advance_vehicles_returns (vs : list VehicleR) (dt : R) :
  Forall vehicle_ok vs -> (0 <= dt)%R ->
  exists vs', advance_vehicles vs dt = Returns vs'
              /\ Forall vehicle_ok vs' /\ len vs' = len vs.
Proof.
  intros Hok Hdt. induction Hok as [|v vs Hv _ IH].
  - exists []. repeat split. constructor.
  - destruct (advance_ok Hv Hdt) as (v' & Hadv & Hv').
    destruct IH as (vs' & Hvs & Hok' & Hlen).
    exists (v' :: vs'). cbn [advance_vehicles]. rewrite Hadv. cbn [bind].
    rewrite Hvs. cbn [bind]. repeat split.
    + constructor; assumption.
    + unfold len in *. cbn [List.length]. lia.
Qed.

Lemma create_all_events_returns (vs : list VehicleR)
  (agency time_iso : string) :
  Forall vehicle_ok vs ->
  exists es, _create_all_events_optimized vs agency time_iso = Returns es
             /\ len es = len vs.
Proof.
  intros Hok. induction Hok as [|v vs (Hidx & _) _ IH].
  - exists []. split; reflexivity.
  - destruct (get_current_position_returns v Hidx) as [pos Hpos].
    destruct IH as (es & Hes & Hlen).
    eexists (_ :: es). cbn [_create_all_events_optimized].
    unfold _create_event_data_optimized. rewrite Hpos. cbn [bind].
    rewrite Hes. cbn [bind]. split; [reflexivity|].
    unfold len in *. cbn [List.length]. lia.
Qed.

(** A tick over a fleet of [K] vehicles dispatches [K] events: its total is
    [K] less the sizes of the chunks whose submission raised. *)
Lemma send_vehicle_events_total {Sink Batch : Type}
  {PC : ProducerClient Sink Batch (@EventData R)}
  (s : Sink) (fleet : list VehicleR) (agency time_iso : string) :
  Forall vehicle_ok fleet ->
  exists events_to_send,
    _create_all_events_optimized fleet agency time_iso
    = Returns events_to_send
    /\ len events_to_send = len fleet
    /\ send_vehicle_events s fleet agency time_iso
       = Returns (_send_events_parallel_batches s events_to_send)
    /\ snd (_send_events_parallel_batches s events_to_send)
       = (len fleet
          - py_sum (map len (failed_batches s
                               (event_batches batch_size events_to_send))))%Z.
Proof.
  intros Hok.
  destruct (create_all_events_returns agency time_iso Hok)
    as (es & Hes & Hlen).
  exists es. unfold send_vehicle_events. rewrite Hes. cbn [bind].
  repeat split; try assumption.
  rewrite send_events_total, Hlen. reflexivity.
Qed.

Section FeedProperties.

Context {Sink Batch : Type} {PC : ProducerClient Sink Batch (@EventData R)}.

Variables (agency : string) (num_vehicles : Z) (poll_interval : R).
Hypothesis poll_interval_nonneg : (0 <= poll_interval)%R.

(** One iteration: the counter grows by [num_vehicles], whatever total the
    dispatch pipeline reached. *)
Lemma feed_iteration_returns (st : FeedState) (time_iso : string) :
  Forall vehicle_ok (vehicles st) ->
  exists st' t,
    feed_iteration agency num_vehicles poll_interval st time_iso
    = Returns st'
    /\ Forall vehicle_ok (vehicles st')
    /\ len (vehicles st') = len (vehicles st)
    /\ total_events_sent st' = (total_events_sent st + num_vehicles)%Z
    /\ batch_count st' = (batch_count st + 1)%Z
    /\ logged_totals st' = logged_totals st ++ [t]
    /\ (0 <= t <= len (vehicles st))%Z.
Proof.
  intros Hok.
  destruct (create_all_events_returns agency time_iso Hok)
    as (es & Hes & Hlen).
  destruct (advance_vehicles_returns Hok poll_interval_nonneg)
    as (vs' & Hvs & Hok' & Hlen').
  unfold feed_iteration, send_vehicle_events.
  rewrite Hes. cbn [bind]. rewrite Hvs. cbn [bind].
  eexists. exists (snd (_send_events_parallel_batches (producer_client st) es)).
  split; [reflexivity|].
  pose proof (dispatch_total_bounds (producer_client st) es) as Hb.
  rewrite Hlen in Hb. cbn.
  repeat split; try assumption; apply Hb.
Qed.

Lemma feed_loop_returns (ticks : list string) :
  forall st : FeedState,
    Forall vehicle_ok (vehicles st) ->
    exists st',
      feed_loop agency num_vehicles poll_interval st ticks = Returns st'
      /\ total_events_sent st'
         = (total_events_sent st + len ticks * num_vehicles)%Z
      /\ batch_count st' = (batch_count st + len ticks)%Z
      /\ exists ts,
           logged_totals st' = logged_totals st ++ ts
           /\ List.length ts = List.length ticks
           /\ Forall (fun t => 0 <= t <= len (vehicles st))%Z ts.
Proof.
  induction ticks as [|tick rest IH]; intros st Hok.
  - exists st. cbn [feed_loop]. unfold len. cbn.
    repeat split; try lia. exists []. rewrite app_nil_r.
    repeat split. constructor.
  - destruct (feed_iteration_returns st tick Hok)
      as (st1 & t & Hit & Hok1 & Hlen1 & Htot1 & Hcnt1 & Hlog1 & Ht).
    destruct (IH st1 Hok1) as (st' & Hloop & Htot & Hcnt & ts & Hlog & Hts & Hall).
    exists st'. cbn [feed_loop]. rewrite Hit. cbn [bind].
    split; [exact Hloop|].
    unfold len in *. cbn [List.length].
    split; [lia|]. split; [lia|].
    exists (t :: ts). split; [rewrite Hlog, Hlog1, <- app_assoc; reflexivity|].
    split; [cbn; lia|].
    constructor; [exact Ht|]. rewrite <- Hlen1. exact Hall.
Qed.

End FeedProperties.

Lemma py_sum_bounded (ts : list Z) (k : Z) :
  Forall (fun t => 0 <= t <= k)%Z ts ->
  (py_sum ts <= Z.of_nat (List.length ts) * k)%Z.
Proof.
  unfold py_sum. induction 1 as [|t ts Ht _ IH]; [cbn; lia|].
  cbn [fold_right List.length]. lia.
Qed.

(** The routes of the fleet: never an empty list. *)
Lemma candidate_routes_nonempty (route_tag : option string) :
  is_empty (candidate_routes route_tag) = false.
Proof.
  unfold candidate_routes.
  destruct (is_empty match route_tag with
                     | Some t =>
                         if negb (t =? "")%string
                            && negb (t =? "all-routes")%string
                         then filter (fun r => (tag r =? t)%string)
                                     create_demo_routes
                         else create_demo_routes
                     | None => create_demo_routes
                     end) eqn:E; [reflexivity|exact E].
Qed.

(** With draws in range the setup loop returns a fleet of the data model
    of the size asked for. *)
Lemma setup_vehicles_from_returns (routes : list (Route R))
  (random : nat -> Draws) (count : nat) :
  is_empty routes = false ->
  (forall (i : nat) (route : Route R),
      py_index routes (Z.of_nat i mod len routes) = Returns route ->
      (0 <= starting_waypoint (random i))%Z
      /\ (0 <= starting_progress (random i))%R
      /\ (0 <= speed (random i))%R) ->
  forall i : nat,
  exists fleet,
    setup_vehicles_from routes random i count = Returns fleet
    /\ Forall vehicle_ok fleet
    /\ List.length fleet = count.
Proof.
  intros Hne Hdraws. pose proof (is_empty_false_len routes Hne) as Hlen.
  induction count as [|count IH]; intros i.
  - exists []. repeat split. constructor.
  - destruct (@py_index_in_range _ routes (Z.of_nat i mod len routes))
      as [route Hroute].
    { pose proof (Z.mod_pos_bound (Z.of_nat i) (len routes)). lia. }
    destruct (Hdraws i route Hroute) as (Hw & Hp & Hs).
    destruct (IH (S i)) as (rest & Hrest & Hok & Hcount).
    cbn [setup_vehicles_from]. rewrite Hroute. cbn [bind].
    set (v := {| id := ("vehicle-" ++ format_03d (i + 1))%string; route := route;
                 current_waypoint_index := starting_waypoint (random i);
                 progress_to_next_waypoint := starting_progress (random i);
                 speed_km_hr := speed (random i); heading := 0%R |}).
    assert (Hv : exists v', update_heading v = Returns v' /\ vehicle_ok v').
    { assert (Hok0 : vehicle_ok v).
      { unfold vehicle_ok. subst v. cbn.
        pose proof (len_nonneg (waypoints route)). repeat split; try lra. lia. }
      destruct (Exact.update_heading_returns v (proj1 Hok0))
        as [[_ Hu]|(cw & nw & _ & _ & _ & Hu)];
        eexists; (split; [exact Hu|]); exact Hok0. }
    destruct Hv as (v' & Hu & Hv'). rewrite Hu. cbn [bind].
    rewrite Hrest. cbn [bind]. exists (v' :: rest).
    repeat split; [constructor; assumption|cbn; lia].
Qed.

(** C3, as amended.  With random draws in range and a pacing interval that
    is not negative, [run_feed] sets up the fleet and runs every tick; after
    it the counter [total_events_sent] is the number of ticks times
    [num_vehicles] and [batch_count] is the number of ticks, whatever the
    client did.  The totals of the dispatch pipeline, one per tick, are only
    logged; each lies between 0 and the size of the fleet, so that for
    [num_vehicles >= 0] their sum is at most the counter. *)
Theorem feed_counter_adds_num_vehicles
  {Sink Batch : Type} {PC : ProducerClient Sink Batch (@EventData R)}
  (s : Sink) (agency : string) (route_tag : option string)
  (num_vehicles : Z) (poll_interval : R) (random : nat -> Draws)
  (ticks : list string) :
  draws_in_range route_tag random -> (0 <= poll_interval)%R ->
  exists st,
    run_feed s agency route_tag num_vehicles poll_interval random ticks
    = Returns st
    /\ total_events_sent st = (len ticks * num_vehicles)%Z
    /\ batch_count st = len ticks
    /\ List.length (logged_totals st) = List.length ticks
    /\ Forall (fun t => 0 <= t <= Z.max 0 num_vehicles)%Z (logged_totals st)
    /\ ((0 <= num_vehicles)%Z ->
        (py_sum (logged_totals st) <= total_events_sent st)%Z).
Proof.
  intros Hdraws Hdt. unfold run_feed, setup_vehicles.
  destruct (@setup_vehicles_from_returns (candidate_routes route_tag) random
              (Z.to_nat num_vehicles) (candidate_routes_nonempty route_tag))
    with (i := 0%nat) as (fleet & Hsetup & Hok & Hsize).
  { intros i route Hroute. destruct (Hdraws i route Hroute) as (Hw & Hp & Hs).
    repeat split; try lra. lia. }
  rewrite Hsetup. cbn [bind].
  destruct (@feed_loop_returns Sink Batch PC agency num_vehicles
              poll_interval Hdt ticks
              {| producer_client := s; vehicles := fleet;
                 total_events_sent := 0; batch_count := 0;
                 logged_totals := [] |} Hok)
    as (st & Hloop & Htot & Hcnt & ts & Hlog & Hts & Hall).
  cbn [total_events_sent batch_count logged_totals vehicles app]
    in Htot, Hcnt, Hlog, Hall.
  subst ts. rewrite Z.add_0_l in Htot, Hcnt.
  assert (Hfleet : len fleet = Z.max 0 num_vehicles)
    by (unfold len; rewrite Hsize; lia).
  assert (Hall' : Forall (fun t => 0 <= t <= Z.max 0 num_vehicles)%Z
                         (logged_totals st)).
  { apply (Forall_impl _ (P := fun t => (0 <= t <= len fleet)%Z));
      [|exact Hall]. intros t Ht. cbn beta in *. lia. }
  exists st. repeat split; try assumption.
  intros Hn. rewrite Htot. pose proof (py_sum_bounded Hall') as Hb.
  rewrite Hts in Hb. unfold len. lia.
Qed.

Lemma same_draws_in_range (route_tag : option string) :
  draws_in_range route_tag same_draws.
Proof.
  intros i route _. cbn. repeat split; try lra; lia.
Defined.

(** [feed_counter_adds_num_vehicles] at two ticks of a fleet of three
    vehicles. *)
Lemma feed_counter_adds_num_vehicles_witness :
  exists st,
    run_feed (PC := unreachable_hub) (fresh_hub _) "demo" None 3
             (1 / 2)%R same_draws ["t0"; "t1"]%string = Returns st
    /\ total_events_sent st = (len ["t0"; "t1"]%string * 3)%Z
    /\ batch_count st = len ["t0"; "t1"]%string
    /\ List.length (logged_totals st) = List.length ["t0"; "t1"]%string
    /\ Forall (fun t => 0 <= t <= Z.max 0 3)%Z (logged_totals st)
    /\ ((0 <= 3)%Z ->
        (py_sum (logged_totals st) <= total_events_sent st)%Z).
Proof.
  apply (@feed_counter_adds_num_vehicles _ _ unreachable_hub).
  - exact (same_draws_in_range None).
  - lra.
Defined.

(** C3 as stated fails.  [run_feed] with three vehicles on a hub that
    rejects every batch, stopped after one tick: the tick total aggregated
    from the per-chunk counts is 0 (the only chunk failed), and the counter
    is 3. *)
Lemma feed_counter_ignores_failed_chunks :
  exists st,
    run_feed (PC := unreachable_hub) (fresh_hub _) "demo" None 3
             (1 / 2)%R same_draws ["t0"%string] = Returns st
    /\ logged_totals st = [0%Z]
    /\ total_events_sent st = 3%Z
    /\ total_events_sent st <> py_sum (logged_totals st).
Proof.
  unfold run_feed.
  destruct (@setup_vehicles_from_returns (candidate_routes None) same_draws 3
              (candidate_routes_nonempty None)) with (i := 0%nat)
    as (fleet & Hsetup & Hok & Hsize).
  { intros i route _. cbn. repeat split; try lra; lia. }
  unfold setup_vehicles. change (Z.to_nat 3) with 3%nat.
  rewrite Hsetup. cbn [bind feed_loop].
  destruct (@feed_iteration_returns _ _ unreachable_hub "demo" 3%Z
              (1 / 2)%R ltac:(lra)
              {| producer_client := fresh_hub _; vehicles := fleet;
                 total_events_sent := 0; batch_count := 0;
                 logged_totals := [] |} "t0"%string Hok)
    as (st & t & Hit & _ & _ & Htot & _ & Hlog & Ht).
  rewrite Hit. cbn [bind]. exists st. split; [reflexivity|].
  cbn in Htot, Hlog, Ht.
  assert (Ht0 : t = 0%Z).
  { unfold feed_iteration, send_vehicle_events in Hit.
    cbn [producer_client vehicles logged_totals] in Hit.
    destruct (_create_all_events_optimized fleet "demo" "t0") as [es| |];
      try discriminate.
    cbn [bind] in Hit.
    destruct (advance_vehicles fleet (1 / 2)%R) as [vs| |];
      try discriminate.
    cbn [bind] in Hit. injection Hit as <-.
    cbn [logged_totals app] in Hlog. injection Hlog as <-.
    apply (@send_events_unreachable _ _ _ unreachable_hub). reflexivity. }
  subst t. rewrite Hlog, Htot. repeat split. cbn. discriminate.
Qed.

(* ================================================================= *)
(** * Further properties of the motion model *)

Lemma py_index_below {A : Type} (l : list A) (i : Z) :
  (i < - len l)%Z -> py_index l i = IndexError.
Proof.
  intros Hi. unfold py_index. fold (len l).
  pose proof (len_nonneg l).
  destruct (Z.ltb_spec i 0) as [_|Hge]; [|lia].
  replace (len l + i <? 0)%Z with true by (symmetry; apply Z.ltb_lt; lia).
  reflexivity.
Qed.

Section Safety.

Context {F : Type} {AF : Arith F} {LF : Libm F}.

(** The loop of [advance], whatever the numbers are: with fuel for the
    waypoints ahead it returns, either reset to index 0 or at an index not
    before the one it started from and before the last one. *)
Lemma advance_loop_index (fuel : nat) (last : Z) :
  forall (idx : Z) (p : F),
    (idx < last)%Z -> (last - idx <= Z.of_nat fuel)%Z ->
    exists i' p',
      advance_loop fuel last idx p = Returns (i', p')
      /\ (i' = 0%Z \/ (idx <= i' < last)%Z).
Proof.
  induction fuel as [|fuel IH]; intros idx p Hidx Hfuel; [lia|].
  cbn [advance_loop].
  destruct (geb p (lit 1) && (idx <? last)%Z).
  - destruct (Z.geb_spec (idx + 1) last) as [Hend|Hmore].
    + exists 0%Z, (lit 0). split; [reflexivity|left; reflexivity].
    + destruct (IH (idx + 1)%Z (sub p (lit 1))) as (i' & p' & Hr & Hi');
        [lia|lia|].
      exists i', p'. split; [exact Hr|]. destruct Hi'; [left|right]; lia.
  - exists idx, p. split; [reflexivity|right; lia].
Qed.

(** [update_heading] returns for every subscript Python accepts. *)
Lemma update_heading_total (v : Vehicle F) :
  (- len (waypoints (route v)) <= current_waypoint_index v)%Z ->
  exists v', update_heading v = Returns v'.
Proof.
  intros Hlo. unfold update_heading.
  destruct (Z.geb_spec (current_waypoint_index v)
                       (len (waypoints (route v)) - 1)) as [Hge|Hlt];
    [eauto|].
  destruct (@py_index_in_range _ (waypoints (route v))
              (current_waypoint_index v)) as [cw ->]; [lia|].
  destruct (@py_index_in_range _ (waypoints (route v))
              (current_waypoint_index v + 1)) as [nw ->]; [lia|].
  cbn [bind]. eauto.
Qed.

Lemma update_heading_id (v v' : Vehicle F) :
  update_heading v = Returns v' -> id v' = id v.
Proof.
  unfold update_heading.
  destruct (_ >=? _)%Z.
  - intros H. injection H as <-. reflexivity.
  - destruct (py_index _ _); try discriminate.
    destruct (py_index _ _); try discriminate.
    cbn. intros H. injection H as <-. reflexivity.
Qed.

(** When the scalar operations return, as they do in this interface,
    [advance] returns for every subscript Python accepts and every time
    step; the vehicle keeps its id, route and speed, and its index is 0 or
    between the old index and the last one. *)
Lemma advance_total (v : Vehicle F) (dt : F) :
  (- len (waypoints (route v)) <= current_waypoint_index v)%Z ->
  exists v',
    advance v dt = Returns v'
    /\ same_vehicle v v'
    /\ (current_waypoint_index v' = current_waypoint_index v
        \/ (current_waypoint_index v < len (waypoints (route v)) - 1
            /\ (current_waypoint_index v' = 0
                \/ current_waypoint_index v <= current_waypoint_index v'
                   <= len (waypoints (route v)) - 1)))%Z.
Proof.
  intros Hlo.
  destruct (Z.le_gt_cases (len (waypoints (route v)) - 1)
                          (current_waypoint_index v)) as [Hge|Hlt].
  - exists v. split; [apply advance_parked; exact Hge|].
    split; [repeat split|left; reflexivity].
  - destruct (@py_index_in_range _ (waypoints (route v))
                (current_waypoint_index v)) as [cw Hcw]; [lia|].
    destruct (@py_index_in_range _ (waypoints (route v))
                (current_waypoint_index v + 1)) as [nw Hnw]; [lia|].
    unfold advance. rewrite (py_index_nonempty _ _ Hcw).
    destruct (Z.geb_spec (current_waypoint_index v)
                         (len (waypoints (route v)) - 1)) as [Hge|_]; [lia|].
    cbn [orb]. rewrite Hcw, Hnw. cbn [bind].
    destruct (eqb (get_distance_between_points cw nw) (lit 0)).
    + eexists. split; [reflexivity|]. split; [repeat split|].
      right. split; [exact Hlt|]. right. cbn. lia.
    + destruct (@advance_loop_index
                  (Z.to_nat (len (waypoints (route v)) - 1
                             - current_waypoint_index v))
                  (len (waypoints (route v)) - 1)
                  (current_waypoint_index v)
                  (add (progress_to_next_waypoint v)
                       (div (mul (div (speed_km_hr v) (lit 3600)) dt)
                            (get_distance_between_points cw nw))))
        as (i' & p' & Hloop & Hi'); [lia|lia|].
      rewrite Hloop. cbn [bind fst snd].
      destruct (update_heading_total (set_index_progress v i' p'))
        as [v' Hu]; [cbn; destruct Hi' as [->|Hi']; lia|].
      destruct (update_heading_fields _ Hu) as (Hr & Hi & _ & Hs).
      pose proof (update_heading_id _ Hu) as Hid.
      cbn in Hr, Hi, Hs, Hid.
      exists v'. split; [exact Hu|]. split; [repeat split; assumption|].
      right. split; [exact Hlt|]. rewrite Hi.
      destruct Hi' as [->|Hi']; [left; reflexivity|right; lia].
Qed.

(** X2.  On a route that has waypoints, [get_current_position],
    [update_heading] and [advance] raise [IndexError] exactly when the index
    is below [-len(waypoints)]: a negative index down to [-len(waypoints)]
    counts from the end of the list, as Python subscripts do. *)
Theorem index_error_exactly_below_minus_len (v : Vehicle F) (dt : F) :
  is_empty (waypoints (route v)) = false ->
  ((current_waypoint_index v < - len (waypoints (route v)))%Z
   <-> get_current_position v = IndexError)
  /\ ((current_waypoint_index v < - len (waypoints (route v)))%Z
      <-> update_heading v = IndexError)
  /\ ((current_waypoint_index v < - len (waypoints (route v)))%Z
      <-> advance v dt = IndexError).
Proof.
  intros Hne. pose proof (is_empty_false_len _ Hne) as Hlen.
  assert (Hraise : (current_waypoint_index v
                    < - len (waypoints (route v)))%Z ->
                   get_current_position v = IndexError
                   /\ update_heading v = IndexError
                   /\ advance v dt = IndexError).
  { intros Hlow.
    pose proof (py_index_below (waypoints (route v)) Hlow) as Hidx.
    unfold get_current_position, update_heading, advance. rewrite Hne.
    destruct (Z.geb_spec (current_waypoint_index v)
                         (len (waypoints (route v)) - 1)) as [Hge|_]; [lia|].
    cbn [orb]. rewrite Hidx. repeat split. }
  repeat split; try (intros Hlow; apply Hraise; exact Hlow); intros Herr;
    destruct (Z.lt_ge_cases (current_waypoint_index v)
                            (- len (waypoints (route v)))) as [Hlow|Hok];
    try exact Hlow; exfalso.
  - destruct (get_current_position_returns v Hok) as [pos Hpos].
    congruence.
  - destruct (update_heading_total v Hok) as [v' Hv']. congruence.
  - destruct (advance_total v dt Hok) as (v' & Hv' & _). congruence.
Qed.

(** X3.  [update_heading] is idempotent: calling it twice gives what
    calling it once gives (the same vehicle, or the same [IndexError]). *)
Theorem update_heading_idempotent (v : Vehicle F) :
  (v' <- update_heading v ;; update_heading v') = update_heading v.
Proof.
  unfold update_heading at 1 3.
  destruct (current_waypoint_index v >=? len (waypoints (route v)) - 1)%Z
    eqn:Hge.
  - cbn [bind]. unfold update_heading. rewrite Hge. reflexivity.
  - destruct (py_index (waypoints (route v)) (current_waypoint_index v))
      as [cw| |] eqn:Hcw; try reflexivity.
    destruct (py_index (waypoints (route v)) (current_waypoint_index v + 1))
      as [nw| |] eqn:Hnw; try reflexivity.
    cbn [bind]. unfold update_heading. cbn. rewrite Hge, Hcw, Hnw.
    reflexivity.
Qed.

End Safety.

(** X1.  In exact arithmetic, a vehicle whose index is within its route
    can always be advanced: [advance] returns, for every time step and every
    speed and progress, the index is within the route again, and the id, the
    route and the speed are as before. *)
Theorem advance_keeps_index_in_route (v : VehicleR) (dt : R) :
  index_in_route v ->
  exists v',
    advance v dt = Returns v' /\ index_in_route v' /\ same_vehicle v v'.
Proof.
  intros [Hlo Hhi].
  destruct (@advance_total R Arith_R Libm_R v dt) as (v' & Hadv & Hsame & Hidx).
  { pose proof (len_nonneg (waypoints (route v))). lia. }
  exists v'. split; [exact Hadv|]. split; [|exact Hsame].
  destruct Hsame as (_ & Hr & _). unfold index_in_route. rewrite Hr.
  destruct Hidx as [->|(Hlt & [->|Hbetween])]; lia.
Qed.

(** [advance_keeps_index_in_route] on the first segment of a route of two
    waypoints. *)
Lemma advance_keeps_index_in_route_witness :
  exists v',
    advance (vehicle_on_short_hop 0) 30%R = Returns v'
    /\ index_in_route v' /\ same_vehicle (vehicle_on_short_hop 0) v'.
Proof.
  apply (@advance_keeps_index_in_route (vehicle_on_short_hop 0) 30%R).
  unfold index_in_route. cbn. lia.
Defined.

(** [index_error_exactly_below_minus_len] at index -3 of a route of two
    waypoints. *)
Lemma index_error_exactly_below_minus_len_witness :
  let v := set_index_progress (vehicle_on_short_hop 0) (-3) 0%R in
  ((current_waypoint_index v < - len (waypoints (route v)))%Z
   <-> get_current_position v = IndexError)
  /\ ((current_waypoint_index v < - len (waypoints (route v)))%Z
      <-> update_heading v = IndexError)
  /\ ((current_waypoint_index v < - len (waypoints (route v)))%Z
      <-> advance v 30%R = IndexError).
Proof.
  intros v.
  apply (@index_error_exactly_below_minus_len _ _ _ v 30%R). reflexivity.
Defined.

(* ================================================================= *)
(** ** Further properties in exact arithmetic *)

Module Motion.

Import Exact.

Local Open Scope R_scope.

(** X4.  Between two waypoints, with a progress between 0 and 1, the
    position returned lies on the segment that joins them: each coordinate
    is between the coordinates of the two waypoints, and the point is on
    the line through them. *)
Theorem position_on_segment (v : VehicleR) (cw nw : point R) :
  (current_waypoint_index v < len (waypoints (route v)) - 1)%Z ->
  py_index (waypoints (route v)) (current_waypoint_index v) = Returns cw ->
  py_index (waypoints (route v)) (current_waypoint_index v + 1)
  = Returns nw ->
  0 <= progress_to_next_waypoint v <= 1 ->
  exists lat lon,
    get_current_position v = Returns (lat, lon)
    /\ Rmin (fst cw) (fst nw) <= lat <= Rmax (fst cw) (fst nw)
    /\ Rmin (snd cw) (snd nw) <= lon <= Rmax (snd cw) (snd nw)
    /\ (lat - fst cw) * (snd nw - snd cw)
       = (lon - snd cw) * (fst nw - fst cw).
Proof.
  intros Hlt Hcw Hnw Hp.
  rewrite (get_current_position_step v Hlt Hcw Hnw).
  destruct cw as [lat1 lon1], nw as [lat2 lon2]. cbn.
  do 2 eexists. split; [reflexivity|].
  unfold Rmin, Rmax.
  destruct (Rle_dec lat1 lat2), (Rle_dec lon1 lon2); repeat split; nra.
Qed.

(** What [advance] returns once the loop has returned. *)
Lemma advance_after_loop (v : VehicleR) (dt : R) (cw nw : point R)
  (i' : Z) (p' : R) :
  (- len (waypoints (route v)) <= current_waypoint_index v
   < len (waypoints (route v)) - 1)%Z ->
  py_index (waypoints (route v)) (current_waypoint_index v) = Returns cw ->
  py_index (waypoints (route v)) (current_waypoint_index v + 1)
  = Returns nw ->
  distance cw nw <> 0 ->
  advance_loop
    (Z.to_nat (len (waypoints (route v)) - 1 - current_waypoint_index v))
    (len (waypoints (route v)) - 1) (current_waypoint_index v)
    (progress_to_next_waypoint v + speed_km_hr v / 3600 * dt / distance cw nw)
  = Returns (i', p') ->
  exists v',
    advance v dt = Returns v'
    /\ update_heading (set_index_progress v i' p') = Returns v'
    /\ current_waypoint_index v' = i'
    /\ progress_to_next_waypoint v' = p'.
Proof.
  intros [Hlo Hlt] Hcw Hnw Hnz Hloop.
  rewrite (advance_unfold_step v dt Hlt Hcw Hnw).
  replace (Reqb (distance cw nw) 0) with false
    by (symmetry; apply Reqb_false; exact Hnz).
  rewrite Hloop. cbn [bind fst snd].
  destruct (@advance_loop_index R Arith_R
              (Z.to_nat (len (waypoints (route v)) - 1
                         - current_waypoint_index v))
              (len (waypoints (route v)) - 1) (current_waypoint_index v)
              (progress_to_next_waypoint v
               + speed_km_hr v / 3600 * dt / distance cw nw))
    as (i2 & p2 & Hloop2 & Hi2); [lia|lia|].
  rewrite Hloop in Hloop2. injection Hloop2 as <- <-.
  destruct (@update_heading_total R Arith_R Libm_R
              (set_index_progress v i' p')) as [v' Hu].
  { cbn. pose proof (len_nonneg (waypoints (route v))).
    destruct Hi2 as [->|Hi2]; lia. }
  exists v'. split; [exact Hu|]. split; [exact Hu|].
  destruct (update_heading_fields _ Hu) as (_ & Hi & Hp & _).
  split; assumption.
Qed.

(** X5.  A step on a segment that has a length adds the distance
    travelled, as a fraction of the segment, to the progress.  While the
    sum stays below 1 the index is kept.  When the sum is in [[1, 2)] the
    vehicle passes to the next index and 1 is taken off the progress (the
    rest is not rescaled to the length of the next segment); when the next
    index is the last one, the vehicle is reset to index 0 with progress
    0. *)
Theorem advance_step (v : VehicleR) (dt : R) (cw nw : point R) :
  (0 <= current_waypoint_index v < len (waypoints (route v)) - 1)%Z ->
  py_index (waypoints (route v)) (current_waypoint_index v) = Returns cw ->
  py_index (waypoints (route v)) (current_waypoint_index v + 1)
  = Returns nw ->
  distance cw nw <> 0 ->
  let q := progress_to_next_waypoint v
           + speed_km_hr v / 3600 * dt / distance cw nw in
  exists v',
    advance v dt = Returns v'
    /\ (q < 1 ->
        current_waypoint_index v' = current_waypoint_index v
        /\ progress_to_next_waypoint v' = q)
    /\ (1 <= q < 2 ->
        (current_waypoint_index v + 1 < len (waypoints (route v)) - 1)%Z ->
        current_waypoint_index v' = (current_waypoint_index v + 1)%Z
        /\ progress_to_next_waypoint v' = q - 1)
    /\ (1 <= q ->
        (current_waypoint_index v + 1 = len (waypoints (route v)) - 1)%Z ->
        current_waypoint_index v' = 0%Z
        /\ progress_to_next_waypoint v' = 0).
Proof.
  intros [Hlo Hlt] Hcw Hnw Hnz q.
  pose proof (len_nonneg (waypoints (route v))) as Hlen.
  destruct (@advance_loop_index R Arith_R
              (Z.to_nat (len (waypoints (route v)) - 1
                         - current_waypoint_index v))
              (len (waypoints (route v)) - 1) (current_waypoint_index v) q)
    as (i' & p' & Hloop & _); [lia|lia|].
  destruct (@advance_after_loop v dt cw nw i' p') as (v' & Hadv & _ & Hi & Hp);
    [lia|exact Hcw|exact Hnw|exact Hnz|exact Hloop|].
  exists v'. split; [exact Hadv|]. rewrite Hi, Hp.
  rewrite advance_loop_unfold in Hloop.
  replace (current_waypoint_index v <? len (waypoints (route v)) - 1)%Z
    with true in Hloop by (symmetry; apply Z.ltb_lt; lia).
  split; [|split].
  - intros Hq.
    replace (Rgeb q 1) with false in Hloop
      by (symmetry; apply Rgeb_false; exact Hq).
    cbn [andb] in Hloop. injection Hloop as <- <-. split; reflexivity.
  - intros Hq Hmore.
    replace (Rgeb q 1) with true in Hloop
      by (symmetry; apply Rgeb_true; lra).
    cbn [andb] in Hloop.
    destruct (Z.to_nat (len (waypoints (route v)) - 1
                        - current_waypoint_index v)) as [|fuel] eqn:Hfuel;
      [lia|].
    destruct (Z.geb_spec (current_waypoint_index v + 1)
                         (len (waypoints (route v)) - 1)) as [Hge|_]; [lia|].
    rewrite advance_loop_unfold in Hloop.
    replace (Rgeb (q - 1) 1) with false in Hloop
      by (symmetry; apply Rgeb_false; lra).
    cbn [andb] in Hloop. injection Hloop as <- <-. split; reflexivity.
  - intros Hq Hend.
    replace (Rgeb q 1) with true in Hloop
      by (symmetry; apply Rgeb_true; lra).
    cbn [andb] in Hloop.
    destruct (Z.to_nat (len (waypoints (route v)) - 1
                        - current_waypoint_index v)) as [|fuel] eqn:Hfuel;
      [lia|].
    destruct (Z.geb_spec (current_waypoint_index v + 1)
                         (len (waypoints (route v)) - 1)) as [_|Hlt']; [|lia].
    injection Hloop as <- <-. split; reflexivity.
Qed.

(** X6.  After [advance] on a segment that has a length, the heading is
    the bearing of the segment the vehicle is then on, a number in
    [[0, 360)]. *)
Theorem heading_follows_current_segment (v : VehicleR) (dt : R)
  (cw nw : point R) :
  (0 <= current_waypoint_index v < len (waypoints (route v)) - 1)%Z ->
  py_index (waypoints (route v)) (current_waypoint_index v) = Returns cw ->
  py_index (waypoints (route v)) (current_waypoint_index v + 1)
  = Returns nw ->
  distance cw nw <> 0 ->
  exists v',
    advance v dt = Returns v'
    /\ current_segment_bearing v' = Returns (heading v')
    /\ 0 <= heading v' < 360.
Proof.
  intros [Hlo Hlt] Hcw Hnw Hnz.
  pose proof (len_nonneg (waypoints (route v))) as Hlen.
  destruct (@advance_loop_index R Arith_R
              (Z.to_nat (len (waypoints (route v)) - 1
                         - current_waypoint_index v))
              (len (waypoints (route v)) - 1) (current_waypoint_index v)
              (progress_to_next_waypoint v
               + speed_km_hr v / 3600 * dt / distance cw nw))
    as (i' & p' & Hloop & Hi'); [lia|lia|].
  destruct (@advance_after_loop v dt cw nw i' p') as (v' & Hadv & Hu & _);
    [lia|exact Hcw|exact Hnw|exact Hnz|exact Hloop|].
  exists v'. split; [exact Hadv|].
  assert (Hi : (0 <= i' < len (waypoints (route v)) - 1)%Z)
    by (destruct Hi' as [->|Hi']; lia).
  destruct (@py_index_in_range _ (waypoints (route v)) i')
    as [cw' Hcw']; [lia|].
  destruct (@py_index_in_range _ (waypoints (route v)) (i' + 1))
    as [nw' Hnw']; [lia|].
  rewrite (@update_heading_step (set_index_progress v i' p') cw' nw')
    in Hu; [|cbn; lia|exact Hcw'|exact Hnw'].
  injection Hu as <-. split; [|apply bearing_range].
  unfold current_segment_bearing. cbn. rewrite Hcw', Hnw'. reflexivity.
Qed.

(** X7.  On a route whose last segment has a length, a vehicle that is
    advanced again and again by the time that covers the full route is back
    at index 0 with progress 0 after at least one call and at most as many
    calls as there are waypoints ahead of it. *)
Theorem route_loops_back (v : VehicleR) :
  last_segment_nonzero (waypoints (route v)) ->
  (0 <= current_waypoint_index v < len (waypoints (route v)) - 1)%Z ->
  0 <= progress_to_next_waypoint v ->
  0 < speed_km_hr v ->
  exists (n : nat) (v' : VehicleR),
    (1 <= n
     <= Z.to_nat (len (waypoints (route v)) - 1 - current_waypoint_index v))%nat
    /\ advance_many v (repeat (full_route_time v) n) = Returns v'
    /\ current_waypoint_index v' = 0%Z
    /\ progress_to_next_waypoint v' = 0.
Proof.
  intros Hlast Hidx Hp Hs.
  apply loop_closure; try assumption. lia.
Qed.

End Motion.

(** [Motion.position_on_segment] half way along a route of two
    waypoints. *)
Lemma position_on_segment_witness :
  exists lat lon,
    get_current_position (vehicle_on_short_hop (1 / 2)) = Returns (lat, lon)
    /\ (Rmin (fst (0, 0)) (fst (0, 1)) <= lat
        <= Rmax (fst (0, 0)) (fst (0, 1)))%R
    /\ (Rmin (snd (0, 0)) (snd (0, 1)) <= lon
        <= Rmax (snd (0, 0)) (snd (0, 1)))%R
    /\ ((lat - fst (0, 0)) * (snd (0, 1) - snd (0, 0))
        = (lon - snd (0, 0)) * (fst (0, 1) - fst (0, 0)))%R.
Proof.
  apply (@Motion.position_on_segment (vehicle_on_short_hop (1 / 2))
           (0, 0)%R (0, 1)%R).
  - cbn. lia.
  - reflexivity.
  - reflexivity.
  - cbn. lra.
Defined.

Lemma short_hop_segment_has_length : distance (0, 0)%R (0, 1)%R <> 0%R.
Proof. pose proof Exact.distance_equator_degree_pos. lra. Defined.

(** [Motion.advance_step] on a route of two waypoints, for 30 seconds. *)
Lemma advance_step_witness :
  let v := vehicle_on_short_hop (1 / 2) in
  let q := (progress_to_next_waypoint v
            + speed_km_hr v / 3600 * 30 / distance (0, 0) (0, 1))%R in
  exists v',
    advance v 30%R = Returns v'
    /\ ((q < 1)%R ->
        current_waypoint_index v' = current_waypoint_index v
        /\ progress_to_next_waypoint v' = q)
    /\ ((1 <= q < 2)%R ->
        (current_waypoint_index v + 1 < len (waypoints (route v)) - 1)%Z ->
        current_waypoint_index v' = (current_waypoint_index v + 1)%Z
        /\ progress_to_next_waypoint v' = (q - 1)%R)
    /\ ((1 <= q)%R ->
        (current_waypoint_index v + 1 = len (waypoints (route v)) - 1)%Z ->
        current_waypoint_index v' = 0%Z
        /\ progress_to_next_waypoint v' = 0%R).
Proof.
  intros v q.
  apply (@Motion.advance_step v 30%R (0, 0)%R (0, 1)%R).
  - cbn. lia.
  - reflexivity.
  - reflexivity.
  - exact short_hop_segment_has_length.
Defined.

(** [Motion.heading_follows_current_segment] on a route of two
    waypoints. *)
Lemma heading_follows_current_segment_witness :
  exists v',
    advance (vehicle_on_short_hop 0) 30%R = Returns v'
    /\ current_segment_bearing v' = Returns (heading v')
    /\ (0 <= heading v' < 360)%R.
Proof.
  apply (@Motion.heading_follows_current_segment (vehicle_on_short_hop 0)
           30%R (0, 0)%R (0, 1)%R).
  - cbn. lia.
  - reflexivity.
  - reflexivity.
  - exact short_hop_segment_has_length.
Defined.

(** [Motion.route_loops_back] on a route of two waypoints. *)
Lemma route_loops_back_witness :
  exists (n : nat) (v' : VehicleR),
    (1 <= n
     <= Z.to_nat (len (waypoints (route (vehicle_on_short_hop 0))) - 1
                  - current_waypoint_index (vehicle_on_short_hop 0)))%nat
    /\ advance_many (vehicle_on_short_hop 0)
         (repeat (full_route_time (vehicle_on_short_hop 0)) n) = Returns v'
    /\ current_waypoint_index v' = 0%Z
    /\ progress_to_next_waypoint v' = 0%R.
Proof.
  apply (@Motion.route_loops_back (vehicle_on_short_hop 0)).
  - exact Exact.short_hop_last_segment.
  - cbn. lia.
  - cbn. lra.
  - cbn. lra.
Defined.

(* ================================================================= *)
(** ** Further properties of the distance and of the bearing *)

Module Haversine.

Import Exact.

Local Open Scope R_scope.

Lemma asin_abs_sin (h : R) :
  - (PI / 2) <= h <= PI / 2 -> asin (Rabs (sin h)) = Rabs h.
Proof.
  intros Hh. pose proof PI_RGT_0 as Hpi.
  destruct (Rle_dec 0 h) as [Hpos|Hneg].
  - rewrite (Rabs_right h) by lra.
    rewrite Rabs_right by (apply Rle_ge, sin_ge_0; lra).
    apply asin_sin. lra.
  - assert (Hs : 0 <= sin (- h)) by (apply sin_ge_0; lra).
    rewrite sin_neg in Hs.
    rewrite (Rabs_left h) by lra.
    rewrite Rabs_left1 by lra.
    rewrite <- sin_neg. apply asin_sin. lra.
Qed.

Lemma Rabs_half_angle (d : R) :
  Rabs (d * PI / 180 / 2) = Rabs d * PI / 360.
Proof.
  pose proof PI_RGT_0 as Hpi.
  replace (d * PI / 180 / 2) with (d * (PI / 360)) by field.
  rewrite Rabs_mult, (Rabs_right (PI / 360)) by lra. field.
Qed.

(** X8.  The distance is between 0 and half the circumference of the
    sphere of radius 6371 km. *)
Theorem distance_within_half_circumference (p q : point R) :
  0 <= get_distance_between_points p q <= 6371 * PI.
Proof.
  split; [apply distance_nonneg|].
  change (get_distance_between_points p q) with (distance p q).
  destruct p as [lat1 lon1], q as [lat2 lon2]. rewrite distance_unfold.
  pose proof (asin_bound
    (sqrt
       ((sin ((lat2 * PI / 180 - lat1 * PI / 180) / 2)
         * sin ((lat2 * PI / 180 - lat1 * PI / 180) / 2))
        + cos (lat1 * PI / 180) * cos (lat2 * PI / 180)
          * (sin ((lon2 * PI / 180 - lon1 * PI / 180) / 2)
             * sin ((lon2 * PI / 180 - lon1 * PI / 180) / 2))))).
  lra.
Qed.

(** X9.  Along a meridian, and along the equator, the distance is the
    length of the arc: the difference of the angles in radians times the
    radius, for a difference of at most 180 degrees. *)
Theorem distance_is_arc_length (a b l : R) :
  Rabs (b - a) <= 180 ->
  get_distance_between_points (a, l) (b, l)
  = 6371 * (Rabs (b - a) * PI / 180)
  /\ get_distance_between_points (0, a) (0, b)
     = 6371 * (Rabs (b - a) * PI / 180).
Proof.
  intros Hd. pose proof PI_RGT_0 as Hpi.
  change (@get_distance_between_points R Arith_R Libm_R) with distance.
  assert (Hh : - (PI / 2) <= (b - a) * PI / 180 / 2 <= PI / 2).
  { unfold Rabs in Hd. destruct (Rcase_abs (b - a)); split; nra. }
  rewrite !distance_unfold.
  replace ((l * PI / 180 - l * PI / 180) / 2) with 0 by lra.
  replace ((0 * PI / 180 - 0 * PI / 180) / 2) with 0 by lra.
  replace (0 * PI / 180) with 0 by lra.
  replace ((b * PI / 180 - a * PI / 180) / 2) with ((b - a) * PI / 180 / 2)
    by field.
  rewrite sin_0, cos_0.
  set (s := sin ((b - a) * PI / 180 / 2)).
  replace (s * s + cos (a * PI / 180) * cos (b * PI / 180) * (0 * 0))
    with (Rsqr s) by (unfold Rsqr; ring).
  replace (0 * 0 + 1 * 1 * (s * s)) with (Rsqr s) by (unfold Rsqr; ring).
  rewrite sqrt_Rsqr_abs. subst s.
  rewrite (asin_abs_sin Hh), Rabs_half_angle.
  split; field.
Qed.

(** X10.  The distance and the bearing depend on the two longitudes only
    through their difference, and do not change when one longitude is
    shifted by a full turn of 360 degrees. *)
Theorem longitude_enters_as_difference (p q : point R) (s : R) :
  get_distance_between_points (fst p, snd p + s) (fst q, snd q + s)
  = get_distance_between_points p q
  /\ bearing_degrees (fst p, snd p + s) (fst q, snd q + s)
     = bearing_degrees p q
  /\ get_distance_between_points p (fst q, snd q + 360)
     = get_distance_between_points p q
  /\ bearing_degrees p (fst q, snd q + 360) = bearing_degrees p q.
Proof.
  destruct p as [lat1 lon1], q as [lat2 lon2]. cbn [fst snd].
  change (@get_distance_between_points R Arith_R Libm_R) with distance.
  repeat split.
  - rewrite !distance_unfold.
    replace (((lon2 + s) * PI / 180 - (lon1 + s) * PI / 180) / 2)
      with ((lon2 * PI / 180 - lon1 * PI / 180) / 2) by field.
    reflexivity.
  - unfold bearing_degrees. cbn.
    replace (lon2 + s - (lon1 + s)) with (lon2 - lon1) by ring.
    reflexivity.
  - rewrite !distance_unfold.
    replace (((lon2 + 360) * PI / 180 - lon1 * PI / 180) / 2)
      with ((lon2 * PI / 180 - lon1 * PI / 180) / 2 + PI) by field.
    rewrite neg_sin.
    replace (- sin ((lon2 * PI / 180 - lon1 * PI / 180) / 2)
             * - sin ((lon2 * PI / 180 - lon1 * PI / 180) / 2))
      with (sin ((lon2 * PI / 180 - lon1 * PI / 180) / 2)
            * sin ((lon2 * PI / 180 - lon1 * PI / 180) / 2)) by ring.
    reflexivity.
  - unfold bearing_degrees. cbn.
    replace ((lon2 + 360 - lon1) * PI / 180)
      with ((lon2 - lon1) * PI / 180 + 2 * PI) by field.
    rewrite sin_plus, cos_plus, sin_2PI, cos_2PI.
    replace (sin ((lon2 - lon1) * PI / 180) * 1
             + cos ((lon2 - lon1) * PI / 180) * 0)
      with (sin ((lon2 - lon1) * PI / 180)) by ring.
    replace (cos ((lon2 - lon1) * PI / 180) * 1
             - sin ((lon2 - lon1) * PI / 180) * 0)
      with (cos ((lon2 - lon1) * PI / 180)) by ring.
    reflexivity.
Qed.

Lemma bearing_meridian (a b l : R) :
  bearing (a, l) (b, l)
  = Rfmod (Ratan2 0 (sin ((b - a) * PI / 180)) * 180 / PI + 360) 360.
Proof.
  unfold bearing, bearing_degrees. cbn.
  replace ((l - l) * PI / 180) with 0 by lra.
  rewrite sin_0, cos_0.
  replace (0 * cos (b * PI / 180)) with 0 by ring.
  replace (cos (a * PI / 180) * sin (b * PI / 180)
           - sin (a * PI / 180) * cos (b * PI / 180) * 1)
    with (sin ((b - a) * PI / 180)).
  - reflexivity.
  - replace ((b - a) * PI / 180) with (b * PI / 180 - a * PI / 180) by field.
    rewrite sin_minus. ring.
Qed.

Lemma Ratan2_east (x : R) : 0 < x -> Ratan2 0 x = 0.
Proof.
  intros Hx. unfold Ratan2.
  destruct (Rlt_dec 0 x); [|lra].
  unfold Rdiv. rewrite Rmult_0_l. apply atan_0.
Qed.

Lemma Ratan2_west (x : R) : x < 0 -> Ratan2 0 x = PI.
Proof.
  intros Hx. unfold Ratan2.
  destruct (Rlt_dec 0 x); [lra|].
  destruct (Rlt_dec x 0); [|lra].
  destruct (Rle_dec 0 0); [|lra].
  unfold Rdiv. rewrite Rmult_0_l, atan_0. ring.
Qed.

Lemma Ratan2_south (y : R) : y < 0 -> Ratan2 y 0 = - (PI / 2).
Proof.
  intros Hy. unfold Ratan2.
  destruct (Rlt_dec 0 0); [lra|].
  destruct (Rlt_dec 0 y); [lra|].
  destruct (Rlt_dec y 0); [reflexivity|lra].
Qed.

Lemma sin_degrees_pos (d : R) : 0 < d < 180 -> 0 < sin (d * PI / 180).
Proof.
  intros Hd. pose proof PI_RGT_0 as Hpi. apply sin_gt_0; nra.
Qed.

Lemma sin_degrees_neg (d : R) : 0 < d < 180 -> sin (- d * PI / 180) < 0.
Proof.
  intros Hd. pose proof (sin_degrees_pos Hd) as Hs.
  replace (- d * PI / 180) with (- (d * PI / 180)) by field.
  rewrite sin_neg. lra.
Qed.

(** X11.  The four cardinal directions: a segment along a meridian has
    bearing 0 towards the north and 180 towards the south, and a segment
    along the equator has bearing 90 towards the east and 270 towards the
    west, for a segment of less than 180 degrees. *)
Theorem cardinal_bearings (a l d : R) :
  0 < d < 180 ->
  bearing_degrees (a, l) (a + d, l) = 0
  /\ bearing_degrees (a + d, l) (a, l) = 180
  /\ bearing_degrees (0, l) (0, l + d) = 90
  /\ bearing_degrees (0, l + d) (0, l) = 270.
Proof.
  intros Hd. pose proof PI_RGT_0 as Hpi.
  pose proof (sin_degrees_pos Hd) as Hpos.
  pose proof (sin_degrees_neg Hd) as Hneg.
  change (@bearing_degrees R Arith_R Libm_R) with bearing.
  repeat split.
  - rewrite bearing_meridian.
    replace (a + d - a) with d by ring.
    rewrite (Ratan2_east Hpos).
    replace (0 * 180 / PI + 360) with 360 by (unfold Rdiv; ring).
    rewrite (@Rfmod_eq 360 360 1); lra.
  - rewrite bearing_meridian.
    replace (a - (a + d)) with (- d) by ring.
    rewrite (Ratan2_west Hneg).
    replace (PI * 180 / PI + 360) with 540 by (field; lra).
    rewrite (@Rfmod_eq 540 360 1); lra.
  - rewrite bearing_equator.
    replace (l + d - l) with d by ring.
    rewrite (Ratan2_north Hpos).
    replace (PI / 2 * 180 / PI + 360) with 450 by (field; lra).
    rewrite (@Rfmod_eq 450 360 1); lra.
  - rewrite bearing_equator.
    replace (l - (l + d)) with (- d) by ring.
    rewrite (Ratan2_south Hneg).
    replace (- (PI / 2) * 180 / PI + 360) with 270 by (field; lra).
    rewrite (@Rfmod_eq 270 360 0); lra.
Qed.

End Haversine.

(** [Haversine.distance_is_arc_length] from 10 to 55 degrees. *)
Lemma distance_is_arc_length_witness :
  (Rabs (55 - 10) <= 180)%R
  /\ get_distance_between_points (10, 7)%R (55, 7)%R
     = (6371 * (Rabs (55 - 10) * PI / 180))%R
  /\ get_distance_between_points (0, 10)%R (0, 55)%R
     = (6371 * (Rabs (55 - 10) * PI / 180))%R.
Proof.
  assert (H : (Rabs (55 - 10) <= 180)%R)
    by (rewrite Rabs_right; lra).
  split; [exact H|].
  exact (@Haversine.distance_is_arc_length 10%R 55%R 7%R H).
Defined.

(** [Haversine.cardinal_bearings] for a segment of 1 degree. *)
Lemma cardinal_bearings_witness :
  bearing_degrees (40, -74)%R (40 + 1, -74)%R = 0%R
  /\ bearing_degrees (40 + 1, -74)%R (40, -74)%R = 180%R
  /\ bearing_degrees (0, -74)%R (0, -74 + 1)%R = 90%R
  /\ bearing_degrees (0, -74 + 1)%R (0, -74)%R = 270%R.
Proof.
  apply (@Haversine.cardinal_bearings 40%R (-74)%R 1%R). lra.
Defined.

(* ================================================================= *)
(** * Further properties of the dispatch pipeline *)

Section HubDelivery.

Variables (Event : Type) (cap : nat) (fails : nat -> bool).



(** What the client has received after the [for] loop of
    [_send_single_batch], started on a batch [b] of [len b] events. *)
Lemma fill_batches_hub (events : list Event) :
  forall (s : Hub Event) (b : list Event),
    (List.length b <= cap)%nat ->
    exists D : list (list Event),
      delivered (fst (fill_batches (PC := hub_client Event cap fails) s b (len b) events))
      = delivered s ++ D
      /\ Forall (batch_ok cap) D
      /\ match snd (fill_batches (PC := hub_client Event cap fails) s b (len b) events) with
         | Some (b', n') =>
             n' = len b' /\ (List.length b' <= cap)%nat
             /\ List.concat D ++ b' = b ++ events
         | None =>
             (exists k, fails k = true) \/ cap = 0%nat
         end
      /\ (List.length (List.concat D) <= List.length (b ++ events))%nat.
Proof.
  induction events as [|e rest IH]; intros s b Hb.
  - exists []. cbn. rewrite !app_nil_r. repeat split; auto; lia.
  - cbn [fill_batches batch_add hub_client].
    destruct (Nat.ltb_spec (List.length b) cap) as [Hlt|Hge].
    + replace (len b + 1)%Z with (len (b ++ [e]))
        by (unfold len; rewrite length_app; cbn; lia).
      destruct (IH s (b ++ [e])) as (D & HD & Hok & Hr & Hlen).
      { rewrite length_app. cbn. lia. }
      exists D. rewrite <- !app_assoc in *. cbn [app] in *.
      repeat split; assumption.
    + assert (Hfull : List.length b = cap) by lia.
      destruct (Z.gtb_spec (len b) 0) as [Hpos|Hzero].
      * cbn [send_batch hub_client].
        destruct (fails (sends s)) eqn:Hf.
        -- exists []. cbn. rewrite app_nil_r.
           repeat split; eauto. lia.
        -- cbn [create_batch hub_client batch_add].
           assert (Hcap : (1 <= cap)%nat) by (unfold len in Hpos; lia).
           replace (List.length (@nil Event) <? cap)%nat with true
             by (symmetry; apply Nat.ltb_lt; cbn; lia).
           cbn [app].
           destruct (IH {| sends := S (sends s);
                           delivered := delivered s ++ [b] |} [e])
             as (D & HD & Hok & Hr & Hlen); [cbn; lia|].
           change 1%Z with (len [e]).
           exists (b :: D). cbn [delivered] in HD.
           rewrite HD, <- app_assoc. cbn [app List.concat].
           split; [reflexivity|].
           split; [constructor; [unfold batch_ok; unfold len in Hpos; lia|exact Hok]|].
           split.
           ++ destruct (snd _) as [[b' n']|]; [|exact Hr].
              destruct Hr as (Hn & Hb' & Hc). repeat split; auto.
              rewrite <- app_assoc, Hc. reflexivity.
           ++ rewrite !length_app in *. cbn in *. lia.
      * assert (Hcap : cap = 0%nat) by (unfold len in Hzero; lia).
        cbn [create_batch hub_client batch_add].
        replace (List.length (@nil Event) <? cap)%nat with false
          by (symmetry; apply Nat.ltb_ge; cbn; lia).
        exists []. cbn. rewrite app_nil_r. repeat split; auto. lia.
Qed.

Lemma try_send_single_batch_hub (s : Hub Event) (chunk : list Event) :
  exists D : list (list Event),
    delivered (fst (try_send_single_batch (PC := hub_client Event cap fails)
                      s chunk))
    = delivered s ++ D
    /\ Forall (batch_ok cap) D
    /\ match snd (try_send_single_batch (PC := hub_client Event cap fails)
                    s chunk) with
       | Some _ => List.concat D = chunk
       | None => (exists k, fails k = true) \/ cap = 0%nat
       end
    /\ (List.length (List.concat D) <= List.length chunk)%nat.
Proof.
  unfold try_send_single_batch. cbn [create_batch hub_client].
  destruct (@fill_batches_hub chunk s []) as (D & HD & Hok & Hr & Hlen);
    [cbn; lia|].
  change (len (@nil Event)) with 0%Z in *. cbn [app] in *.
  destruct (fill_batches (PC := hub_client Event cap fails) s [] 0 chunk)
    as [s2 [[b' n']|]]; cbn [fst snd] in *.
  - destruct Hr as (-> & Hb' & Hc).
    destruct (Z.gtb_spec (len b') 0) as [Hpos|Hzero].
    + cbn [send_batch hub_client]. destruct (fails (sends s2)) eqn:Hf.
      * exists D. cbn [fst snd delivered]. repeat split; eauto.
      * exists (D ++ [b']). cbn [fst snd delivered].
        rewrite HD, <- app_assoc, concat_app. cbn [List.concat].
        rewrite app_nil_r, Hc.
        repeat split; auto.
        apply Forall_app. split; [exact Hok|].
        constructor; [|constructor]. unfold batch_ok, len in *. lia.
    + assert (b' = []) as ->
        by (destruct b'; [reflexivity|unfold len in Hzero; cbn in Hzero; lia]).
      rewrite app_nil_r in Hc. exists D. cbn [fst snd].
      repeat split; auto.
  - exists D. repeat split; auto.
Qed.

Lemma gather_batches_hub (batches : list (list Event)) :
  forall s : Hub Event,
  exists D : list (list Event),
    delivered (fst (gather_batches (PC := hub_client Event cap fails)
                      s batches))
    = delivered s ++ D
    /\ Forall (batch_ok cap) D
    /\ (py_sum (snd (gather_batches (PC := hub_client Event cap fails)
                       s batches))
        <= len (List.concat D) <= len (List.concat batches))%Z
    /\ ((forall k, fails k = false) -> (1 <= cap)%nat ->
        List.concat D = List.concat batches
        /\ py_sum (snd (gather_batches (PC := hub_client Event cap fails)
                          s batches))
           = len (List.concat batches)).
Proof.
  induction batches as [|c rest IH]; intros s.
  - exists []. cbn. rewrite app_nil_r. repeat split; auto; lia.
  - cbn [gather_batches]. rewrite _send_single_batch_result.
    destruct (try_send_single_batch_hub s c) as (D1 & HD1 & Hok1 & Hr1 & Hl1).
    destruct (try_send_single_batch (PC := hub_client Event cap fails) s c)
      as [s1 r]. cbn [fst snd] in *.
    destruct (IH s1) as (D2 & HD2 & Hok2 & Hb2 & Hrel2).
    destruct (gather_batches (PC := hub_client Event cap fails) s1 rest)
      as [s2 ns]. cbn [fst snd] in *.
    exists (D1 ++ D2). rewrite HD2, HD1, <- app_assoc.
    split; [reflexivity|].
    split; [apply Forall_app; split; assumption|].
    cbn [List.concat]. rewrite concat_app.
    unfold len in *. rewrite !length_app.
    unfold py_sum in *. cbn [fold_right].
    split.
    + destruct r as [n|].
      * rewrite Hr1. lia.
      * lia.
    + intros Hnf Hcap. destruct (Hrel2 Hnf Hcap) as [Hc2 Hs2].
      destruct r as [n|].
      * rewrite Hr1, Hc2, Hs2. split; [reflexivity|lia].
      * destruct Hr1 as [[k Hk]|Hz]; [rewrite Hnf in Hk; discriminate|lia].
Qed.

Lemma send_events_hub (s : Hub Event) (events : list Event) :
  exists D : list (list Event),
    delivered (fst (_send_events_parallel_batches
                      (PC := hub_client Event cap fails) s events))
    = delivered s ++ D
    /\ Forall (batch_ok cap) D
    /\ (snd (_send_events_parallel_batches
               (PC := hub_client Event cap fails) s events)
        <= len (List.concat D) <= len events)%Z
    /\ ((forall k, fails k = false) -> (1 <= cap)%nat ->
        List.concat D = events
        /\ snd (_send_events_parallel_batches
                  (PC := hub_client Event cap fails) s events)
           = len events).
Proof.
  unfold _send_events_parallel_batches.
  destruct events as [|e rest].
  - exists []. cbn. rewrite app_nil_r. repeat split; auto; lia.
  - cbn [is_empty].
    destruct (gather_batches_hub (event_batches batch_size (e :: rest)) s)
      as (D & HD & Hok & Hb & Hrel).
    rewrite event_batches_concat in Hb, Hrel by (unfold batch_size; lia).
    destruct (gather_batches (PC := hub_client Event cap fails) s
                (event_batches batch_size (e :: rest))) as [s' rs].
    cbn [fst snd] in *. exists D.
    split; [exact HD|]. split; [exact Hok|]. split; [exact Hb|exact Hrel].
Qed.

(** X12.  On a client whose batches hold [cap >= 1] events and whose sends
    never raise, every event of the tick is delivered exactly once.  A chunk
    submitted on its own is delivered whole and in order, in batches that
    are not empty and hold at most [cap] events, and counts its size.  Over
    the tick, the events received are the events of the tick up to their
    order (the order across chunks is that of the schedule), and the total
    returned is the number of events. *)
Theorem reliable_client_delivers_each_event_once
  (s : Hub Event) (events : list Event) :
  (1 <= cap)%nat ->
  (forall k, fails k = false) ->
  (forall (h : Hub Event) (c : list Event),
     exists D : list (list Event),
       delivered (fst (_send_single_batch
                         (PC := hub_client Event cap fails) h c))
       = delivered h ++ D
       /\ List.concat D = c
       /\ Forall (batch_ok cap) D
       /\ snd (_send_single_batch (PC := hub_client Event cap fails) h c)
          = len c)
  /\ exists D : list (list Event),
       delivered (fst (_send_events_parallel_batches
                         (PC := hub_client Event cap fails) s events))
       = delivered s ++ D
       /\ Permutation (List.concat D) events
       /\ Forall (batch_ok cap) D
       /\ snd (_send_events_parallel_batches
                 (PC := hub_client Event cap fails) s events)
          = len events.
Proof.
  intros Hcap Hnf. split.
  - intros h c.
    destruct (try_send_single_batch_hub h c) as (D & HD & Hok & Hr & _).
    exists D. rewrite _send_single_batch_result.
    destruct (snd (try_send_single_batch
                     (PC := hub_client Event cap fails) h c)) as [n|].
    + repeat split; assumption.
    + destruct Hr as [[k Hk]|Hz]; [rewrite Hnf in Hk; discriminate|lia].
  - destruct (send_events_hub s events) as (D & HD & Hok & _ & Hrel).
    destruct (Hrel Hnf Hcap) as [Hc Ht].
    exists D. rewrite Hc. repeat split; try assumption.
    apply Permutation_refl.
Qed.

(** X13.  Whatever sends raise, the total returned never exceeds the
    number of events the client received, which never exceeds the number of
    events of the tick: the total can miss events that were delivered, it
    never counts one that was not. *)
Theorem total_never_exceeds_delivered (s : Hub Event) (events : list Event) :
  exists D : list (list Event),
    delivered (fst (_send_events_parallel_batches
                      (PC := hub_client Event cap fails) s events))
    = delivered s ++ D
    /\ Forall (batch_ok cap) D
    /\ (snd (_send_events_parallel_batches
               (PC := hub_client Event cap fails) s events)
        <= len (List.concat D) <= len events)%Z.
Proof.
  destruct (send_events_hub s events) as (D & HD & Hok & Hb & _).
  exists D. repeat split; auto; apply Hb.
Qed.

End HubDelivery.

(** [reliable_client_delivers_each_event_once] on 250 events and batches of
    three. *)
Lemma reliable_client_delivers_each_event_once_witness :
  exists D : list (list nat),
    delivered (fst (_send_events_parallel_batches
                      (PC := hub_client nat 3 (fun _ => false))
                      (fresh_hub nat) (seq 0 250)))
    = delivered (fresh_hub nat) ++ D
    /\ Permutation (List.concat D) (seq 0 250)
    /\ Forall (batch_ok 3) D
    /\ snd (_send_events_parallel_batches
              (PC := hub_client nat 3 (fun _ => false))
              (fresh_hub nat) (seq 0 250))
       = len (seq 0 250).
Proof.
  apply (@reliable_client_delivers_each_event_once nat 3 (fun _ => false)
           (fresh_hub nat) (seq 0 250)).
  - lia.
  - reflexivity.
Defined.

(** Five events on batches of three, the second send raises: the first
    three events are delivered, the chunk counts 0. *)
Example partial_delivery_counts_zero :
  _send_events_parallel_batches
    (PC := hub_client nat 3 (fun k => Nat.eqb k 1)) (fresh_hub nat)
    [1; 2; 3; 4; 5]%nat
  = ({| sends := 2; delivered := [[1; 2; 3]%nat] |}, 0%Z).
Proof. vm_compute. reflexivity. Qed.


Section Failures.

Context {Sink Batch Event : Type} {PC : ProducerClient Sink Batch Event}.

Lemma gather_batches_all_zero :
  (forall (s : Sink) (c : list Event), snd (_send_single_batch s c) = 0%Z) ->
  forall (chunks : list (list Event)) (s : Sink),
    py_sum (snd (gather_batches s chunks)) = 0%Z.
Proof.
  intros Hzero chunks. induction chunks as [|c rest IH]; intros s;
    [reflexivity|].
  cbn [gather_batches]. specialize (Hzero s c).
  destruct (_send_single_batch s c) as [s1 n]. cbn [snd] in Hzero. subst n.
  specialize (IH s1). destruct (gather_batches s1 rest) as [s2 ns].
  cbn [snd] in *. unfold py_sum in *. cbn [fold_right]. lia.
Qed.

(** X14.  When every [send_batch] raises, or every [create_batch] raises,
    the exceptions are swallowed and the total of the tick is 0, however
    many events there are. *)
Theorem client_down_counts_nothing (s : Sink) (events_to_send : list Event) :
  (forall (s0 : Sink) (b : Batch), snd (send_batch s0 b) = false)
  \/ (forall s0 : Sink, snd (create_batch s0) = None) ->
  snd (_send_events_parallel_batches s events_to_send) = 0%Z.
Proof.
  intros Hdown.
  assert (Hzero : forall (s0 : Sink) (c : list Event),
             snd (_send_single_batch s0 c) = 0%Z).
  { destruct Hdown as [Hsend|Hcreate]; intros s0 c.
    - apply send_single_batch_unreachable. exact Hsend.
    - unfold _send_single_batch, try_send_single_batch.
      specialize (Hcreate s0).
      destruct (create_batch s0) as [s1 [b|]]; [discriminate|reflexivity]. }
  unfold _send_events_parallel_batches.
  destruct (is_empty events_to_send); [reflexivity|].
  pose proof (gather_batches_all_zero Hzero
                (event_batches batch_size events_to_send) s) as H.
  destruct (gather_batches s _) as [s' rs]. exact H.
Qed.

(** X15.  An event that fits in no batch, not even an empty one, makes the
    submission of its whole chunk raise: the chunk counts 0, whatever else
    it holds. *)
Theorem event_that_never_fits_voids_its_chunk
  (s : Sink) (e : Event) (events_batch : list Event) :
  (forall b : Batch, batch_add b e = BatchFull) ->
  In e events_batch ->
  snd (try_send_single_batch s events_batch) = None
  /\ snd (_send_single_batch s events_batch) = 0%Z.
Proof.
  intros Hfull Hin.
  assert (Htry : snd (try_send_single_batch s events_batch) = None).
  { unfold try_send_single_batch.
    destruct (create_batch s) as [s1 [b|]]; [|reflexivity].
    pose proof (@fill_batches_never_fits _ _ _ _ e events_batch Hfull Hin
                  s1 b 0%Z)
      as Hfill.
    destruct (fill_batches s1 b 0 events_batch) as [s2 [[b' k]|]];
      [discriminate|reflexivity]. }
  split; [exact Htry|].
  rewrite _send_single_batch_result, Htry. reflexivity.
Qed.

End Failures.

(** [client_down_counts_nothing] on a hub whose every send raises. *)
Lemma client_down_counts_nothing_witness :
  snd (_send_events_parallel_batches
         (PC := hub_client nat 1000 (fun _ => true)) (fresh_hub nat)
         (seq 0 250)) = 0%Z.
Proof.
  apply (@client_down_counts_nothing _ _ _
           (hub_client nat 1000 (fun _ => true)) (fresh_hub nat) (seq 0 250)).
  left. intros s0 b. reflexivity.
Defined.

(** [event_that_never_fits_voids_its_chunk] on a chunk of four events. *)
Lemma event_that_never_fits_voids_its_chunk_witness :
  snd (try_send_single_batch (PC := zero_never_fits) (fresh_hub nat)
         [1; 2; 0; 3]%nat) = None
  /\ snd (_send_single_batch (PC := zero_never_fits) (fresh_hub nat)
            [1; 2; 0; 3]%nat) = 0%Z.
Proof.
  apply (@event_that_never_fits_voids_its_chunk _ _ _ zero_never_fits
           (fresh_hub nat) 0%nat [1; 2; 0; 3]%nat).
  - intros b. reflexivity.
  - cbn. auto.
Defined.

(** The events before the one that never fits are sent all the same, the
    one after it is not. *)
Example events_before_one_that_never_fits_are_sent :
  _send_single_batch (PC := zero_never_fits) (fresh_hub nat)
    [1; 2; 0; 3]%nat
  = ({| sends := 1; delivered := [[1; 2]%nat] |}, 0%Z).
Proof. vm_compute. reflexivity. Qed.

(* ================================================================= *)
(** * Further properties of the fleet setup *)

Lemma to_uint_nonnil (n : nat) : Nat.to_uint n <> Decimal.Nil.
Proof.
  rewrite <- (DecimalNat.Unsigned.of_to n) at 1.
  rewrite DecimalNat.Unsigned.to_of. apply DecimalFacts.unorm_nonnil.
Qed.

Lemma string_of_uint_length (d : Decimal.uint) :
  String.length (NilEmpty.string_of_uint d) = Decimal.nb_digits d.
Proof. induction d; cbn; congruence. Qed.

Lemma digits_nonempty (n : nat) :
  (1 <= String.length (NilEmpty.string_of_uint (Nat.to_uint n)))%nat.
Proof.
  rewrite string_of_uint_length.
  pose proof (@DecimalFacts.nb_digits_0 (Nat.to_uint n)).
  pose proof (to_uint_nonnil n).
  destruct (Decimal.nb_digits (Nat.to_uint n)); [tauto|lia].
Qed.

Lemma parse_decimal_digits (n : nat) :
  parse_decimal (NilEmpty.string_of_uint (Nat.to_uint n)) = Some n.
Proof.
  unfold parse_decimal. rewrite NilEmpty.usu. cbn.
  rewrite DecimalNat.Unsigned.of_to. reflexivity.
Qed.

Lemma parse_decimal_leading_zero (s : string) :
  parse_decimal ("0" ++ s) = parse_decimal s.
Proof.
  unfold parse_decimal. cbn.
  destruct (NilEmpty.uint_of_string s); reflexivity.
Qed.

Lemma parse_decimal_format_03d (n : nat) :
  parse_decimal (format_03d n) = Some n.
Proof.
  unfold format_03d.
  destruct (String.length (NilEmpty.string_of_uint (Nat.to_uint n)))
    as [|[|[|k]]].
  - apply parse_decimal_digits.
  - change ("00" ++ ?s)%string with ("0" ++ ("0" ++ s))%string.
    rewrite !parse_decimal_leading_zero. apply parse_decimal_digits.
  - rewrite parse_decimal_leading_zero. apply parse_decimal_digits.
  - apply parse_decimal_digits.
Qed.

Lemma format_03d_inj (n m : nat) : format_03d n = format_03d m -> n = m.
Proof.
  intros H. apply (f_equal parse_decimal) in H.
  rewrite !parse_decimal_format_03d in H. congruence.
Qed.

Lemma format_03d_width (n : nat) : (3 <= String.length (format_03d n))%nat.
Proof.
  unfold format_03d. pose proof (digits_nonempty n) as Hd.
  destruct (String.length (NilEmpty.string_of_uint (Nat.to_uint n)))
    as [|[|[|k]]] eqn:E.
  - lia.
  - cbn. rewrite E. lia.
  - cbn. rewrite E. lia.
  - rewrite E. lia.
Qed.

Lemma format_03d_three_digits :
  forallb (fun n => (String.length (format_03d n) =? 3)%nat) (seq 0 1000)
  = true.
Proof. vm_compute. reflexivity. Qed.

(** X16.  The number in a vehicle id: [f"{n:03d}"] reads back as [n]; it
    has at least three characters, exactly three below 1000, and is the
    plain decimal numeral, without padding, once that has three digits or
    more. *)
Theorem format_03d_round_trip (n : nat) :
  parse_decimal (format_03d n) = Some n
  /\ (3 <= String.length (format_03d n))%nat
  /\ ((n < 1000)%nat -> String.length (format_03d n) = 3%nat)
  /\ ((3 <= String.length (NilEmpty.string_of_uint (Nat.to_uint n)))%nat ->
      format_03d n = NilEmpty.string_of_uint (Nat.to_uint n)).
Proof.
  split; [apply parse_decimal_format_03d|].
  split; [apply format_03d_width|].
  split.
  - intros Hn. pose proof format_03d_three_digits as H.
    rewrite forallb_forall in H. apply Nat.eqb_eq, H, in_seq. lia.
  - intros Hlen. unfold format_03d.
    destruct (String.length (NilEmpty.string_of_uint (Nat.to_uint n)))
      as [|[|[|k]]]; try lia. reflexivity.
Qed.

Lemma py_index_In {A : Type} (l : list A) (i : Z) (a : A) :
  py_index l i = Returns a -> In a l.
Proof.
  unfold py_index. destruct (_ || _)%bool; [discriminate|].
  destruct (nth_error l _) as [b|] eqn:E; [|discriminate].
  intros H. injection H as <-. exact (nth_error_In _ _ E).
Qed.

Lemma demo_routes_have_segments :
  Forall (fun r : Route R => (6 <= len (waypoints r))%Z) create_demo_routes.
Proof. repeat constructor; unfold len; cbn [waypoints List.length]; lia. Qed.

Lemma candidate_routes_demo (route_tag : option string) (r : Route R) :
  In r (candidate_routes route_tag) -> In r create_demo_routes.
Proof.
  unfold candidate_routes.
  set (routes := match route_tag with
                 | Some t =>
                     if negb (t =? "")%string
                        && negb (t =? "all-routes")%string
                     then filter (fun r => (tag r =? t)%string)
                                 create_demo_routes
                     else create_demo_routes
                 | None => create_demo_routes
                 end).
  assert (Hsub : forall r, In r routes -> In r create_demo_routes).
  { subst routes. intros r0. destruct route_tag as [t|]; [|auto].
    destruct (negb (t =? "")%string && negb (t =? "all-routes")%string);
      [|auto].
    intros Hin. apply filter_In in Hin. tauto. }
  destruct (is_empty routes); [|apply Hsub].
  intros Hin. cbn in Hin. destruct Hin as [<-|[]]. cbn. auto.
Qed.

Lemma setup_vehicles_from_members (routes : list (Route R))
  (random : nat -> Draws) (count : nat) :
  is_empty routes = false ->
  Forall (fun r : Route R => (2 <= len (waypoints r))%Z) routes ->
  (forall (i : nat) (route : Route R),
      py_index routes (Z.of_nat i mod len routes) = Returns route ->
      (0 <= starting_waypoint (random i)
       <= Z.max 0 (len (waypoints route) - 2))%Z) ->
  forall i0 : nat,
  exists fleet,
    setup_vehicles_from routes random i0 count = Returns fleet
    /\ List.length fleet = count
    /\ forall (k : nat) (v : VehicleR),
         nth_error fleet k = Some v ->
         id v = ("vehicle-" ++ format_03d (i0 + k + 1))%string
         /\ py_index routes (Z.of_nat (i0 + k) mod len routes)
            = Returns (route v)
         /\ current_waypoint_index v = starting_waypoint (random (i0 + k))
         /\ progress_to_next_waypoint v
            = starting_progress (random (i0 + k))
         /\ speed_km_hr v = speed (random (i0 + k))
         /\ current_segment_bearing v = Returns (heading v).
Proof.
  intros Hne Hseg Hdraws.
  pose proof (is_empty_false_len routes Hne) as Hlen.
  induction count as [|count IH]; intros i0.
  - exists []. split; [reflexivity|]. split; [reflexivity|].
    intros [|k] v H; discriminate.
  - destruct (@py_index_in_range _ routes (Z.of_nat i0 mod len routes))
      as [route Hroute].
    { pose proof (Z.mod_pos_bound (Z.of_nat i0) (len routes)). lia. }
    pose proof (Hdraws i0 route Hroute) as Hw.
    assert (Hr2 : (2 <= len (waypoints route))%Z).
    { rewrite Forall_forall in Hseg. apply Hseg.
      exact (py_index_In _ _ Hroute). }
    destruct (IH (S i0)) as (rest & Hrest & Hcount & Hmem).
    cbn [setup_vehicles_from]. rewrite Hroute. cbn [bind].
    set (v := {| id := ("vehicle-" ++ format_03d (i0 + 1))%string;
                 route := route;
                 current_waypoint_index := starting_waypoint (random i0);
                 progress_to_next_waypoint := starting_progress (random i0);
                 speed_km_hr := speed (random i0); heading := 0%R |}).
    destruct (@py_index_in_range _ (waypoints route)
                (starting_waypoint (random i0))) as [cw Hcw]; [lia|].
    destruct (@py_index_in_range _ (waypoints route)
                (starting_waypoint (random i0) + 1)) as [nw Hnw]; [lia|].
    rewrite (@Exact.update_heading_step v cw nw);
      [|subst v; cbn; lia|exact Hcw|exact Hnw].
    cbn [bind]. rewrite Hrest. cbn [bind].
    eexists. split; [reflexivity|]. split; [cbn; lia|].
    intros [|k] w Hk.
    + cbn in Hk. injection Hk as <-. rewrite Nat.add_0_r.
      unfold current_segment_bearing. cbn. rewrite Hcw, Hnw.
      repeat split; auto.
    + cbn [nth_error] in Hk. specialize (Hmem k w Hk).
      replace (i0 + S k)%nat with (S i0 + k)%nat by lia. exact Hmem.
Qed.

(** X17.  With random draws within the bounds the code asks for,
    [setup_vehicles] returns a fleet of [num_vehicles] vehicles (none when
    the number is not positive).  The vehicle at position [i] has the id
    [vehicle-] followed by [i + 1] on three digits, is on the route at
    position [i mod len(routes)] of the candidate routes, one of the demo
    routes, starts on a segment of it (index at most [len(waypoints) - 2]),
    with a progress in [[0, 1]], a speed in [[20, 40]], and a heading that is
    the bearing of that segment, in [[0, 360)]. *)
Theorem setup_vehicles_fleet (route_tag : option string) (num_vehicles : Z)
  (random : nat -> Draws) :
  draws_in_range route_tag random ->
  exists fleet,
    setup_vehicles route_tag num_vehicles random = Returns fleet
    /\ List.length fleet = Z.to_nat num_vehicles
    /\ forall (i : nat) (v : VehicleR),
         nth_error fleet i = Some v ->
         id v = ("vehicle-" ++ format_03d (i + 1))%string
         /\ py_index (candidate_routes route_tag)
              (Z.of_nat i mod len (candidate_routes route_tag))
            = Returns (route v)
         /\ In (route v) create_demo_routes
         /\ (0 <= current_waypoint_index v
             <= len (waypoints (route v)) - 2)%Z
         /\ (0 <= progress_to_next_waypoint v <= 1)%R
         /\ (20 <= speed_km_hr v <= 40)%R
         /\ current_segment_bearing v = Returns (heading v)
         /\ (0 <= heading v < 360)%R.
Proof.
  intros Hdraws. unfold setup_vehicles.
  assert (Hseg : Forall (fun r : Route R => (6 <= len (waypoints r))%Z)
                        (candidate_routes route_tag)).
  { rewrite Forall_forall. intros r Hr.
    pose proof demo_routes_have_segments as Hd. rewrite Forall_forall in Hd.
    apply Hd, (candidate_routes_demo route_tag), Hr. }
  destruct (@setup_vehicles_from_members (candidate_routes route_tag) random
              (Z.to_nat num_vehicles) (candidate_routes_nonempty route_tag))
    with (i0 := 0%nat) as (fleet & Hsetup & Hsize & Hmem).
  { apply (Forall_impl _ (P := fun r : Route R => (6 <= len (waypoints r))%Z));
      [|exact Hseg]. intros r Hr. cbn beta in *. lia. }
  { intros i route Hroute. apply (Hdraws i route Hroute). }
  exists fleet. split; [exact Hsetup|]. split; [exact Hsize|].
  intros i v Hi.
  destruct (Hmem i v Hi) as (Hid & Hroute & Hidx & Hp & Hs & Hh).
  cbn [Nat.add] in *.
  destruct (Hdraws i (route v) Hroute) as (Hw & Hp' & Hs').
  pose proof (py_index_In _ _ Hroute) as Hin.
  rewrite Forall_forall in Hseg. pose proof (Hseg _ Hin) as H6.
  rewrite Hidx, Hp, Hs.
  split; [exact Hid|]. split; [exact Hroute|].
  split; [exact (candidate_routes_demo route_tag _ Hin)|].
  split; [lia|]. split; [exact Hp'|]. split; [exact Hs'|].
  split; [exact Hh|].
  unfold current_segment_bearing in Hh.
  destruct (py_index (waypoints (route v)) (current_waypoint_index v))
    as [cw| |]; try discriminate.
  destruct (py_index (waypoints (route v)) (current_waypoint_index v + 1))
    as [nw| |]; try discriminate.
  cbn [bind] in Hh. injection Hh as Hh. rewrite <- Hh.
  apply Exact.bearing_range.
Qed.

Lemma append_inj_l (p s1 s2 : string) :
  (p ++ s1)%string = (p ++ s2)%string -> s1 = s2.
Proof.
  induction p as [|c p IH]; cbn; intros H; [exact H|].
  injection H as H. exact (IH H).
Qed.

(** X18.  No two vehicles of the fleet share an id, whatever the size of
    the fleet. *)
Theorem fleet_ids_distinct (route_tag : option string) (num_vehicles : Z)
  (random : nat -> Draws) :
  draws_in_range route_tag random ->
  exists fleet,
    setup_vehicles route_tag num_vehicles random = Returns fleet
    /\ NoDup (map (@id R) fleet).
Proof.
  intros Hdraws. unfold setup_vehicles.
  destruct (@setup_vehicles_from_members (candidate_routes route_tag) random
              (Z.to_nat num_vehicles) (candidate_routes_nonempty route_tag))
    with (i0 := 0%nat) as (fleet & Hsetup & Hsize & Hmem).
  { rewrite Forall_forall. intros r Hr.
    pose proof demo_routes_have_segments as Hd. rewrite Forall_forall in Hd.
    pose proof (Hd r (candidate_routes_demo route_tag _ Hr)). cbn beta in *.
    lia. }
  { intros i route Hroute. apply (Hdraws i route Hroute). }
  exists fleet. split; [exact Hsetup|].
  apply NoDup_nth_error. intros i j Hi Hij.
  rewrite length_map in Hi.
  rewrite !nth_error_map in Hij. unfold VehicleR in *.
  destruct (nth_error fleet i) as [v|] eqn:Hv.
  2:{ apply nth_error_None in Hv. exfalso.
      exact (Nat.lt_irrefl _ (Nat.lt_le_trans _ _ _ Hi Hv)). }
  destruct (nth_error fleet j) as [w|] eqn:Hw; [|discriminate].
  cbn in Hij. injection Hij as Hij.
  destruct (Hmem i v Hv) as (Hidv & _). destruct (Hmem j w Hw) as (Hidw & _).
  rewrite Hidv, Hidw in Hij. cbn [Nat.add] in Hij.
  apply append_inj_l, format_03d_inj in Hij. lia.
Qed.

(** X19.  The routes the fleet is spread over: never an empty list, always
    demo routes; all three demo routes for no tag, the empty tag and
    [all-routes]; the one route of that tag for the tag of a demo route; and
    for any other tag the first demo route alone. *)
Theorem candidate_routes_cases :
  (forall route_tag, candidate_routes route_tag <> []
                     /\ incl (candidate_routes route_tag) create_demo_routes)
  /\ candidate_routes None = create_demo_routes
  /\ candidate_routes (Some ""%string) = create_demo_routes
  /\ candidate_routes (Some "all-routes"%string) = create_demo_routes
  /\ (forall r, In r create_demo_routes ->
        candidate_routes (Some (tag r)) = [r])
  /\ (forall t, t <> ""%string -> t <> "all-routes"%string ->
        ~ In t (map (@tag R) create_demo_routes) ->
        candidate_routes (Some t) = firstn 1 create_demo_routes).
Proof.
  split.
  { intros route_tag. split.
    - pose proof (candidate_routes_nonempty route_tag) as H.
      destruct (candidate_routes route_tag); [discriminate|congruence].
    - intros r. apply candidate_routes_demo. }
  split; [reflexivity|]. split; [reflexivity|]. split; [reflexivity|].
  split.
  - intros r [<-|[<-|[<-|[]]]]; reflexivity.
  - intros t Hempty Hall Htag. unfold candidate_routes.
    destruct (String.eqb_spec t "") as [|_]; [contradiction|].
    destruct (String.eqb_spec t "all-routes") as [|_]; [contradiction|].
    cbn [negb andb create_demo_routes filter tag map] in *.
    destruct (String.eqb_spec "manhattan-loop" t) as [E1|_];
      [exfalso; apply Htag; left; exact E1|].
    destruct (String.eqb_spec "brooklyn-express" t) as [E2|_];
      [exfalso; apply Htag; right; left; exact E2|].
    destruct (String.eqb_spec "queens-connector" t) as [E3|_];
      [exfalso; apply Htag; right; right; left; exact E3|].
    reflexivity.
Qed.

(** [setup_vehicles_fleet] for three vehicles on all routes. *)
Lemma setup_vehicles_fleet_witness :
  exists fleet,
    setup_vehicles None 3 same_draws = Returns fleet
    /\ List.length fleet = Z.to_nat 3
    /\ forall (i : nat) (v : VehicleR),
         nth_error fleet i = Some v ->
         id v = ("vehicle-" ++ format_03d (i + 1))%string
         /\ py_index (candidate_routes None)
              (Z.of_nat i mod len (candidate_routes None))
            = Returns (route v)
         /\ In (route v) create_demo_routes
         /\ (0 <= current_waypoint_index v
             <= len (waypoints (route v)) - 2)%Z
         /\ (0 <= progress_to_next_waypoint v <= 1)%R
         /\ (20 <= speed_km_hr v <= 40)%R
         /\ current_segment_bearing v = Returns (heading v)
         /\ (0 <= heading v < 360)%R.
Proof.
  exact (@setup_vehicles_fleet None 3 same_draws (same_draws_in_range None)).
Defined.

(** [fleet_ids_distinct] for 1200 vehicles on one route. *)
Lemma fleet_ids_distinct_witness :
  exists fleet,
    setup_vehicles (Some "queens-connector"%string) 1200 same_draws
    = Returns fleet
    /\ NoDup (map (@id R) fleet).
Proof.
  exact (@fleet_ids_distinct (Some "queens-connector"%string) 1200 same_draws
           (same_draws_in_range (Some "queens-connector"%string))).
Defined.

(* ================================================================= *)
(** * Further properties of the feed *)

Section FeedAnyArithmetic.

Context {F : Type} {AF : Arith F} {LF : Libm F}.

Lemma py_index_has_no_fuel {A : Type} (l : list A) (i : Z) :
  py_index l i <> OutOfFuel.
Proof.
  unfold py_index. destruct (_ || _)%bool; [discriminate|].
  destruct (nth_error l _); discriminate.
Qed.

Lemma get_current_position_has_no_fuel (v : Vehicle F) :
  get_current_position v <> OutOfFuel.
Proof.
  unfold get_current_position.
  destruct (is_empty _); [discriminate|].
  destruct (_ >=? _)%Z; [apply py_index_has_no_fuel|].
  pose proof (py_index_has_no_fuel (waypoints (route v))
                (current_waypoint_index v)) as H1.
  pose proof (py_index_has_no_fuel (waypoints (route v))
                (current_waypoint_index v + 1)) as H2.
  destruct (py_index _ (current_waypoint_index v)); cbn; try congruence.
  destruct (py_index _ (current_waypoint_index v + 1)); cbn; congruence.
Qed.

(** X20.  The events of a tick follow the fleet, whatever the arithmetic:
    when the position of every vehicle can be read, there is one event per
    vehicle, in the order of the fleet, with the vehicle's id, route tag,
    position, heading and speed, the agency, the one timestamp of the tick
    and [predictable] set; when the position of some vehicle raises
    [IndexError], no list of events is produced at all. *)
Theorem events_follow_the_fleet (vs : list (Vehicle F))
  (agency time_iso : string) :
  (Forall (fun v => exists pos, get_current_position v = Returns pos) vs ->
   exists es,
     _create_all_events_optimized vs agency time_iso = Returns es
     /\ Forall2 (fun v e =>
                   exists pos, get_current_position v = Returns pos
                               /\ event_reports agency time_iso pos v e)
                vs es)
  /\ (Exists (fun v => get_current_position v = IndexError) vs ->
      _create_all_events_optimized vs agency time_iso = IndexError).
Proof.
  split.
  - induction 1 as [|v vs [pos Hpos] _ (es & Hes & Hall)].
    + exists []. split; [reflexivity|constructor].
    + eexists (_ :: es). cbn [_create_all_events_optimized].
      unfold _create_event_data_optimized. rewrite Hpos. cbn [bind].
      rewrite Hes. cbn [bind]. split; [reflexivity|].
      constructor; [|exact Hall].
      exists pos. split; [exact Hpos|].
      unfold event_reports. cbn. destruct pos. repeat split.
  - induction 1 as [v vs Hv|v vs _ IH].
    + cbn [_create_all_events_optimized].
      unfold _create_event_data_optimized. rewrite Hv. reflexivity.
    + cbn [_create_all_events_optimized].
      unfold _create_event_data_optimized.
      pose proof (get_current_position_has_no_fuel v) as Hf.
      destruct (get_current_position v); cbn [bind]; try congruence.
      rewrite IH. reflexivity.
Qed.

Lemma advance_vehicles_in_route (vs : list (Vehicle F)) (dt : F) :
  Forall index_in_route vs ->
  exists vs',
    advance_vehicles vs dt = Returns vs'
    /\ Forall2 same_vehicle vs vs'
    /\ Forall index_in_route vs'.
Proof.
  induction 1 as [|v vs Hv _ (vs' & Hvs & Hsame & Hin)].
  - exists []. repeat split; constructor.
  - pose proof (len_nonneg (waypoints (route v))) as Hlen.
    unfold index_in_route in Hv.
    destruct (@advance_total F AF LF v dt) as (v' & Hadv & Hs & Hi); [lia|].
    exists (v' :: vs'). cbn [advance_vehicles]. rewrite Hadv. cbn [bind].
    rewrite Hvs. cbn [bind]. split; [reflexivity|].
    split; [constructor; assumption|].
    constructor; [|exact Hin].
    unfold index_in_route. destruct Hs as (_ & Hr & _). rewrite Hr. lia.
Qed.

Lemma create_all_events_in_route (vs : list (Vehicle F))
  (agency time_iso : string) :
  Forall index_in_route vs ->
  exists es, _create_all_events_optimized vs agency time_iso = Returns es
             /\ List.length es = List.length vs.
Proof.
  induction 1 as [|v vs Hv _ (es & Hes & Hlen)].
  - exists []. split; reflexivity.
  - destruct (get_current_position_returns v) as [pos Hpos].
    { pose proof (len_nonneg (waypoints (route v))).
      unfold index_in_route in Hv. lia. }
    eexists (_ :: es). cbn [_create_all_events_optimized].
    unfold _create_event_data_optimized. rewrite Hpos. cbn [bind].
    rewrite Hes. cbn [bind]. split; [reflexivity|]. cbn. lia.
Qed.

Lemma same_vehicle_refl (v : Vehicle F) : same_vehicle v v.
Proof. repeat split. Qed.

Lemma same_vehicle_trans (u v w : Vehicle F) :
  same_vehicle u v -> same_vehicle v w -> same_vehicle u w.
Proof.
  unfold same_vehicle. intros (H1 & H2 & H3) (H4 & H5 & H6).
  repeat split; congruence.
Qed.

Lemma same_fleet_refl (vs : list (Vehicle F)) : Forall2 same_vehicle vs vs.
Proof. induction vs; constructor; auto using same_vehicle_refl. Qed.

Lemma same_fleet_trans (us vs ws : list (Vehicle F)) :
  Forall2 same_vehicle us vs -> Forall2 same_vehicle vs ws ->
  Forall2 same_vehicle us ws.
Proof.
  intros H. revert ws. induction H as [|u v us vs Huv _ IH]; intros ws Hw.
  - inversion Hw. constructor.
  - inversion Hw as [|v0 w vs0 ws0 Hvw Hrest]; subst.
    constructor; [exact (same_vehicle_trans Huv Hvw)|exact (IH _ Hrest)].
Qed.

Context {Sink Batch : Type} {PC : ProducerClient Sink Batch (@EventData F)}.

Lemma feed_loop_in_route (agency : string) (num_vehicles : Z)
  (poll_interval : F) (ticks : list string) :
  forall st : FeedState,
    Forall index_in_route (vehicles st) ->
    exists st',
      feed_loop agency num_vehicles poll_interval st ticks = Returns st'
      /\ Forall2 same_vehicle (vehicles st) (vehicles st')
      /\ Forall index_in_route (vehicles st')
      /\ total_events_sent st'
         = (total_events_sent st + len ticks * num_vehicles)%Z
      /\ batch_count st' = (batch_count st + len ticks)%Z
      /\ List.length (logged_totals st')
         = (List.length (logged_totals st) + List.length ticks)%nat.
Proof.
  induction ticks as [|tick rest IH]; intros st Hin.
  - exists st. cbn [feed_loop]. unfold len. cbn.
    repeat split; try lia; auto using same_fleet_refl.
  - destruct (create_all_events_in_route agency tick Hin) as (es & Hes & _).
    destruct (advance_vehicles_in_route poll_interval Hin)
      as (vs' & Hvs & Hsame & Hin').
    cbn [feed_loop]. unfold feed_iteration, send_vehicle_events.
    rewrite Hes. cbn [bind]. rewrite Hvs. cbn [bind].
    match goal with
    | |- exists st', feed_loop _ _ _ ?st1 _ = _ /\ _ =>
        destruct (IH st1 Hin') as (st' & Hloop & Hs' & Hi' & Ht & Hc & Hl)
    end.
    cbn [vehicles total_events_sent batch_count logged_totals] in *.
    exists st'. split; [exact Hloop|].
    split; [exact (same_fleet_trans Hsame Hs')|].
    split; [exact Hi'|].
    unfold len in *. rewrite length_app in Hl. cbn [List.length] in *.
    repeat split; lia.
Qed.

End FeedAnyArithmetic.

(** X21.  The feed loop in exact arithmetic, whatever the client, the
    pacing interval and the speeds: on a fleet whose indices are within
    their routes every tick runs to its end, the fleet keeps its vehicles
    (same ids, routes and speeds, in the same order) with indices within
    their routes, and [batch_count] counts the ticks. *)
Theorem feed_loop_keeps_the_fleet {Sink Batch : Type}
  {PC : ProducerClient Sink Batch (@EventData R)}
  (agency : string) (num_vehicles : Z) (poll_interval : R)
  (st : FeedState) (ticks : list string) :
  Forall index_in_route (vehicles st) ->
  exists st',
    feed_loop agency num_vehicles poll_interval st ticks = Returns st'
    /\ Forall2 same_vehicle (vehicles st) (vehicles st')
    /\ Forall index_in_route (vehicles st')
    /\ batch_count st' = (batch_count st + len ticks)%Z.
Proof.
  intros Hin.
  destruct (@feed_loop_in_route R Arith_R Libm_R Sink Batch PC agency
              num_vehicles poll_interval ticks st Hin)
    as (st' & Hloop & Hsame & Hin' & _ & Hc & _).
  exists st'. repeat split; assumption.
Qed.

(* ================================================================= *)
(** * The event encoders and the command line *)

Section Encoders.

Context {F : Type} {AF : Arith F}.
Variable datetime : Type.
Variable isoformat : datetime -> string.

(** X22.  The two encoders agree: for a vehicle, an agency and a time,
    the data of the CloudEvent built by [create_vehicle_position_event] is
    the dictionary that [_create_event_data_optimized] serializes, with the
    position of the vehicle as [lat] and [lon].  Each encoder draws an id of
    its own; apart from it, the seven properties of the latter are the seven
    attributes of the former ([specversion] among them), each under its name
    prefixed by [ce-], in another order.  Both raise [IndexError] when the
    position does. *)
Theorem the_two_encoders_agree (v : Vehicle F) (agency : string)
  (now : datetime) (uuid4 event_id : string) :
  (forall pos, get_current_position v = Returns pos ->
     exists ce e,
       create_vehicle_position_event isoformat v agency now uuid4
       = Returns ce
       /\ _create_event_data_optimized v agency (isoformat now) = Returns e
       /\ ce_data ce = event_data_dict e
       /\ In ("lat"%string, JNumber (fst pos)) (ce_data ce)
       /\ In ("lon"%string, JNumber (snd pos)) (ce_data ce)
       /\ Permutation
            (without_key "ce-id" (event_properties e event_id))
            (map as_property (without_key "id" (ce_attributes ce)))
       /\ In ("id"%string, uuid4) (ce_attributes ce)
       /\ In ("ce-id"%string, event_id) (event_properties e event_id)
       /\ List.length (ce_attributes ce) = 7%nat
       /\ List.length (event_properties e event_id) = 7%nat)
  /\ (get_current_position v = IndexError ->
      create_vehicle_position_event isoformat v agency now uuid4
      = IndexError
      /\ _create_event_data_optimized v agency (isoformat now)
         = IndexError).
Proof.
  unfold create_vehicle_position_event, _create_event_data_optimized.
  split.
  - intros pos ->. cbn [bind]. do 2 eexists.
    split; [reflexivity|]. split; [reflexivity|].
    cbn. repeat split; auto 10.
    apply (Permutation_cons_append
             [ ("ce-type", "vehicle.position");
               ("ce-source", "vehicle-generator");
               ("ce-subject", agency ++ "/" ++ id v);
               ("ce-time", isoformat now);
               ("ce-datacontenttype", "application/json") ]%string
             ("ce-specversion", "1.0")%string).
  - intros ->. split; reflexivity.
Qed.

End Encoders.

Lemma is_missing_value_of (x : option string) :
  is_missing x = false -> x = Some (value_of x) /\ value_of x <> ""%string.
Proof.
  destruct x as [s|]; cbn; [|discriminate].
  destruct (String.eqb_spec s ""); [discriminate|]. auto.
Qed.

Lemma feed_run_inv (env : environment) (agency route : string)
  (vehicles : Z) (poll_interval : R)
  (event_hub_namespace event_hub_name : option string)
  (high_performance : bool) (arguments : FeedArguments) :
  feed env agency route vehicles poll_interval event_hub_namespace
       event_hub_name high_performance = RunFeed arguments ->
  (0 < arg_vehicles arguments)%Z
  /\ (0 < arg_poll_interval arguments)%R
  /\ arg_event_hub_namespace arguments <> ""%string
  /\ arg_event_hub_name arguments <> ""%string
  /\ arg_agency arguments = agency
  /\ arg_route arguments = route
  /\ Some (arg_event_hub_namespace arguments)
     = (if is_missing event_hub_namespace
        then env "EVENT_HUB_NAMESPACE"%string else event_hub_namespace)
  /\ arg_event_hub_name arguments
     = (if is_missing event_hub_name
        then getenv_default env "EVENT_HUB_NAME" "vehicle-events"
        else value_of event_hub_name)
  /\ arg_vehicles arguments
     = (if high_performance && (vehicles =? 1000)%Z then 5000%Z
        else vehicles)
  /\ arg_poll_interval arguments
     = (if high_performance && Reqb poll_interval 0.5%R then 0.1%R
        else poll_interval).
Proof.
  unfold feed.
  set (ns := if is_missing event_hub_namespace
             then env "EVENT_HUB_NAMESPACE"%string else event_hub_namespace).
  set (name := if is_missing event_hub_name
               then Some (getenv_default env "EVENT_HUB_NAME" "vehicle-events")
               else event_hub_name).
  set (n := if high_performance && (vehicles =? 1000)%Z then 5000%Z
            else vehicles).
  set (dt := if high_performance && Reqb poll_interval 0.5%R then 0.1%R
             else poll_interval).
  destruct (high_performance && Reqb dt 0); [discriminate|].
  destruct (is_missing ns) eqn:Hns; [discriminate|].
  destruct (is_missing name) eqn:Hname; [discriminate|].
  destruct (Z.leb_spec n 0) as [|Hn]; [discriminate|].
  destruct (Rgeb 0 dt) eqn:Hdt; [discriminate|].
  intros H. injection H as <-. cbn.
  apply Exact.Rgeb_false in Hdt.
  destruct (is_missing_value_of _ Hns) as [Hns1 Hns2].
  destruct (is_missing_value_of _ Hname) as [Hname1 Hname2].
  repeat split; auto.
  subst name. destruct (is_missing event_hub_name); reflexivity.
Qed.

(** X23.  [feed] calls [run_feed_async] only with validated arguments: a
    positive number of vehicles, a positive interval, a namespace and a hub
    name that are not empty; the agency and the route are passed on as
    given; the namespace is the option, or else the environment variable;
    the hub name is the option, or else the environment variable, or else
    [vehicle-events]. *)
Theorem feed_arguments_are_validated (env : environment)
  (agency route : string) (vehicles : Z) (poll_interval : R)
  (event_hub_namespace event_hub_name : option string)
  (high_performance : bool) (arguments : FeedArguments) :
  feed env agency route vehicles poll_interval event_hub_namespace
       event_hub_name high_performance = RunFeed arguments ->
  (0 < arg_vehicles arguments)%Z
  /\ (0 < arg_poll_interval arguments)%R
  /\ arg_event_hub_namespace arguments <> ""%string
  /\ arg_event_hub_name arguments <> ""%string
  /\ arg_agency arguments = agency
  /\ arg_route arguments = route
  /\ Some (arg_event_hub_namespace arguments)
     = (if is_missing event_hub_namespace
        then env "EVENT_HUB_NAMESPACE"%string else event_hub_namespace)
  /\ arg_event_hub_name arguments
     = (if is_missing event_hub_name
        then getenv_default env "EVENT_HUB_NAME" "vehicle-events"
        else value_of event_hub_name).
Proof.
  intros H.
  destruct (feed_run_inv _ _ _ _ _ _ _ _ H)
    as (H1 & H2 & H3 & H4 & H5 & H6 & H7 & H8 & _).
  repeat split; assumption.
Qed.


(** X25.  From the command line to the loop: with the arguments [feed]
    has validated and random draws in range, [run_feed_async] sets up a
    fleet of exactly the number of vehicles asked for, at least one, and
    runs every tick without an exception; after it [batch_count] is the
    number of ticks and the counter is the number of ticks times the size of
    the fleet. *)
Theorem validated_feed_runs {Sink Batch : Type}
  {PC : ProducerClient Sink Batch (@EventData R)} (s : Sink)
  (env : environment) (agency route : string) (count : Z)
  (poll_interval : R) (event_hub_namespace event_hub_name : option string)
  (high_performance : bool) (arguments : FeedArguments)
  (random : nat -> Draws) (ticks : list string) :
  feed env agency route count poll_interval event_hub_namespace
       event_hub_name high_performance = RunFeed arguments ->
  draws_in_range (route_tag_of (arg_route arguments)) random ->
  exists st,
    run_feed_async s arguments random ticks = Some st
    /\ (1 <= List.length (vehicles st))%nat
    /\ len (vehicles st) = arg_vehicles arguments
    /\ Forall index_in_route (vehicles st)
    /\ batch_count st = len ticks
    /\ total_events_sent st
       = (len ticks * len (vehicles st))%Z.
Proof.
  intros Hfeed Hdraws.
  destruct (feed_run_inv _ _ _ _ _ _ _ _ Hfeed) as (Hn & _).
  unfold run_feed_async, run_feed, setup_vehicles.
  set (rt := route_tag_of (arg_route arguments)) in *.
  assert (Hseg : forall r, In r (candidate_routes rt) ->
                           (6 <= len (waypoints r))%Z).
  { intros r Hr. pose proof demo_routes_have_segments as Hd.
    rewrite Forall_forall in Hd. apply Hd, (candidate_routes_demo rt), Hr. }
  destruct (@setup_vehicles_from_members (candidate_routes rt) random
              (Z.to_nat (arg_vehicles arguments))
              (candidate_routes_nonempty rt))
    with (i0 := 0%nat) as (fleet & Hsetup & Hsize & Hmem).
  { rewrite Forall_forall. intros r Hr. specialize (Hseg r Hr). lia. }
  { intros i r Hr. apply (Hdraws i r Hr). }
  rewrite Hsetup. cbn [bind].
  assert (Hin : Forall index_in_route fleet).
  { rewrite Forall_forall. intros v Hv.
    destruct (In_nth_error _ _ Hv) as [k Hk].
    destruct (Hmem k v Hk) as (_ & Hroute & Hidx & _).
    destruct (Hdraws _ _ Hroute) as (Hw & _).
    pose proof (Hseg _ (py_index_In _ _ Hroute)) as H6.
    unfold index_in_route. rewrite Hidx. lia. }
  destruct (@feed_loop_in_route R Arith_R Libm_R Sink Batch PC
              (arg_agency arguments) (arg_vehicles arguments)
              (arg_poll_interval arguments) ticks
              {| producer_client := s; vehicles := fleet;
                 total_events_sent := 0; batch_count := 0;
                 logged_totals := [] |} Hin)
    as (st & Hloop & Hsame & Hin' & Ht & Hc & _).
  cbn [vehicles total_events_sent batch_count] in *.
  rewrite Hloop. exists st. split; [reflexivity|].
  pose proof (Forall2_length Hsame) as Hlen.
  unfold len in *. unfold VehicleR in *.
  repeat split; try assumption; try lia.
Qed.

(** [feed_loop_keeps_the_fleet] at three ticks of two vehicles. *)
Lemma feed_loop_keeps_the_fleet_witness :
  exists st',
    feed_loop (PC := unreachable_hub) "demo" 2 30%R
      {| producer_client := fresh_hub _;
         vehicles := [vehicle_on_short_hop 0; vehicle_on_short_hop (1 / 2)];
         total_events_sent := 0; batch_count := 0; logged_totals := [] |}
      ["t0"; "t1"; "t2"]%string
    = Returns st'
    /\ Forall2 same_vehicle
         [vehicle_on_short_hop 0; vehicle_on_short_hop (1 / 2)] (vehicles st')
    /\ Forall index_in_route (vehicles st')
    /\ batch_count st' = (0 + len ["t0"; "t1"; "t2"]%string)%Z.
Proof.
  apply (@feed_loop_keeps_the_fleet _ _ unreachable_hub
           "demo"%string 2%Z 30%R
           {| producer_client := fresh_hub _;
              vehicles := [vehicle_on_short_hop 0;
                           vehicle_on_short_hop (1 / 2)];
              total_events_sent := 0; batch_count := 0;
              logged_totals := [] |}
           ["t0"; "t1"; "t2"]%string).
  repeat constructor; cbn; lia.
Defined.

(** The command-line scenario runs, with the high-performance values. *)
Lemma demo_feed_runs :
  feed demo_environment "demo-transit" "all-routes" 1000 0.5 None None true
  = RunFeed demo_arguments.
Proof.
  unfold feed, demo_arguments. cbn [is_missing demo_environment].
  cbn [andb Z.eqb Pos.eqb].
  rewrite Exact.Reqb_refl.
  replace (Reqb 0.1 0) with false by (symmetry; apply Exact.Reqb_false; lra).
  replace (Rgeb 0 0.1) with false by (symmetry; apply Exact.Rgeb_false; lra).
  reflexivity.
Qed.

(** [feed_arguments_are_validated] on the command-line scenario. *)
Lemma feed_arguments_are_validated_witness :
  (0 < arg_vehicles demo_arguments)%Z
  /\ (0 < arg_poll_interval demo_arguments)%R
  /\ arg_event_hub_namespace demo_arguments <> ""%string
  /\ arg_event_hub_name demo_arguments <> ""%string
  /\ arg_agency demo_arguments = "demo-transit"%string
  /\ arg_route demo_arguments = "all-routes"%string
  /\ Some (arg_event_hub_namespace demo_arguments)
     = (if is_missing None
        then demo_environment "EVENT_HUB_NAMESPACE"%string else None)
  /\ arg_event_hub_name demo_arguments
     = (if is_missing None
        then getenv_default demo_environment "EVENT_HUB_NAME" "vehicle-events"
        else value_of None).
Proof.
  exact (@feed_arguments_are_validated demo_environment "demo-transit"
           "all-routes" 1000 0.5%R None None true demo_arguments
           demo_feed_runs).
Defined.

(** [validated_feed_runs] on the command-line scenario, for two ticks. *)
Lemma validated_feed_runs_witness :
  exists st,
    run_feed_async (PC := unreachable_hub) (fresh_hub _) demo_arguments
                   same_draws ["t0"; "t1"]%string = Some st
    /\ (1 <= List.length (vehicles st))%nat
    /\ len (vehicles st) = arg_vehicles demo_arguments
    /\ Forall index_in_route (vehicles st)
    /\ batch_count st = len ["t0"; "t1"]%string
    /\ total_events_sent st
       = (len ["t0"; "t1"]%string * len (vehicles st))%Z.
Proof.
  exact (@validated_feed_runs _ _ unreachable_hub (fresh_hub _)
           demo_environment "demo-transit" "all-routes" 1000 0.5%R None None
           true demo_arguments same_draws ["t0"; "t1"]%string demo_feed_runs
           (same_draws_in_range
              (route_tag_of (arg_route demo_arguments)))).
Defined.

(* ================================================================= *)
(** * The loop of [advance], in full *)

Module Skipping.

Import Exact.

Local Open Scope R_scope.

Lemma Int_part_minus_one (q : R) : Int_part (q - 1) = (Int_part q - 1)%Z.
Proof.
  symmetry. apply Int_part_spec.
  destruct (base_Int_part q) as [Hlo Hhi].
  rewrite minus_IZR. lra.
Qed.

Lemma Int_part_unit (q : R) : 0 <= q < 1 -> Int_part q = 0%Z.
Proof. intros Hq. symmetry. apply Int_part_spec. lra. Qed.

Lemma Int_part_pos (q : R) : 1 <= q -> (1 <= Int_part q)%Z.
Proof.
  intros Hq. destruct (base_Int_part q) as [Hlo Hhi].
  assert (H : 0 < IZR (Int_part q)) by lra.
  apply lt_IZR in H. lia.
Qed.

(** The loop of [advance] with fuel for the waypoints ahead. *)
Lemma advance_loop_floor (fuel : nat) (last : Z) :
  forall (idx : Z) (q : R),
    0 <= q -> (idx < last)%Z -> (last - idx <= Z.of_nat fuel)%Z ->
    advance_loop fuel last idx q
    = Returns (if (idx + Int_part q <? last)%Z
               then ((idx + Int_part q)%Z, q - IZR (Int_part q))
               else (0%Z, 0)).
Proof.
  induction fuel as [|fuel IH]; intros idx q Hq Hidx Hfuel;
    rewrite advance_loop_unfold; [lia|].
  destruct (Rgeb q 1) eqn:Hge.
  - replace (idx <? last)%Z with true by (symmetry; apply Z.ltb_lt; lia).
    cbn [andb]. apply Rgeb_true in Hge.
    pose proof (@Int_part_pos q ltac:(lra)) as Hip.
    destruct (Z.geb_spec (idx + 1) last) as [Hend|Hmore].
    + replace (idx + Int_part q <? last)%Z with false
        by (symmetry; apply Z.ltb_ge; lia).
      reflexivity.
    + rewrite IH by (try lra; lia).
      rewrite Int_part_minus_one.
      replace (idx + 1 + (Int_part q - 1))%Z with (idx + Int_part q)%Z by lia.
      rewrite minus_IZR.
      replace (q - 1 - (IZR (Int_part q) - 1)) with (q - IZR (Int_part q))
        by ring.
      reflexivity.
  - cbn [andb]. apply Rgeb_false in Hge.
    rewrite (@Int_part_unit q) by lra.
    rewrite Z.add_0_r.
    replace (idx <? last)%Z with true by (symmetry; apply Z.ltb_lt; lia).
    replace (q - 0) with q by ring. reflexivity.
Qed.

(** X26.  A step on a segment that has a length, in full: with [q] the
    progress after the step, not negative, the vehicle skips [floor q] whole
    segments, each counted as one unit of progress whatever its length, and
    keeps the fractional part of [q] as its progress; when this would bring
    it to the last waypoint or past it, it is reset to index 0 with
    progress 0. *)
Theorem advance_skips_whole_segments (v : VehicleR) (dt : R)
  (cw nw : point R) :
  (0 <= current_waypoint_index v < len (waypoints (route v)) - 1)%Z ->
  py_index (waypoints (route v)) (current_waypoint_index v) = Returns cw ->
  py_index (waypoints (route v)) (current_waypoint_index v + 1)
  = Returns nw ->
  distance cw nw <> 0 ->
  0 <= progress_to_next_waypoint v
       + speed_km_hr v / 3600 * dt / distance cw nw ->
  let q := progress_to_next_waypoint v
           + speed_km_hr v / 3600 * dt / distance cw nw in
  exists v',
    advance v dt = Returns v'
    /\ ((current_waypoint_index v + Int_part q
         < len (waypoints (route v)) - 1)%Z ->
        current_waypoint_index v'
        = (current_waypoint_index v + Int_part q)%Z
        /\ progress_to_next_waypoint v' = q - IZR (Int_part q))
    /\ ((len (waypoints (route v)) - 1
         <= current_waypoint_index v + Int_part q)%Z ->
        current_waypoint_index v' = 0%Z
        /\ progress_to_next_waypoint v' = 0).
Proof.
  intros [Hlo Hlt] Hcw Hnw Hnz Hq q.
  pose proof (@advance_loop_floor
                (Z.to_nat (len (waypoints (route v)) - 1
                           - current_waypoint_index v))
                (len (waypoints (route v)) - 1) (current_waypoint_index v)
                q Hq ltac:(lia) ltac:(lia)) as Hloop.
  destruct (Z.ltb_spec (current_waypoint_index v + Int_part q)
                       (len (waypoints (route v)) - 1)) as [Hin|Hout];
    destruct (@Motion.advance_after_loop v dt cw nw _ _
                ltac:(lia) Hcw Hnw Hnz Hloop) as (v' & Hadv & _ & Hi & Hp);
    exists v'; (split; [exact Hadv|]); rewrite Hi, Hp;
    split; intros H; try lia; split; reflexivity.
Qed.

End Skipping.

(** [Skipping.advance_skips_whole_segments] on a route of two waypoints. *)
Lemma advance_skips_whole_segments_witness :
  let v := vehicle_on_short_hop (1 / 2) in
  let q := (progress_to_next_waypoint v
            + speed_km_hr v / 3600 * 30 / distance (0, 0) (0, 1))%R in
  exists v',
    advance v 30%R = Returns v'
    /\ ((current_waypoint_index v + Int_part q
         < len (waypoints (route v)) - 1)%Z ->
        current_waypoint_index v'
        = (current_waypoint_index v + Int_part q)%Z
        /\ progress_to_next_waypoint v' = (q - IZR (Int_part q))%R)
    /\ ((len (waypoints (route v)) - 1
         <= current_waypoint_index v + Int_part q)%Z ->
        current_waypoint_index v' = 0%Z
        /\ progress_to_next_waypoint v' = 0%R).
Proof.
  intros v q.
  apply (@Skipping.advance_skips_whole_segments v 30%R (0, 0)%R (0, 1)%R).
  - cbn. lia.
  - reflexivity.
  - reflexivity.
  - exact short_hop_segment_has_length.
  - pose proof Exact.distance_equator_degree_pos as Hd.
    cbn [v vehicle_on_short_hop progress_to_next_waypoint speed_km_hr].
    apply Rplus_le_le_0_compat; [lra|].
    apply Rmult_le_pos; [lra|]. left. apply Rinv_0_lt_compat. exact Hd.
Defined.
